(** * cooDb: a Bitcask-style key-value store

    A shallow embedding of the storage core of the repository
    (src/coodb: data/log_record.py, data/data_file.py, fio/io_manager.py,
    batch.py, db.py, and the strings of redis/types.py) together with
    the properties of the specification that were checked against it
    and further properties of the code.

    Conventions.  Python [bytes]/[bytearray] values are [list byte]; Python
    integers are [Z]; a function that may raise returns [result]; an
    [Optional] return is an [option].  Files are their byte contents. *)

From Stdlib Require Import ZArith List Lia Strings.Byte Strings.String Strings.Ascii.
From Stdlib Require Import DecimalString DecimalZ DecimalN.
From stdpp Require Import gmap list strings sorting.

Open Scope Z_scope.

(* ================================================================== *)
(** * Part I: the embedding                                            *)
(* ================================================================== *)

(** ** Exceptions and results *)

Inductive exn : Type :=
  | StructError          (* struct.error *)
  | ValueError
  | AttributeError
  | IndexError
  | IOError
  | TypeError
  | ErrKeyIsEmpty
  | ErrDatabaseClosed
  | ErrBatchClosed
  | ErrDataFileNotFound
  | ErrDatabaseIsUsing.

Inductive result (A : Type) : Type :=
  | Ok (a : A)
  | Raise (e : exn).
Arguments Ok {A} a.
Arguments Raise {A} e.

Definition rbind {A B} (m : result A) (k : A -> result B) : result B :=
  match m with
  | Ok a => k a
  | Raise e => Raise e
  end.

Notation "'do' x <- m ; k" := (rbind m (fun x => k))
  (at level 10, x pattern, m at level 100, k at level 200).

Definition is_ok {A} (m : result A) : bool :=
  match m with Ok _ => true | Raise _ => false end.

(** ** Bytes *)

Abbreviation bytes := (list byte).

(** [len(b)] *)
Definition len {A} (l : list A) : Z := Z.of_nat (length l).

Definition byte_val (b : byte) : Z := Z.of_N (Byte.to_N b).

Definition byte_of (z : Z) : byte :=
  match Byte.of_N (Z.to_N z) with
  | Some b => b
  | None => x00
  end.

(** [bytearray(n)]: [n] zero bytes. *)
Definition bytearray (n : Z) : bytes := replicate (Z.to_nat n) x00.

(** Slices with non-negative bounds: [b[lo:hi]], [b[lo:]], [b[:hi]]. *)
Definition slice {A} (lo hi : Z) (l : list A) : list A :=
  take (Z.to_nat (hi - lo)) (drop (Z.to_nat lo) l).
Definition slice_from {A} (lo : Z) (l : list A) : list A := drop (Z.to_nat lo) l.
Definition slice_to {A} (hi : Z) (l : list A) : list A := take (Z.to_nat hi) l.

(** Slice assignment [b[lo:hi] = src] on a bytearray. *)
Definition set_slice (b : bytes) (lo hi : Z) (src : bytes) : bytes :=
  take (Z.to_nat lo) b ++ src ++ drop (Z.to_nat (Z.max lo hi)) b.

(** Item assignment [b[i] = v]; out of range raises [IndexError]. *)
Definition setitem (b : bytes) (i : Z) (v : byte) : result bytes :=
  if (0 <=? i) && (i <? len b) then Ok (<[Z.to_nat i := v]> b) else Raise IndexError.

(** ** The [struct] module: fixed-width unsigned integers *)

Fixpoint le_bytes (n : nat) (z : Z) : bytes :=
  match n with
  | O => []
  | S n' => byte_of (z mod 256) :: le_bytes n' (z / 256)
  end.

Fixpoint le_value (bs : bytes) : Z :=
  match bs with
  | [] => 0
  | b :: bs' => byte_val b + 256 * le_value bs'
  end.

Definition be_bytes (n : nat) (z : Z) : bytes := rev (le_bytes n z).
Definition be_value (bs : bytes) : Z := le_value (rev bs).

Inductive byteorder : Type := LittleEndian | BigEndian.

Definition uint_bytes (o : byteorder) (n : nat) (z : Z) : bytes :=
  match o with
  | LittleEndian => le_bytes n z
  | BigEndian => be_bytes n z
  end.

Definition uint_value (o : byteorder) (bs : bytes) : Z :=
  match o with
  | LittleEndian => le_value bs
  | BigEndian => be_value bs
  end.

(** Packing an unsigned field of [n] bytes: [struct.error] when the value
    does not fit. *)
Definition pack_uint (o : byteorder) (n : nat) (z : Z) : result bytes :=
  if (0 <=? z) && (z <? 256 ^ Z.of_nat n) then Ok (uint_bytes o n z)
  else Raise StructError.

(** [struct.pack_into(">I", buf, off, z)] *)
Definition pack_into_u32_be (buf : bytes) (off : Z) (z : Z) : result bytes :=
  do bs <- pack_uint BigEndian 4 z;
  if (0 <=? off) && (off + 4 <=? len buf)
  then Ok (take (Z.to_nat off) buf ++ bs ++ drop (Z.to_nat (off + 4)) buf)
  else Raise StructError.

(** [struct.unpack(">I", bs)[0]]: the buffer must hold exactly 4 bytes. *)
Definition unpack_u32_be (bs : bytes) : result Z :=
  if (length bs =? 4)%nat then Ok (be_value bs) else Raise StructError.

(** ** [zlib.crc32]: CRC-32 (IEEE 802.3), reflected, bit by bit *)

Definition crc_poly : Z := 0xEDB88320.

Definition crc_shift (c : Z) : Z :=
  if Z.testbit c 0 then Z.lxor (Z.shiftr c 1) crc_poly else Z.shiftr c 1.

Definition crc_byte (c : Z) (b : byte) : Z :=
  Nat.iter 8 crc_shift (Z.lxor c (byte_val b)).

Definition crc32 (bs : bytes) : Z :=
  Z.lxor (fold_left crc_byte bs 0xFFFFFFFF) 0xFFFFFFFF.

(** ** data/log_record.py *)

Definition HEADER_SIZE : Z := 13.

Inductive LogRecordType : Type :=
  | NORMAL | DELETED | TXNSTART | TXNFINISHED | TXNABORT.

Definition type_value (t : LogRecordType) : Z :=
  match t with
  | NORMAL => 1 | DELETED => 2 | TXNSTART => 3 | TXNFINISHED => 4 | TXNABORT => 5
  end.

(** [LogRecordType(v)]: [ValueError] for a value outside the enumeration. *)
Definition type_of_value (v : Z) : result LogRecordType :=
  match v with
  | 1 => Ok NORMAL | 2 => Ok DELETED | 3 => Ok TXNSTART
  | 4 => Ok TXNFINISHED | 5 => Ok TXNABORT
  | _ => Raise ValueError
  end.

Record LogRecord : Type := mkLogRecord {
  key : bytes;
  value : bytes;
  rtype : LogRecordType
}.

Record LogRecordPos : Type := mkLogRecordPos {
  file_id : Z;
  offset : Z;
  size : Z
}.

Module LogRecord_.

(** [LogRecord.encode]: the buffer is allocated zeroed and filled in
    place, the CRC of everything after the first four bytes goes in last. *)
Definition encode (r : LogRecord) : result (bytes * Z) :=
  let key_size := len (key r) in
  let value_size := len (value r) in
  let total_size := HEADER_SIZE + key_size + value_size in
  let enc_bytes := bytearray total_size in
  do enc_bytes <- setitem enc_bytes 4 (byte_of (type_value (rtype r)));
  do enc_bytes <- pack_into_u32_be enc_bytes 5 key_size;
  do enc_bytes <- pack_into_u32_be enc_bytes 9 value_size;
  let pos := HEADER_SIZE in
  let enc_bytes := set_slice enc_bytes pos (pos + key_size) (key r) in
  let pos := pos + key_size in
  let enc_bytes := set_slice enc_bytes pos (pos + value_size) (value r) in
  let crc := crc32 (slice_from 4 enc_bytes) in
  do enc_bytes <- pack_into_u32_be enc_bytes 0 crc;
  Ok (enc_bytes, total_size).

(** [LogRecord.decode]: every exception inside the [try] gives [None]. *)
Definition decode_body (data : bytes) : result (option LogRecord) :=
  do crc <- unpack_u32_be (slice_to 4 data);
  do record_type <-
    match data !! 4%nat with Some b => Ok (byte_val b) | None => Raise IndexError end;
  do key_size <- unpack_u32_be (slice 5 9 data);
  do value_size <- unpack_u32_be (slice 9 13 data);
  let computed_crc := crc32 (slice_from 4 data) in
  if negb (crc =? computed_crc) then Ok None
  else
    let k := slice HEADER_SIZE (HEADER_SIZE + key_size) data in
    let v := if 0 <? value_size
             then slice (HEADER_SIZE + key_size) (HEADER_SIZE + key_size + value_size) data
             else [] in
    do t <- type_of_value record_type;
    Ok (Some (mkLogRecord k v t)).

Definition decode (data : bytes) : option LogRecord :=
  if len data <? HEADER_SIZE then None
  else match decode_body data with
       | Ok r => r
       | Raise _ => None
       end.

End LogRecord_.

Module LogRecordPos_.

(** [struct.pack("=IQI", file_id, offset, size)]: native byte order,
    standard sizes, no padding.  The byte order of the host is a
    parameter of the model. *)
Definition encode (host : byteorder) (p : LogRecordPos) : result bytes :=
  do a <- pack_uint host 4 (file_id p);
  do b <- pack_uint host 8 (offset p);
  do c <- pack_uint host 4 (size p);
  Ok (a ++ b ++ c).

(** [struct.unpack("=IQI", data)]: exactly 16 bytes, otherwise the
    [struct.error] is turned into a [ValueError]. *)
Definition decode (host : byteorder) (data : bytes) : result LogRecordPos :=
  if (length data =? 16)%nat
  then Ok (mkLogRecordPos (uint_value host (slice 0 4 data))
                          (uint_value host (slice 4 12 data))
                          (uint_value host (slice 12 16 data)))
  else Raise ValueError.

End LogRecordPos_.

(** ** fio/io_manager.py *)

(** The two backends work on one file, opened with mode "ab+": every
    write through the descriptor lands at the end of the file, wherever
    the position was left by [seek].  A file is its contents. *)

Module FileIOManager.

(** The manager holds the descriptor; its state is the file's contents. *)
Definition t : Type := bytes.

Definition init (contents : bytes) : t := contents.

(** [read]: [fd.seek(offset)] then [fd.readinto(b)]; returns the count
    and the caller's buffer after the call.  A negative offset makes
    [seek] fail. *)
Definition read (m : t) (b : bytes) (offset : Z) : result (Z * bytes) :=
  if offset <? 0 then Raise IOError
  else
    let data := slice offset (offset + len b) m in
    Ok (len data, data ++ slice_from (len data) b).

(** [write]: [fd.write(b)], appended. *)
Definition write (m : t) (b : bytes) : result (t * Z) := Ok (m ++ b, len b).

Definition size (m : t) : Z := len m.

End FileIOManager.

Module MMapIOManager.

(** [mm_file] is the file behind the descriptor, [mmap] tells whether
    [self.mmap] is a mapping ([true]) or [None] ([false]); a mapping
    shares the first [size_value] bytes of the file. *)
Record t : Type := mk {
  mm_file : bytes;
  mmap : bool;
  size_value : Z
}.

(** [__init__] with [_init_mmap]: an empty file gets no mapping. *)
Definition init (contents : bytes) : t :=
  let size := len contents in
  mk contents (0 <? size) size.

(** [mmap.mmap(fileno, length)]: on Windows, which the repository
    targets (data_file.py imports msvcrt, and tests/test_fio.py expects
    writes through this backend to succeed), a length beyond the end of
    the file extends the file with zero bytes. *)
Definition map_file (file : bytes) (length : Z) : bytes :=
  file ++ bytearray (length - len file).

(** [_grow]: the byte written after [seek(new_size - 1)] is appended,
    the file being open in append mode; then the file is mapped again. *)
Definition _grow (m : t) (new_size : Z) : t :=
  let file := mm_file m ++ [x00] in
  mk (map_file file new_size) true new_size.

Definition read (m : t) (b : bytes) (offset : Z) : result (Z * bytes) :=
  if size_value m <=? offset then Ok (0, b)
  else if negb (mmap m) then Ok (0, b)
  else
    let read_size := Z.min (len b) (size_value m - offset) in
    if offset <? 0 then Raise ValueError       (* mmap.seek out of range *)
    else
      let data := slice offset (offset + read_size) (mm_file m) in
      Ok (read_size, set_slice b 0 read_size data).

Definition write (m : t) (b : bytes) : result (t * Z) :=
  let current_size := size_value m in
  let new_size := current_size + len b in
  let m := if current_size <? new_size then _grow m new_size else m in
  if negb (mmap m) then Raise AttributeError   (* None has no attribute seek *)
  else if size_value m <? current_size + len b then Raise ValueError
  else
    Ok (mk (set_slice (mm_file m) current_size (current_size + len b) b)
           (mmap m) (size_value m),
        len b).

Definition size (m : t) : Z := size_value m.

End MMapIOManager.

(** The operations of the common contract, and what a call returns. *)
Inductive io_op : Type :=
  | IoWrite (b : bytes)
  | IoRead (buf : bytes) (offset : Z)
  | IoSize.

Inductive io_ret : Type :=
  | RetWrite (n : Z)
  | RetRead (n : Z) (buf : bytes)
  | RetSize (n : Z).

Definition file_step (m : FileIOManager.t) (op : io_op) : result (FileIOManager.t * io_ret) :=
  match op with
  | IoWrite b => do r <- FileIOManager.write m b; Ok (fst r, RetWrite (snd r))
  | IoRead buf off => do r <- FileIOManager.read m buf off; Ok (m, RetRead (fst r) (snd r))
  | IoSize => Ok (m, RetSize (FileIOManager.size m))
  end.

Definition mmap_step (m : MMapIOManager.t) (op : io_op) : result (MMapIOManager.t * io_ret) :=
  match op with
  | IoWrite b => do r <- MMapIOManager.write m b; Ok (fst r, RetWrite (snd r))
  | IoRead buf off => do r <- MMapIOManager.read m buf off; Ok (m, RetRead (fst r) (snd r))
  | IoSize => Ok (m, RetSize (MMapIOManager.size m))
  end.

(** A sequence of calls: the values returned, up to the first exception. *)
Fixpoint file_run (m : FileIOManager.t) (ops : list io_op) : result (list io_ret) :=
  match ops with
  | [] => Ok []
  | op :: ops' =>
      do r <- file_step m op;
      do rs <- file_run (fst r) ops';
      Ok (snd r :: rs)
  end.

Fixpoint mmap_run (m : MMapIOManager.t) (ops : list io_op) : result (list io_ret) :=
  match ops with
  | [] => Ok []
  | op :: ops' =>
      do r <- mmap_step m op;
      do rs <- mmap_run (fst r) ops';
      Ok (snd r :: rs)
  end.

(** ** data/data_file.py *)

Module DataFile.

(** A data file: its id, its I/O manager and the write offset.  The
    database opens every data file with the default I/O type, the
    buffered backend. *)
Record t : Type := mk {
  file_id : Z;
  io_manager : FileIOManager.t;
  write_offset : Z
}.

(** [DataFile(dir_path, file_id)] on a file with the given contents. *)
Definition init (fid : Z) (contents : bytes) : t :=
  let io := FileIOManager.init contents in
  mk fid io (FileIOManager.size io).

Definition size (f : t) : Z := FileIOManager.size (io_manager f).

(** The sanity cap on [key_size + value_size]. *)
Definition MAX_RECORD_BODY : Z := 100 * 1024 * 1024.

(** The body of [read_log_record]; [Ok None] is an explicit [return None]. *)
Definition read_log_record_body (f : t) (offset : Z) : result (option (LogRecord * Z)) :=
  let file_size := FileIOManager.size (io_manager f) in
  if file_size <=? offset then Ok None
  else if file_size <? offset + HEADER_SIZE then Ok None
  else
    do hr <- FileIOManager.read (io_manager f) (bytearray HEADER_SIZE) offset;
    let header_buf := snd hr in
    if negb (fst hr =? HEADER_SIZE) then Ok None
    else
      do crc <- unpack_u32_be (slice_to 4 header_buf);
      do record_type <-
        match header_buf !! 4%nat with
        | Some b => Ok (byte_val b)
        | None => Raise IndexError
        end;
      do key_size <- unpack_u32_be (slice 5 9 header_buf);
      do value_size <- unpack_u32_be (slice 9 13 header_buf);
      if negb ((record_type =? type_value NORMAL) || (record_type =? type_value DELETED)
               || (record_type =? type_value TXNFINISHED))
      then Ok None
      else if (key_size <=? 0) || (value_size <? 0)
              || (MAX_RECORD_BODY <? key_size + value_size)
      then Ok None
      else
        let total_size := HEADER_SIZE + key_size + value_size in
        if file_size <? offset + total_size then Ok None
        else
          do rr <- FileIOManager.read (io_manager f) (bytearray total_size) offset;
          let record_buf := snd rr in
          if negb (fst rr =? total_size) then Ok None
          else
            let computed_crc := crc32 (slice_from 4 record_buf) in
            if negb (crc =? computed_crc) then Ok None
            else
              let k := slice HEADER_SIZE (HEADER_SIZE + key_size) record_buf in
              let v := if 0 <? value_size
                       then slice_from (HEADER_SIZE + key_size) record_buf
                       else [] in
              do ty <- type_of_value record_type;
              Ok (Some (mkLogRecord k v ty, total_size)).

(** [read_log_record]: any exception is caught and gives [None]. *)
Definition read_log_record (f : t) (offset : Z) : option (LogRecord * Z) :=
  match read_log_record_body f offset with
  | Ok r => r
  | Raise _ => None
  end.

(** [write_log_record]: returns the offset the record was written at and
    its encoded size. *)
Definition write_log_record (f : t) (r : LogRecord) : result (t * (Z * Z)) :=
  let offset := write_offset f in
  do e <- LogRecord_.encode r;
  let encoded_data := fst e in
  let size := snd e in
  do w <- FileIOManager.write (io_manager f) encoded_data;
  if negb (snd w =? len encoded_data) then Raise IOError
  else Ok (mk (file_id f) (fst w) (write_offset f + size), (offset, size)).

End DataFile.

(** ** options.py and index/: what db.py uses of them *)

Inductive IndexType : Type := BTREE | ART | BPTREE | SKIPLIST.

Definition is_btree (t : IndexType) : bool :=
  match t with BTREE => true | _ => false end.

(** The fields of [Options] that db.py and batch.py read. *)
Record Options : Type := mkOptions {
  max_file_size : Z;
  sync_writes : bool;
  bytes_per_sync : Z;
  index_type : IndexType;
  mmap_at_startup : bool
}.

#[global] Instance byte_eqdec : EqDecision byte := Byte.byte_eq_dec.
#[global] Instance byte_countable : Countable byte :=
  inj_countable Byte.to_N Byte.of_N Byte.of_to_N.

Module Indexer.

(** Modelled from the spec: the index backends (index/btree.py and the
    others) are missing from the sources; section 4.5 gives the contract:
    a map from keys to record positions where [put] returns the previous
    position, [get] the current one and [delete] the removed one. *)
Abbreviation t := (gmap bytes LogRecordPos).

Definition empty : t := ∅.

Definition put (idx : t) (k : bytes) (pos : LogRecordPos) : t * option LogRecordPos :=
  (<[k := pos]> idx, idx !! k).

Definition get (idx : t) (k : bytes) : option LogRecordPos := idx !! k.

Definition delete (idx : t) (k : bytes) : t * option LogRecordPos :=
  (base.delete k idx, idx !! k).

Definition size (idx : t) : Z := Z.of_nat (base.size idx).

End Indexer.

(** ** Strings of integers and ordered dicts *)

(** [str(n).encode()]: the decimal digits of an integer, in ASCII. *)
Definition py_str_int (z : Z) : string := NilZero.string_of_int (Z.to_int z).
Definition str_encode (s : string) : bytes := list_byte_of_string s.

(** Assignment [d[k] = v] on a dict, which keeps insertion order: an
    existing key keeps its place. *)
Fixpoint dict_set {V} (d : list (bytes * V)) (k : bytes) (v : V) : list (bytes * V) :=
  match d with
  | [] => [(k, v)]
  | (k', v') :: d' =>
      if decide (k = k') then (k', v) :: d' else (k', v') :: dict_set d' k v
  end.

Fixpoint dict_get {V} (d : list (bytes * V)) (k : bytes) : option V :=
  match d with
  | [] => None
  | (k', v') :: d' => if decide (k = k') then Some v' else dict_get d' k
  end.

(** ** Methods

    Methods change their object and then return or raise: a method is a
    function from the state to the outcome and the state it leaves. *)
Definition M (S A : Type) : Type := S -> result A * S.

Definition mret {S A} (a : A) : M S A := fun s => (Ok a, s).
Definition mraise {S A} (e : exn) : M S A := fun s => (Raise e, s).
Definition mbind {S A B} (m : M S A) (k : A -> M S B) : M S B :=
  fun s => match m s with
           | (Ok a, s') => k a s'
           | (Raise e, s') => (Raise e, s')
           end.
Definition mmodify {S} (f : S -> S) : M S unit := fun s => (Ok tt, f s).

Notation "'let*' x := m 'in' k" := (mbind m (fun x => k))
  (at level 10, x pattern, m at level 100, k at level 200).
Notation "m ;;; k" := (mbind m (fun _ => k)) (at level 100, k at level 200, right associativity).

(** The directory: names and contents, in the order [os.listdir] gives. *)
Definition directory : Type := list (string * bytes).

(** ** db.py: the database object *)

Module DB.

(** [seq_no] is [None] when [_load_seq_no] fell through without a
    [return]; [dir_rest] holds the files of the directory that the
    database keeps no data file open on. *)
Record t : Type := mk {
  options : Options;
  active_file : option DataFile.t;
  older_files : gmap Z DataFile.t;
  index : gmap bytes LogRecordPos;
  file_ids : list Z;
  is_closed : bool;
  seq_no : option Z;
  is_merging : bool;
  bytes_write : Z;
  reclaim_size : Z;
  dir_rest : directory
}.

Definition set_active_file (a : option DataFile.t) (db : t) : t :=
  mk (options db) a (older_files db) (index db) (file_ids db) (is_closed db)
       (seq_no db) (is_merging db) (bytes_write db) (reclaim_size db) (dir_rest db).
Definition set_older_files (o : gmap Z DataFile.t) (db : t) : t :=
  mk (options db) (active_file db) o (index db) (file_ids db) (is_closed db)
       (seq_no db) (is_merging db) (bytes_write db) (reclaim_size db) (dir_rest db).
Definition set_index (i : gmap bytes LogRecordPos) (db : t) : t :=
  mk (options db) (active_file db) (older_files db) i (file_ids db) (is_closed db)
       (seq_no db) (is_merging db) (bytes_write db) (reclaim_size db) (dir_rest db).
Definition set_file_ids (l : list Z) (db : t) : t :=
  mk (options db) (active_file db) (older_files db) (index db) l (is_closed db)
       (seq_no db) (is_merging db) (bytes_write db) (reclaim_size db) (dir_rest db).
Definition set_is_closed (c : bool) (db : t) : t :=
  mk (options db) (active_file db) (older_files db) (index db) (file_ids db) c
       (seq_no db) (is_merging db) (bytes_write db) (reclaim_size db) (dir_rest db).
Definition set_seq_no (s : option Z) (db : t) : t :=
  mk (options db) (active_file db) (older_files db) (index db) (file_ids db) (is_closed db)
       s (is_merging db) (bytes_write db) (reclaim_size db) (dir_rest db).
Definition set_bytes_write (b : Z) (db : t) : t :=
  mk (options db) (active_file db) (older_files db) (index db) (file_ids db) (is_closed db)
       (seq_no db) (is_merging db) b (reclaim_size db) (dir_rest db).
Definition set_reclaim_size (r : Z) (db : t) : t :=
  mk (options db) (active_file db) (older_files db) (index db) (file_ids db) (is_closed db)
       (seq_no db) (is_merging db) (bytes_write db) r (dir_rest db).
Definition set_dir_rest (d : directory) (db : t) : t :=
  mk (options db) (active_file db) (older_files db) (index db) (file_ids db) (is_closed db)
       (seq_no db) (is_merging db) (bytes_write db) (reclaim_size db) d.

Definition index_type_of (db : t) : IndexType := index_type (options db).

(** [file_ids[-1] + 1 if file_ids else 1] *)
Definition next_file_id (ids : list Z) : Z :=
  match last ids with
  | Some i => i + 1
  | None => 1
  end.

(** The test that opens a new active file in [_append_log_record]. *)
Definition needs_new_file (db : t) : bool :=
  match active_file db with
  | None => true
  | Some a => max_file_size (options db) <=? DataFile.write_offset a
  end.

(** The rollover branch of [_append_log_record].  The file with the new
    id, one past the last id, is opened by [DataFile(dir_path, new_id)];
    no file of that id exists yet and it starts empty. *)
Definition rollover (db : t) : t :=
  let new_file_id := next_file_id (file_ids db) in
  let db :=
    match active_file db with
    | Some a => set_older_files (<[DataFile.file_id a := a]> (older_files db)) db
    | None => db
    end in
  let db := set_active_file (Some (DataFile.init new_file_id [])) db in
  set_file_ids (file_ids db ++ [new_file_id]) db.

Definition _append_log_record (record : LogRecord) : M t LogRecordPos := fun db =>
  let db := if needs_new_file db then rollover db else db in
  match active_file db with
  | None => (Raise AttributeError, db)
  | Some a =>
      match DataFile.write_log_record a record with
      | Ok (a', (off, sz)) =>
          (Ok (mkLogRecordPos (DataFile.file_id a') off sz), set_active_file (Some a') db)
      | Raise e => (Raise e, db)
      end
  end.

(** [index.put] followed by the reclaim accounting of the callers. *)
Definition index_put_reclaim (k : bytes) (pos : LogRecordPos) (db : t) : t :=
  let '(idx, old_pos) := Indexer.put (index db) k pos in
  let db := set_index idx db in
  match old_pos with
  | Some o => set_reclaim_size (reclaim_size db + size o) db
  | None => db
  end.

Definition index_delete_reclaim (k : bytes) (db : t) : t :=
  let '(idx, old_pos) := Indexer.delete (index db) k in
  let db := set_index idx db in
  match old_pos with
  | Some o => set_reclaim_size (reclaim_size db + size o) db
  | None => db
  end.

(** The sync policy at the end of [put] and [delete]; syncing leaves the
    contents as they are. *)
Definition sync_policy (db : t) : t :=
  if sync_writes (options db)
     || ((0 <? bytes_per_sync (options db))
         && (bytes_per_sync (options db) <=? bytes_write db))
  then set_bytes_write 0 db
  else db.

Definition put (k v : bytes) : M t unit := fun db =>
  if is_closed db then (Raise ErrDatabaseClosed, db)
  else if decide (k = []) then (Raise ErrKeyIsEmpty, db)
  else
    let record := mkLogRecord k v NORMAL in
    (let* pos := _append_log_record record in
     mmodify (index_put_reclaim k pos) ;;;
     mmodify (fun db => set_bytes_write (bytes_write db + (len k + len v)) db) ;;;
     mmodify sync_policy) db.

(** [_get_value_by_position] *)
Definition _get_value_by_position (db : t) (pos : LogRecordPos) : result (option bytes) :=
  match active_file db with
  | None => Raise AttributeError
  | Some a =>
      let data_file :=
        if file_id pos =? DataFile.file_id a then Some a
        else older_files db !! file_id pos in
      match data_file with
      | None => Raise ErrDataFileNotFound
      | Some f =>
          match DataFile.read_log_record f (offset pos) with
          | None => Ok None
          | Some (record, _) =>
              match rtype record with
              | DELETED => Ok None
              | _ => Ok (Some (value record))
              end
          end
      end
  end.

(** [get] leaves the database as it is. *)
Definition get (db : t) (k : bytes) : result (option bytes) :=
  if is_closed db then Raise ErrDatabaseClosed
  else if decide (k = []) then Raise ErrKeyIsEmpty
  else
    match Indexer.get (index db) k with
    | None => Ok None
    | Some pos =>
        match _get_value_by_position db pos with
        | Ok v => Ok v
        | Raise _ => Ok None
        end
    end.

Definition delete (k : bytes) : M t unit := fun db =>
  if is_closed db then (Raise ErrDatabaseClosed, db)
  else if decide (k = []) then (Raise ErrKeyIsEmpty, db)
  else
    match Indexer.get (index db) k with
    | None => (Ok tt, db)
    | Some _ =>
        let record := mkLogRecord k [] DELETED in
        (let* pos := _append_log_record record in
         mmodify (index_delete_reclaim k) ;;;
         mmodify (fun db => set_bytes_write (bytes_write db + len k) db) ;;;
         mmodify sync_policy) db
    end.

(** ** db.py: file names, opening and closing *)

Open Scope string_scope.

Definition SEQ_NO_KEY : string := "seq_no".
Definition MERGE_FINISHED_KEY : string := "merge_finished".
Definition MERGE_FILENAME : string := "merge.data".
Definition FILE_LOCK_NAME : string := "flock".
Definition HINT_FILE_NAME : string := "hint-index".
Definition DATA_FILE_NAME_SUFFIX : string := ".data".

(** [s.startswith(p)] and [s.endswith(p)] *)
Definition str_startswith (s p : string) : bool := String.prefix p s.

Fixpoint str_endswith (s p : string) : bool :=
  String.eqb s p ||
  match s with
  | EmptyString => false
  | String _ s' => str_endswith s' p
  end.

(** [s.split('.')[0]] *)
Fixpoint before_dot (s : string) : string :=
  match s with
  | EmptyString => EmptyString
  | String c s' => if Ascii.eqb c "." then EmptyString else String c (before_dot s')
  end.

(** [int(s)] on an ASCII string: surrounding whitespace is dropped, an
    optional sign, then decimal digits, single underscores allowed
    between digits; anything else is a [ValueError]. *)
Definition is_space (c : ascii) : bool :=
  let n := N_of_ascii c in
  ((9 <=? n) && (n <=? 13) || (28 <=? n) && (n <=? 32))%N.

Definition digit_val (c : ascii) : option Z :=
  let n := N_of_ascii c in
  if ((48 <=? n) && (n <=? 57))%N then Some (Z.of_N n - 48)%Z else None.

Fixpoint lstrip (s : string) : string :=
  match s with
  | EmptyString => EmptyString
  | String c s' => if is_space c then lstrip s' else s
  end.

Fixpoint rstrip (s : string) : string :=
  match s with
  | EmptyString => EmptyString
  | String c s' =>
      match rstrip s' with
      | EmptyString => if is_space c then EmptyString else String c EmptyString
      | r => String c r
      end
  end.

Fixpoint int_digits (s : string) (acc : Z) (after_digit : bool) : option Z :=
  match s with
  | EmptyString => if after_digit then Some acc else None
  | String c s' =>
      match digit_val c with
      | Some d => int_digits s' (10 * acc + d)%Z true
      | None => if Ascii.eqb c "_" && after_digit then int_digits s' acc false else None
      end
  end.

Definition py_int (s : string) : result Z :=
  let s := rstrip (lstrip s) in
  let r :=
    match s with
    | String "+" s' => int_digits s' 0%Z false
    | String "-" s' => option_map Z.opp (int_digits s' 0%Z false)
    | _ => int_digits s 0%Z false
    end in
  match r with
  | Some z => Ok z
  | None => Raise ValueError
  end.

(** [f"{n:09d}"]: decimal, zero-padded to nine characters, sign first. *)
Fixpoint zeros (k : nat) : string :=
  match k with
  | O => EmptyString
  | S k' => String "0" (zeros k')
  end.

Definition format_09d (n : Z) : string :=
  let digits := NilZero.string_of_uint (N.to_uint (Z.to_N (Z.abs n))) in
  if (n <? 0)%Z
  then String "-" (zeros (8 - String.length digits) ++ digits)
  else zeros (9 - String.length digits) ++ digits.

(** The name of a data file in the directory
    ([DataFile.get_data_file_path] without the directory part). *)
Definition get_data_file_path (file_id : Z) : string :=
  format_09d file_id ++ DATA_FILE_NAME_SUFFIX.

Close Scope string_scope.

(** The directory as a store of files. *)
Fixpoint dir_lookup (d : directory) (name : string) : option bytes :=
  match d with
  | [] => None
  | (n, c) :: d' => if String.eqb n name then Some c else dir_lookup d' name
  end.

Definition dir_remove (d : directory) (name : string) : directory :=
  filter (fun e => negb (String.eqb (fst e) name)) d.

(** [open(path, "wb")] and a write: the file is replaced or created. *)
Definition dir_write (d : directory) (name : string) (c : bytes) : directory :=
  dir_remove d name ++ [(name, c)].

(** [DataFile(dir_path, file_id)]: the file is opened, created empty if
    it is not there. *)
Definition open_data_file (d : directory) (fid : Z) : DataFile.t :=
  DataFile.init fid (default [] (dir_lookup d (get_data_file_path fid))).

(** The names [load_data_files] keeps from the listing. *)
Definition is_data_file_name (f : string) : bool :=
  str_endswith f DATA_FILE_NAME_SUFFIX
  && negb (str_startswith f "seq_no" || str_startswith f "hint-index"
           || str_startswith f "merge-finished").

(** The loop [for name in files: file_ids.append(int(name.split('.')[0]))] *)
Fixpoint parse_file_ids (files : list string) : result (list Z) :=
  match files with
  | [] => Ok []
  | name :: rest =>
      do file_id <- py_int (before_dot name);
      do ids <- parse_file_ids rest;
      Ok (file_id :: ids)
  end.

(** [file_ids.sort()] *)
Definition sort_ids (ids : list Z) : list Z := merge_sort Z.le ids.

(** [file_ids[:-1]] *)
Definition all_but_last {A} (l : list A) : list A := take (length l - 1) l.

Definition load_data_files : M t unit := fun db =>
  let d := dir_rest db in
  let files := filter is_data_file_name (map fst d) in
  match parse_file_ids files with
  | Raise e => (Raise e, db)
  | Ok file_ids =>
      let file_ids := sort_ids file_ids in
      let db := set_file_ids file_ids db in
      match last file_ids with
      | None =>
          (Ok tt, set_file_ids [1] (set_active_file (Some (open_data_file d 1)) db))
      | Some last_id =>
          let older :=
            fold_left (fun o fid => <[fid := open_data_file d fid]> o)
                      (all_but_last file_ids) (older_files db) in
          (Ok tt, set_active_file (Some (open_data_file d last_id)) (set_older_files older db))
      end
  end.

(** [_load_merge_files]: the name of the marker is built from
    [MERGE_FINISHED_KEY], with an underscore. *)
Definition merge_finished_path : string :=
  (MERGE_FINISHED_KEY ++ DATA_FILE_NAME_SUFFIX)%string.

Definition _load_merge_files : M t unit := fun db =>
  match dir_lookup (dir_rest db) merge_finished_path with
  | None => (Ok tt, db)
  | Some data =>
      if decide (data = []) then (Ok tt, db)
      else
        match LogRecord_.decode data with
        | None => (Ok tt, db)
        | Some _ =>
            let to_remove := filter (fun fid => 1 <? fid) (file_ids db) in
            let d := fold_left (fun d fid => dir_remove d (get_data_file_path fid))
                               to_remove (dir_rest db) in
            let d := dir_remove d merge_finished_path in
            (Ok tt, set_file_ids [1] (set_dir_rest d db))
        end
  end.

(** One turn of the replay loop of [load_index_from_files]. *)
Definition replay_record (fid off sz : Z) (record : LogRecord) (db : t) : t :=
  match rtype record with
  | NORMAL =>
      let db := index_put_reclaim (key record) (mkLogRecordPos fid off sz) db in
      set_bytes_write (bytes_write db + (len (key record) + len (value record))) db
  | DELETED => index_delete_reclaim (key record) db
  | _ => db
  end.

(** The [while True] loop over one data file; [None] when the fuel runs
    out before the loop ends. *)
Fixpoint replay_loop (fuel : nat) (fid : Z) (f : DataFile.t) (off : Z) (db : t) : option t :=
  match fuel with
  | O => None
  | S fuel' =>
      match DataFile.read_log_record f off with
      | None => Some db
      | Some (record, sz) =>
          replay_loop fuel' fid f (off + sz) (replay_record fid off sz record db)
      end
  end.

(** Every record takes at least one byte, so the length of the file
    bounds the number of turns. *)
Definition replay_file (fid : Z) (f : DataFile.t) (db : t) : t :=
  match replay_loop (S (length (DataFile.io_manager f))) fid f 0 db with
  | Some db' => db'
  | None => db
  end.

Definition load_index_from_files : M t unit := fun db =>
  (Ok tt,
   fold_left
     (fun db fid =>
        let data_file :=
          if decide (Some fid = last (file_ids db)) then active_file db
          else older_files db !! fid in
        match data_file with
        | None => db
        | Some f => replay_file fid f db
        end)
     (file_ids db) db).

(** [_load_index_from_hint_file]: the data file object is built for
    file id 0, so its I/O manager is opened on the data file of id 0
    (created when missing); replacing [file_path] afterwards does not
    reopen it, and the records are read from that data file. *)
Definition hint_record (host : byteorder) (record : LogRecord) (db : t) : t :=
  if decide (value record = []) then db
  else
    match LogRecordPos_.decode host (value record) with
    | Ok pos => set_index (fst (Indexer.put (index db) (key record) pos)) db
    | Raise _ => db
    end.

Fixpoint hint_loop (host : byteorder) (fuel : nat) (f : DataFile.t) (off : Z) (db : t) : t :=
  match fuel with
  | O => db
  | S fuel' =>
      match DataFile.read_log_record f off with
      | None => db
      | Some (record, sz) => hint_loop host fuel' f (off + sz) (hint_record host record db)
      end
  end.

Definition _load_index_from_hint_file (host : byteorder) : M t unit := fun db =>
  match dir_lookup (dir_rest db) HINT_FILE_NAME with
  | None => (Ok tt, db)
  | Some _ =>
      let name := get_data_file_path 0 in
      let hint_file := open_data_file (dir_rest db) 0 in
      let db :=
        match dir_lookup (dir_rest db) name with
        | Some _ => db
        | None => set_dir_rest (dir_rest db ++ [(name, [])]) db
        end in
      (Ok tt, hint_loop host (S (length (DataFile.io_manager hint_file))) hint_file 0 db)
  end.

(** [_load_seq_no]: [Ok None] when the method ends without a [return]. *)
Definition seq_no_path : string := (SEQ_NO_KEY ++ ".data")%string.

Definition _load_seq_no (db : t) : result (option Z) :=
  match dir_lookup (dir_rest db) seq_no_path with
  | None => Ok (Some 0)
  | Some data =>
      if decide (data = []) then Ok None
      else
        match LogRecord_.decode data with
        | None => Ok None
        | Some record =>
            if decide (value record = []) then Ok None
            else do n <- py_int (string_of_list_byte (value record)); Ok (Some n)
        end
  end.

(** The files the database holds open leave [dir_rest]. *)
Definition open_names (db : t) : list string :=
  map get_data_file_path
    (map fst (map_to_list (older_files db))
     ++ match active_file db with Some a => [DataFile.file_id a] | None => [] end).

Definition drop_open_files (db : t) : t :=
  set_dir_rest
    (filter (fun e => negb (bool_decide (fst e ∈ open_names db))) (dir_rest db)) db.

(** [DB.__init__] on a directory that exists and is not locked. *)
Definition open_db (host : byteorder) (opts : Options) (d : directory) : result t :=
  let db0 := mk opts None ∅ Indexer.empty [] false (Some 0) false 0 0 d in
  let m : M t unit :=
    load_data_files ;;;
    _load_merge_files ;;;
    _load_index_from_hint_file host ;;;
    load_index_from_files ;;;
    (if is_btree (index_type opts)
     then fun db =>
            match _load_seq_no db with
            | Raise e => (Raise e, db)
            | Ok s =>
                let db := set_seq_no s db in
                (Ok tt,
                 match active_file db with
                 | Some a =>
                     set_active_file
                       (Some (DataFile.mk (DataFile.file_id a) (DataFile.io_manager a)
                                          (DataFile.size a))) db
                 | None => db
                 end)
            end
     else mret tt) in
  match m db0 with
  | (Ok _, db) => Ok (drop_open_files db)
  | (Raise e, _) => Raise e
  end.

(** [_save_seq_no] *)
Definition _save_seq_no (db : t) : result t :=
  let text := match seq_no db with Some z => py_str_int z | None => "None"%string end in
  let record := mkLogRecord (str_encode SEQ_NO_KEY) (str_encode text) NORMAL in
  do e <- LogRecord_.encode record;
  Ok (set_dir_rest (dir_write (dir_rest db) seq_no_path (fst e)) db).

(** [close]: the [finally] clause marks the database closed even when
    saving the sequence number raised.  The source also closes the file
    objects and drops them; here they stay in the state, as the record
    of what the files hold, for [dir_of]. *)
Definition close : M t unit := fun db =>
  if is_closed db then (Ok tt, db)
  else
    let r := if is_btree (index_type (options db)) then _save_seq_no db else Ok db in
    match r with
    | Ok db' => (Ok tt, set_is_closed true db')
    | Raise e => (Raise e, set_is_closed true db)
    end.

(** The directory as the database leaves it: the data files it wrote,
    then the other files. *)
Definition data_files (db : t) : list DataFile.t :=
  map snd (map_to_list (older_files db))
  ++ match active_file db with Some a => [a] | None => [] end.

Definition dir_of (db : t) : directory :=
  map (fun f => (get_data_file_path (DataFile.file_id f), DataFile.io_manager f)) (data_files db)
  ++ dir_rest db.

End DB.

(** ** batch.py *)

Module Batch.

(** [writes] maps a key to [Some value] (put) or [None] (delete). *)
Record t : Type := mk {
  is_committed : bool;
  writes : list (bytes * option bytes)
}.

Definition init : t := mk false [].

Definition put (b : t) (k v : bytes) : result t :=
  if is_committed b then Raise ErrBatchClosed
  else if decide (k = []) then Raise ValueError
  else Ok (mk (is_committed b) (dict_set (writes b) k (Some v))).

Definition delete (b : t) (k : bytes) : result t :=
  if is_committed b then Raise ErrBatchClosed
  else if decide (k = []) then Raise ValueError
  else Ok (mk (is_committed b) (dict_set (writes b) k None)).

(** The record appended for one buffered entry. *)
Definition record_of (k : bytes) (v : option bytes) : LogRecord :=
  match v with
  | None => mkLogRecord k [] DELETED
  | Some v => mkLogRecord k v NORMAL
  end.

(** The loop over [self.writes.items()], filling [positions]. *)
Fixpoint append_writes (ws : list (bytes * option bytes))
    (positions : list (bytes * (LogRecordPos * bool)))
    : M DB.t (list (bytes * (LogRecordPos * bool))) :=
  match ws with
  | [] => mret positions
  | (k, v) :: ws' =>
      let* pos := DB._append_log_record (record_of k v) in
      append_writes ws' (dict_set positions k (pos, bool_decide (v <> None)))
  end.

(** The loop over [positions.items()] that updates the index. *)
Fixpoint apply_positions (positions : list (bytes * (LogRecordPos * bool))) (db : DB.t) : DB.t :=
  match positions with
  | [] => db
  | (k, (pos, is_put)) :: rest =>
      apply_positions rest
        (if is_put then DB.index_put_reclaim k pos db else DB.index_delete_reclaim k db)
  end.

Definition marker (txn_id : Z) (ty : LogRecordType) : LogRecord :=
  mkLogRecord (str_encode (py_str_int txn_id)) [] ty.

(** The body of the [try] block of [commit]. *)
Definition commit_try (txn_id : Z) (ws : list (bytes * option bytes)) : M DB.t unit :=
  (if 0 <? txn_id
   then (let* _ := DB._append_log_record (marker txn_id TXNSTART) in mret tt)
   else mret tt) ;;;
  let* positions := append_writes ws [] in
  (if 0 <? txn_id
   then (let* _ := DB._append_log_record (marker txn_id TXNFINISHED) in
         mmodify (DB.set_seq_no (Some txn_id)))
   else mret tt) ;;;
  mmodify (apply_positions positions).

(** [commit]: the outcome, the batch and the database afterwards. *)
Definition commit (b : t) (db : DB.t) : result unit * t * DB.t :=
  if is_committed b then (Raise ErrBatchClosed, b, db)
  else
    match writes b with
    | [] => (Ok tt, mk true (writes b), db)
    | _ :: _ =>
        match DB.seq_no db with
        | None => (Raise TypeError, b, db)
        | Some s =>
            let txn_id := if is_btree (DB.index_type_of db) then s + 1 else s in
            match commit_try txn_id (writes b) db with
            | (Ok _, db') => (Ok tt, mk true (writes b), db')
            | (Raise e, db') =>
                let db'' :=
                  if 0 <? txn_id
                  then snd (DB._append_log_record (marker txn_id TXNABORT) db')
                  else db' in
                (Raise e, b, db'')
            end
        end
    end.

End Batch.

(** ** data/log_record.py: transaction records *)

Module TransactionRecord_.

Record t : Type := mk {
  txn_id : Z;
  type : LogRecordType
}.

(** [struct.pack("=IB", txn_id, type.value)]: native byte order,
    standard sizes, five bytes. *)
Definition encode (host : byteorder) (r : t) : result bytes :=
  do a <- pack_uint host 4 (txn_id r);
  do b <- pack_uint host 1 (type_value (type r));
  Ok (a ++ b).

(** [struct.unpack("=IB", data)], then [LogRecordType(record_type)];
    whatever is raised becomes a [ValueError]. *)
Definition decode (host : byteorder) (data : bytes) : result t :=
  if (length data =? 5)%nat
  then match type_of_value (uint_value host (slice 4 5 data)) with
       | Ok ty => Ok (mk (uint_value host (slice 0 4 data)) ty)
       | Raise _ => Raise ValueError
       end
  else Raise ValueError.

End TransactionRecord_.

(** ** data/data_file.py: the header decoder, raw reads and writes, hints *)

Module DataFileMore.

Record LogRecordHeader : Type := mkLogRecordHeader {
  crc : Z;
  record_type : Z;
  key_size : Z;
  value_size : Z
}.

(** The [try] block of [decode_log_record_header]. *)
Definition decode_log_record_header_body (buf : bytes)
    : result (option LogRecordHeader * Z) :=
  do crc <- unpack_u32_be (slice_to 4 buf);
  do record_type <-
    match buf !! 4%nat with Some b => Ok (byte_val b) | None => Raise IndexError end;
  do key_size <- unpack_u32_be (slice 5 9 buf);
  do value_size <- unpack_u32_be (slice 9 13 buf);
  Ok (Some (mkLogRecordHeader crc record_type key_size value_size), HEADER_SIZE).

(** [decode_log_record_header]: [(None, 0)] for a short buffer and for
    any exception. *)
Definition decode_log_record_header (buf : bytes) : option LogRecordHeader * Z :=
  if len buf <? HEADER_SIZE then (None, 0)
  else match decode_log_record_header_body buf with
       | Ok r => r
       | Raise _ => (None, 0)
       end.

(** [read_n_bytes]: [bytearray(n)] raises [ValueError] for a negative
    [n]; a short read gives [None]. *)
Definition read_n_bytes (f : DataFile.t) (n offset : Z) : result (option bytes) :=
  if n <? 0 then Raise ValueError
  else
    do r <- FileIOManager.read (DataFile.io_manager f) (bytearray n) offset;
    if negb (fst r =? n) then Ok None else Ok (Some (snd r)).

(** [write]: the bytes are appended and the write offset moves on by
    the count the I/O manager returns. *)
Definition write (f : DataFile.t) (buf : bytes) : result (DataFile.t * Z) :=
  do w <- FileIOManager.write (DataFile.io_manager f) buf;
  Ok (DataFile.mk (DataFile.file_id f) (fst w) (DataFile.write_offset f + snd w), snd w).


End DataFileMore.

(** ** redis/types.py: strings over the store

    The clock reading [int(time.time() * 1000)] of a call is the
    argument [now]. *)

Module RedisDataStructure.

Inductive RedisDataType : Type := STRING | HASH | SET | LIST | ZSET.

Definition data_type_value (t : RedisDataType) : Z :=
  match t with STRING => 0 | HASH => 1 | SET => 2 | LIST => 3 | ZSET => 4 end.

(** What a method raises: an exception of the store or of Python, or
    [ErrWrongTypeOperation]. *)
Inductive error : Type :=
  | Exn (e : exn)
  | ErrWrongTypeOperation.

(** [struct.pack("<q", z)] and [struct.unpack("<q", bs)[0]]: a signed
    integer of 8 bytes, in two's complement, low byte first. *)
Definition pack_q (z : Z) : result bytes :=
  if (- 2 ^ 63 <=? z) && (z <? 2 ^ 63) then Ok (le_bytes 8 (z mod 2 ^ 64))
  else Raise StructError.

Definition unpack_q (bs : bytes) : result Z :=
  if (length bs =? 8)%nat
  then Ok (if le_value bs <? 2 ^ 63 then le_value bs else le_value bs - 2 ^ 64)
  else Raise StructError.

(** [set]: [value] is [None] for Python's [None]. *)
Definition set (key : bytes) (ttl : Z) (value : option bytes) (now : Z) : M DB.t unit :=
  fun db =>
    match value with
    | None => (Ok tt, db)
    | Some value =>
        let expire := if 0 <? ttl then now + ttl else 0 in
        match pack_q expire with
        | Raise e => (Raise e, db)
        | Ok packed =>
            DB.put key ([byte_of (data_type_value STRING)] ++ packed ++ value) db
        end
    end.

(** [get]: [DB.get] raises no [ErrKeyNotFound], so the handler of the
    source catches nothing. *)
Definition get (db : DB.t) (key : bytes) (now : Z) : error + option bytes :=
  match DB.get db key with
  | Raise e => inl (Exn e)
  | Ok None => inr None
  | Ok (Some encoded_value) =>
      match encoded_value with
      | [] => inl (Exn IndexError)
      | data_type :: _ =>
          if negb (byte_val data_type =? data_type_value STRING)
          then inl ErrWrongTypeOperation
          else
            match unpack_q (slice 1 9 encoded_value) with
            | Raise e => inl (Exn e)
            | Ok expire =>
                if (0 <? expire) && (expire <=? now) then inr None
                else inr (Some (slice_from 9 encoded_value))
            end
      end
  end.

(** [delete]: [True] whenever [DB.delete] returns. *)
Definition delete (key : bytes) : M DB.t bool := fun db =>
  match DB.delete key db with
  | (Ok _, db') => (Ok true, db')
  | (Raise e, db') => (Raise e, db')
  end.

Definition get_type (db : DB.t) (key : bytes) : result (option RedisDataType) :=
  match DB.get db key with
  | Raise e => Raise e
  | Ok None => Ok None
  | Ok (Some encoded_value) =>
      match encoded_value with
      | [] => Ok None
      | type_value :: _ =>
          if byte_val type_value =? data_type_value STRING then Ok (Some STRING)
          else if byte_val type_value =? data_type_value HASH then Ok (Some HASH)
          else if byte_val type_value =? data_type_value SET then Ok (Some SET)
          else if byte_val type_value =? data_type_value LIST then Ok (Some LIST)
          else if byte_val type_value =? data_type_value ZSET then Ok (Some ZSET)
          else Ok None
      end
  end.

End RedisDataStructure.

(* ================================================================== *)
(** * Part II: properties                                              *)
(* ================================================================== *)

Example crc32_check :
  crc32 [x31; x32; x33; x34; x35; x36; x37; x38; x39] = 0xCBF43926.
Proof. vm_compute. reflexivity. Qed.

(** Boolean comparisons of the code, turned into propositions for [lia]. *)
Ltac zbool :=
  repeat match goal with
  | H : (_ <? _) = true |- _ => apply Z.ltb_lt in H
  | H : (_ <? _) = false |- _ => apply Z.ltb_ge in H
  | H : (_ <=? _) = true |- _ => apply Z.leb_le in H
  | H : (_ <=? _) = false |- _ => apply Z.leb_gt in H
  | H : (_ =? _) = true |- _ => apply Z.eqb_eq in H
  | H : (_ =? _) = false |- _ => apply Z.eqb_neq in H
  | H : (_ && _) = true |- _ => apply andb_true_iff in H; destruct H
  end.

(** ** Bytes and fixed-width integers *)

Lemma byte_val_range (b : byte) : 0 <= byte_val b < 256.
Proof.
  unfold byte_val. pose proof (Byte.to_N_bounded b) as H.
  split; [apply N2Z.is_nonneg | lia].
Qed.

Lemma byte_of_val (b : byte) : byte_of (byte_val b) = b.
Proof.
  unfold byte_of, byte_val. rewrite N2Z.id, Byte.of_to_N. reflexivity.
Qed.

Lemma byte_val_of (z : Z) : 0 <= z < 256 -> byte_val (byte_of z) = z.
Proof.
  intros Hz. unfold byte_of, byte_val.
  destruct (Byte.of_N (Z.to_N z)) as [b|] eqn:E.
  - apply Byte.to_of_N in E. rewrite E. lia.
  - apply Byte.of_N_None_iff in E. lia.
Qed.

Lemma len_app {A} (l k : list A) : len (l ++ k) = len l + len k.
Proof. unfold len. rewrite length_app. lia. Qed.

Lemma len_nonneg {A} (l : list A) : 0 <= len l.
Proof. unfold len. lia. Qed.

Lemma length_le_bytes (n : nat) (z : Z) : length (le_bytes n z) = n.
Proof. revert z. induction n as [|n IH]; intros z; simpl; [reflexivity | now rewrite IH]. Qed.

Lemma length_be_bytes (n : nat) (z : Z) : length (be_bytes n z) = n.
Proof. unfold be_bytes. rewrite length_rev. apply length_le_bytes. Qed.

Lemma length_uint_bytes (o : byteorder) (n : nat) (z : Z) : length (uint_bytes o n z) = n.
Proof. destruct o; [apply length_le_bytes | apply length_be_bytes]. Qed.

Lemma le_value_le_bytes (n : nat) (z : Z) :
  0 <= z < 256 ^ Z.of_nat n -> le_value (le_bytes n z) = z.
Proof.
  revert z. induction n as [|n IH]; intros z Hz.
  - simpl in *. lia.
  - cbn [le_bytes le_value].
    rewrite Nat2Z.inj_succ, Z.pow_succ_r in Hz by lia.
    rewrite byte_val_of by (apply Z.mod_pos_bound; lia).
    rewrite IH.
    + pose proof (Z.div_mod z 256). lia.
    + split; [apply Z.div_pos; lia | apply Z.div_lt_upper_bound; lia].
Qed.

Lemma be_value_be_bytes (n : nat) (z : Z) :
  0 <= z < 256 ^ Z.of_nat n -> be_value (be_bytes n z) = z.
Proof.
  intros Hz. unfold be_value, be_bytes. rewrite rev_involutive.
  now apply le_value_le_bytes.
Qed.

Lemma uint_value_bytes (o : byteorder) (n : nat) (z : Z) :
  0 <= z < 256 ^ Z.of_nat n -> uint_value o (uint_bytes o n z) = z.
Proof. destruct o; [apply le_value_le_bytes | apply be_value_be_bytes]. Qed.

Lemma pack_uint_ok (o : byteorder) (n : nat) (z : Z) :
  0 <= z < 256 ^ Z.of_nat n -> pack_uint o n z = Ok (uint_bytes o n z).
Proof.
  intros Hz. unfold pack_uint.
  destruct (0 <=? z) eqn:E1; [|lia]. destruct (z <? 256 ^ Z.of_nat n) eqn:E2; [|lia].
  reflexivity.
Qed.

Lemma pack_uint_overflow (o : byteorder) (n : nat) (z : Z) :
  256 ^ Z.of_nat n <= z -> pack_uint o n z = Raise StructError.
Proof.
  intros Hz. unfold pack_uint.
  destruct (z <? 256 ^ Z.of_nat n) eqn:E2; [lia|].
  now rewrite andb_false_r.
Qed.

(** ** CRC-32 stays within 32 bits *)

Lemma lxor_range (n a b : Z) :
  0 <= n -> 0 <= a < 2 ^ n -> 0 <= b < 2 ^ n -> 0 <= Z.lxor a b < 2 ^ n.
Proof.
  intros Hn Ha Hb. split; [apply Z.lxor_nonneg; lia|].
  destruct (Z.eq_dec (Z.lxor a b) 0) as [E|E].
  - rewrite E. apply Z.pow_pos_nonneg; lia.
  - assert (0 < Z.lxor a b) as Hpos by (pose proof (proj2 (Z.lxor_nonneg a b)); lia).
    assert (0 < n) as Hn'.
    { destruct (Z.eq_dec n 0) as [->|]; [|lia].
      change (2 ^ 0) with 1 in *. assert (a = 0) as -> by lia. assert (b = 0) as -> by lia.
      now rewrite Z.lxor_0_l in E. }
    apply Z.log2_lt_pow2; [lia|].
    pose proof (Z.log2_lxor a b ltac:(lia) ltac:(lia)) as Hl.
    assert (Z.log2 a < n) as Hla.
    { destruct (Z.eq_dec a 0) as [->|]; [simpl; lia|]. apply Z.log2_lt_pow2; lia. }
    assert (Z.log2 b < n) as Hlb.
    { destruct (Z.eq_dec b 0) as [->|]; [simpl; lia|]. apply Z.log2_lt_pow2; lia. }
    lia.
Qed.

Definition u32 (z : Z) : Prop := 0 <= z < 2 ^ 32.

Lemma crc_shift_range (c : Z) : u32 c -> u32 (crc_shift c).
Proof.
  unfold u32, crc_shift. intros Hc.
  assert (0 <= Z.shiftr c 1 < 2 ^ 32) as Hs.
  { rewrite Z.shiftr_div_pow2 by lia. change (2 ^ 1) with 2.
    split; [apply Z.div_pos; lia | apply Z.div_lt_upper_bound; lia]. }
  destruct (Z.testbit c 0); [|exact Hs].
  apply lxor_range; [lia | exact Hs | unfold crc_poly; lia].
Qed.

Lemma crc_byte_range (c : Z) (b : byte) : u32 c -> u32 (crc_byte c b).
Proof.
  intros Hc. unfold crc_byte.
  assert (u32 (Z.lxor c (byte_val b))) as H0.
  { apply lxor_range; [lia | exact Hc | pose proof (byte_val_range b); lia]. }
  generalize 8%nat as n. intros n. induction n as [|n IH]; simpl; [exact H0|].
  now apply crc_shift_range.
Qed.

Lemma crc32_range (bs : bytes) : 0 <= crc32 bs < 2 ^ 32.
Proof.
  unfold crc32.
  assert (forall c, u32 c -> u32 (fold_left crc_byte bs c)) as H.
  { induction bs as [|b bs IH]; intros c Hc; simpl; [exact Hc|].
    apply IH. now apply crc_byte_range. }
  apply lxor_range; [lia | apply H; unfold u32; lia | lia].
Qed.

(** ** In-place writes on a buffer seen as [pre ++ old ++ post] *)

Ltac list_len :=
  unfold len;
  rewrite ?length_app, ?length_replicate, ?length_be_bytes, ?length_le_bytes,
    ?length_uint_bytes; simpl length; try lia.

Lemma setitem_mid (buf pre post : bytes) (y v : byte) (i : Z) :
  buf = pre ++ y :: post -> i = len pre -> setitem buf i v = Ok (pre ++ v :: post).
Proof.
  intros -> ->. unfold setitem.
  destruct (0 <=? len pre) eqn:E1; [|pose proof (len_nonneg pre); lia].
  destruct (len pre <? len (pre ++ y :: post)) eqn:E2.
  2:{ rewrite len_app in E2. unfold len in E2. simpl length in E2. zbool. lia. }
  cbn [andb]. f_equal. unfold len. rewrite Nat2Z.id.
  rewrite insert_app_r_alt by lia. now rewrite Nat.sub_diag.
Qed.

Lemma overwrite_mid (buf pre old post new : bytes) (n m : nat) :
  buf = pre ++ old ++ post -> n = length pre -> m = (length pre + length old)%nat ->
  take n buf ++ new ++ drop m buf = pre ++ new ++ post.
Proof.
  intros -> -> ->. rewrite take_app_length.
  rewrite drop_app_add, drop_app_length. reflexivity.
Qed.

Lemma pack_into_mid (buf pre old post : bytes) (off z : Z) :
  buf = pre ++ old ++ post -> off = len pre -> length old = 4%nat ->
  0 <= z < 2 ^ 32 ->
  pack_into_u32_be buf off z = Ok (pre ++ be_bytes 4 z ++ post).
Proof.
  intros Hb -> Hold Hz. unfold pack_into_u32_be.
  rewrite pack_uint_ok by (change (256 ^ Z.of_nat 4) with (2 ^ 32); lia).
  cbn [rbind uint_bytes].
  destruct (0 <=? len pre) eqn:E1; [|pose proof (len_nonneg pre); lia].
  destruct (len pre + 4 <=? len buf) eqn:E2.
  2:{ subst buf. rewrite !len_app in E2. unfold len in *. zbool. lia. }
  cbn [andb]. f_equal. apply (overwrite_mid buf pre old post); [exact Hb | unfold len; lia |].
  unfold len. lia.
Qed.

Lemma set_slice_mid (buf pre old post src : bytes) (lo hi : Z) :
  buf = pre ++ old ++ post -> lo = len pre -> hi = lo + len old ->
  set_slice buf lo hi src = pre ++ src ++ post.
Proof.
  intros Hb -> ->. unfold set_slice.
  apply (overwrite_mid buf pre old post); [exact Hb | unfold len; lia |].
  unfold len. lia.
Qed.

(** ** The record layout of the specification (section 4.1) *)

(** Everything after the CRC: type byte, key length, value length (both
    big-endian u32), key, value. *)
Definition layout_tail (r : LogRecord) : bytes :=
  [byte_of (type_value (rtype r))] ++ be_bytes 4 (len (key r))
    ++ be_bytes 4 (len (value r)) ++ key r ++ value r.

Definition layout (r : LogRecord) : bytes :=
  be_bytes 4 (crc32 (layout_tail r)) ++ layout_tail r.

Arguments layout_tail : simpl never.
Arguments layout : simpl never.

Definition encodable (r : LogRecord) : Prop :=
  len (key r) < 2 ^ 32 /\ len (value r) < 2 ^ 32.

Lemma len_layout_tail (r : LogRecord) :
  len (layout_tail r) = 9 + len (key r) + len (value r).
Proof. unfold layout_tail. list_len. Qed.

Lemma len_layout (r : LogRecord) :
  len (layout r) = HEADER_SIZE + len (key r) + len (value r).
Proof.
  unfold layout. rewrite len_app, len_layout_tail. unfold HEADER_SIZE. list_len.
Qed.

Lemma encode_layout (r : LogRecord) :
  encodable r ->
  LogRecord_.encode r = Ok (layout r, HEADER_SIZE + len (key r) + len (value r)).
Proof.
  intros [Hk Hv]. unfold LogRecord_.encode. cbv zeta.
  pose proof (len_nonneg (key r)) as Hk0. pose proof (len_nonneg (value r)) as Hv0.
  set (Z4 := replicate 4 x00 : bytes).
  set (t := byte_of (type_value (rtype r))).
  set (K := be_bytes 4 (len (key r))). set (V := be_bytes 4 (len (value r))).
  assert (bytearray (HEADER_SIZE + len (key r) + len (value r))
          = Z4 ++ x00 :: Z4 ++ Z4 ++ replicate (length (key r)) x00
               ++ replicate (length (value r)) x00) as ->.
  { unfold bytearray, HEADER_SIZE, len, Z4.
    replace (Z.to_nat (13 + Z.of_nat (length (key r)) + Z.of_nat (length (value r))))
      with (4 + (1 + (4 + (4 + (length (key r) + length (value r))))))%nat by lia.
    rewrite !replicate_add. reflexivity. }
  rewrite (setitem_mid _ Z4 _ x00 t 4 eq_refl) by (subst Z4; list_len).
  cbn [rbind].
  rewrite (pack_into_mid _ (Z4 ++ [t]) Z4
             (Z4 ++ replicate (length (key r)) x00 ++ replicate (length (value r)) x00)
             5 (len (key r)));
    [ | now rewrite <- app_assoc | subst Z4; list_len | subst Z4; list_len | lia ].
  cbn [rbind].
  rewrite (pack_into_mid _ ((Z4 ++ [t]) ++ K) Z4
             (replicate (length (key r)) x00 ++ replicate (length (value r)) x00)
             9 (len (value r)));
    [ | now rewrite <- !app_assoc | subst Z4 K; list_len | subst Z4; list_len | lia ].
  cbn [rbind]. fold V.
  rewrite (set_slice_mid _ (((Z4 ++ [t]) ++ K) ++ V) (replicate (length (key r)) x00)
             (replicate (length (value r)) x00) (key r));
    [ | now rewrite <- !app_assoc | subst Z4 K V; unfold HEADER_SIZE; list_len
      | unfold HEADER_SIZE; list_len ].
  rewrite (set_slice_mid _ ((((Z4 ++ [t]) ++ K) ++ V) ++ key r)
             (replicate (length (value r)) x00) [] (value r));
    [ | now rewrite <- !app_assoc, app_nil_r
      | subst Z4 K V; unfold HEADER_SIZE; list_len
      | unfold HEADER_SIZE; list_len ].
  assert (((((Z4 ++ [t]) ++ K) ++ V) ++ key r) ++ value r ++ [] = Z4 ++ layout_tail r) as ->.
  { unfold layout_tail. fold t K V. rewrite app_nil_r, <- !app_assoc. reflexivity. }
  assert (slice_from 4 (Z4 ++ layout_tail r) = layout_tail r) as ->.
  { unfold slice_from. change (Z.to_nat 4) with (length Z4). apply drop_app_length. }
  rewrite (pack_into_mid _ [] Z4 (layout_tail r) 0 _ eq_refl eq_refl eq_refl (crc32_range _)).
  reflexivity.
Qed.

Lemma encode_overflow_key (r : LogRecord) :
  2 ^ 32 <= len (key r) -> LogRecord_.encode r = Raise StructError.
Proof.
  intros Hk. unfold LogRecord_.encode. cbv zeta.
  destruct (setitem _ 4 _) as [b|e] eqn:E; cbn [rbind].
  - unfold pack_into_u32_be.
    rewrite pack_uint_overflow by (change (256 ^ Z.of_nat 4) with (2 ^ 32); lia).
    reflexivity.
  - unfold setitem in E.
    destruct ((0 <=? 4) && (4 <? len (bytearray (HEADER_SIZE + len (key r) + len (value r))))) eqn:E2;
      [discriminate|].
    unfold bytearray, len, HEADER_SIZE in E2. rewrite length_replicate in E2.
    apply andb_false_iff in E2. destruct E2 as [E2|E2]; zbool; lia.
Qed.

(** ** Reading the fields back *)

Lemma slice_mid {A} (pre mid post : list A) (lo hi : Z) :
  lo = len pre -> hi = lo + len mid -> slice lo hi (pre ++ mid ++ post) = mid.
Proof.
  intros -> ->. unfold slice, len.
  rewrite Nat2Z.id, drop_app_length.
  replace (Z.to_nat (Z.of_nat (length pre) + Z.of_nat (length mid) - Z.of_nat (length pre)))
    with (length mid) by lia.
  apply take_app_length.
Qed.

Lemma slice_to_app {A} (l k : list A) (hi : Z) : hi = len l -> slice_to hi (l ++ k) = l.
Proof. intros ->. unfold slice_to, len. rewrite Nat2Z.id. apply take_app_length. Qed.

Lemma slice_from_app {A} (l k : list A) (lo : Z) : lo = len l -> slice_from lo (l ++ k) = k.
Proof. intros ->. unfold slice_from, len. rewrite Nat2Z.id. apply drop_app_length. Qed.

Lemma unpack_be_bytes (z : Z) : 0 <= z < 2 ^ 32 -> unpack_u32_be (be_bytes 4 z) = Ok z.
Proof.
  intros Hz. unfold unpack_u32_be. rewrite length_be_bytes. cbn [Nat.eqb].
  now rewrite be_value_be_bytes by (change (256 ^ Z.of_nat 4) with (2 ^ 32); lia).
Qed.

Lemma type_of_type_value (t : LogRecordType) : type_of_value (type_value t) = Ok t.
Proof. now destruct t. Qed.

Lemma type_value_range (t : LogRecordType) : 1 <= type_value t <= 5.
Proof. destruct t; simpl; lia. Qed.

Lemma byte_val_type (t : LogRecordType) : byte_val (byte_of (type_value t)) = type_value t.
Proof. now destruct t. Qed.

(** The header fields of a laid-out record. *)
Lemma layout_crc (r : LogRecord) (post : bytes) :
  slice_to 4 (layout r ++ post) = be_bytes 4 (crc32 (layout_tail r)).
Proof.
  unfold layout. rewrite <- app_assoc. apply slice_to_app. list_len.
Qed.

Lemma layout_type (r : LogRecord) (post : bytes) :
  (layout r ++ post) !! 4%nat = Some (byte_of (type_value (rtype r))).
Proof.
  unfold layout, layout_tail. rewrite <- !app_assoc.
  rewrite lookup_app_r by list_len. rewrite length_be_bytes. reflexivity.
Qed.

Lemma slice_mid_eq {A} (buf pre mid post : list A) (lo hi : Z) :
  buf = pre ++ mid ++ post -> lo = len pre -> hi = lo + len mid -> slice lo hi buf = mid.
Proof. intros ->. apply slice_mid. Qed.

Ltac app_eq := unfold layout, layout_tail; simpl; rewrite <- ?app_assoc; reflexivity.

Lemma layout_key_size (r : LogRecord) (post : bytes) :
  slice 5 9 (layout r ++ post) = be_bytes 4 (len (key r)).
Proof.
  apply (slice_mid_eq _ (be_bytes 4 (crc32 (layout_tail r)) ++ [byte_of (type_value (rtype r))])
           _ (be_bytes 4 (len (value r)) ++ key r ++ value r ++ post));
    [app_eq | list_len | list_len].
Qed.

Lemma layout_value_size (r : LogRecord) (post : bytes) :
  slice 9 13 (layout r ++ post) = be_bytes 4 (len (value r)).
Proof.
  apply (slice_mid_eq _ (be_bytes 4 (crc32 (layout_tail r)) ++ [byte_of (type_value (rtype r))]
                           ++ be_bytes 4 (len (key r)))
           _ (key r ++ value r ++ post));
    [app_eq | list_len | list_len].
Qed.

Lemma layout_key (r : LogRecord) (post : bytes) :
  slice HEADER_SIZE (HEADER_SIZE + len (key r)) (layout r ++ post) = key r.
Proof.
  apply (slice_mid_eq _ (be_bytes 4 (crc32 (layout_tail r)) ++ [byte_of (type_value (rtype r))]
                           ++ be_bytes 4 (len (key r)) ++ be_bytes 4 (len (value r)))
           _ (value r ++ post));
    [app_eq | unfold HEADER_SIZE; list_len | unfold HEADER_SIZE; list_len].
Qed.

Lemma layout_value (r : LogRecord) (post : bytes) :
  slice (HEADER_SIZE + len (key r)) (HEADER_SIZE + len (key r) + len (value r))
    (layout r ++ post) = value r.
Proof.
  apply (slice_mid_eq _ (be_bytes 4 (crc32 (layout_tail r)) ++ [byte_of (type_value (rtype r))]
                           ++ be_bytes 4 (len (key r)) ++ be_bytes 4 (len (value r)) ++ key r)
           _ post);
    [app_eq | unfold HEADER_SIZE; list_len | unfold HEADER_SIZE; list_len].
Qed.

Lemma layout_tail_from (r : LogRecord) : slice_from 4 (layout r) = layout_tail r.
Proof. unfold layout. apply slice_from_app. list_len. Qed.

Lemma decode_layout (r : LogRecord) :
  encodable r -> LogRecord_.decode (layout r) = Some r.
Proof.
  intros [Hk Hv]. unfold LogRecord_.decode.
  pose proof (len_nonneg (key r)) as Hk0. pose proof (len_nonneg (value r)) as Hv0.
  rewrite len_layout.
  destruct (HEADER_SIZE + len (key r) + len (value r) <? HEADER_SIZE) eqn:E; [zbool; lia|].
  unfold LogRecord_.decode_body.
  pose proof (layout_crc r []) as H1. pose proof (layout_type r []) as H2.
  pose proof (layout_key_size r []) as H3. pose proof (layout_value_size r []) as H4.
  pose proof (layout_key r []) as H5. pose proof (layout_value r []) as H6.
  rewrite app_nil_r in H1, H2, H3, H4, H5, H6.
  rewrite H1, H2, H3, H4, layout_tail_from.
  rewrite !unpack_be_bytes by (try apply crc32_range; lia).
  cbn [rbind]. rewrite Z.eqb_refl. cbn [negb].
  rewrite H5, H6, byte_val_type, type_of_type_value. cbn [rbind].
  destruct (0 <? len (value r)) eqn:E0.
  - now destruct r.
  - zbool. assert (value r = []) as Hnil.
    { destruct (value r); [reflexivity | unfold len in E0; simpl in E0; lia]. }
    destruct r as [k v t]; simpl in *. now subst v.
Qed.

(** ** Record codec (data/log_record.py) *)

(** The first four bytes of an encoded record are the big-endian CRC-32
    of the rest. *)
Lemma layout_crc_of_rest (r : LogRecord) :
  slice_to 4 (layout r) = be_bytes 4 (crc32 (slice_from 4 (layout r))).
Proof.
  pose proof (layout_crc r []) as H. rewrite app_nil_r in H.
  now rewrite H, layout_tail_from.
Qed.

(** C5 (amended): for every (type, key, value) whose key and value are
    shorter than 2^32 bytes, [LogRecord.encode] returns a buffer of
    13 + len(key) + len(value) bytes whose first 4 bytes are the big-endian
    CRC-32 of all bytes from offset 4 on, followed by the type byte, the
    big-endian u32 key length, the big-endian u32 value length, the key and
    the value; and [LogRecord.decode] of that buffer returns the record. *)
Theorem C5_record_codec (r : LogRecord) :
  encodable r ->
  exists buf : bytes,
    LogRecord_.encode r = Ok (buf, 13 + len (key r) + len (value r)) /\
    len buf = 13 + len (key r) + len (value r) /\
    slice_to 4 buf = be_bytes 4 (crc32 (slice_from 4 buf)) /\
    slice_from 4 buf =
      [byte_of (type_value (rtype r))] ++ be_bytes 4 (len (key r))
        ++ be_bytes 4 (len (value r)) ++ key r ++ value r /\
    LogRecord_.decode buf = Some r.
Proof.
  intros Henc. exists (layout r). split; [|split; [|split; [|split]]].
  - now apply encode_layout.
  - apply len_layout.
  - apply layout_crc_of_rest.
  - apply layout_tail_from.
  - now apply decode_layout.
Qed.

Lemma C5_record_codec_witness :
  let r := mkLogRecord [x61] [x31; x32] NORMAL in
  encodable r /\
  exists buf : bytes,
    LogRecord_.encode r = Ok (buf, 13 + len (key r) + len (value r)) /\
    len buf = 13 + len (key r) + len (value r) /\
    slice_to 4 buf = be_bytes 4 (crc32 (slice_from 4 buf)) /\
    slice_from 4 buf =
      [byte_of (type_value (rtype r))] ++ be_bytes 4 (len (key r))
        ++ be_bytes 4 (len (value r)) ++ key r ++ value r /\
    LogRecord_.decode buf = Some r.
Proof.
  intros r.
  assert (encodable r) as H by (unfold encodable, r, len; simpl; lia).
  split; [exact H | exact (C5_record_codec r H)].
Defined.

(** C5 as stated fails on a key of 2^32 bytes: packing its length as a
    u32 raises [struct.error], so [encode] returns no buffer. *)
Lemma C5_counterexample :
  LogRecord_.encode (mkLogRecord (replicate (Z.to_nat (2 ^ 32)) x00) [] NORMAL)
  = Raise StructError.
Proof.
  apply encode_overflow_key. cbn [key]. unfold len.
  rewrite length_replicate, Z2Nat.id; lia.
Qed.

(** ** Position codec *)

Definition pos_in_range (p : LogRecordPos) : Prop :=
  0 <= file_id p < 2 ^ 32 /\ 0 <= offset p < 2 ^ 64 /\ 0 <= size p < 2 ^ 32.

(** The little-endian layout of the specification:
    u32 segment_id || u64 offset || u32 size. *)
Definition pos_layout_le (p : LogRecordPos) : bytes :=
  le_bytes 4 (file_id p) ++ le_bytes 8 (offset p) ++ le_bytes 4 (size p).

Definition pos_layout (host : byteorder) (p : LogRecordPos) : bytes :=
  uint_bytes host 4 (file_id p) ++ uint_bytes host 8 (offset p) ++ uint_bytes host 4 (size p).

Lemma pos_encode_layout (host : byteorder) (p : LogRecordPos) :
  pos_in_range p -> LogRecordPos_.encode host p = Ok (pos_layout host p).
Proof.
  intros (Hf & Ho & Hs). unfold LogRecordPos_.encode.
  rewrite !pack_uint_ok;
    [ reflexivity
    | change (256 ^ Z.of_nat 4) with (2 ^ 32); lia
    | change (256 ^ Z.of_nat 8) with (2 ^ 64); lia
    | change (256 ^ Z.of_nat 4) with (2 ^ 32); lia ].
Qed.

Lemma pos_decode_layout (host : byteorder) (p : LogRecordPos) :
  pos_in_range p -> LogRecordPos_.decode host (pos_layout host p) = Ok p.
Proof.
  intros (Hf & Ho & Hs). unfold LogRecordPos_.decode, pos_layout.
  rewrite !length_app, !length_uint_bytes. cbn [Nat.add Nat.eqb].
  set (a := uint_bytes host 4 (file_id p)).
  set (b := uint_bytes host 8 (offset p)).
  set (c := uint_bytes host 4 (size p)).
  rewrite (slice_mid_eq (a ++ b ++ c) [] a (b ++ c) 0 4 eq_refl) by (subst a; list_len).
  rewrite (slice_mid_eq (a ++ b ++ c) a b c 4 12 eq_refl) by (subst a b; list_len).
  rewrite (slice_mid_eq (a ++ b ++ c) (a ++ b) c [] 12 16)
    by (try (rewrite app_nil_r, <- app_assoc; reflexivity); subst a b c; list_len).
  subst a b c.
  rewrite !uint_value_bytes;
    [ now destruct p
    | change (256 ^ Z.of_nat 4) with (2 ^ 32); lia
    | change (256 ^ Z.of_nat 8) with (2 ^ 64); lia
    | change (256 ^ Z.of_nat 4) with (2 ^ 32); lia ].
Qed.

(** C6 (amended): for every record position in range,
    [LogRecordPos.encode] produces exactly 16 bytes laid out in the byte
    order of the host ("=IQI" is native order) as
    u32 segment_id || u64 offset || u32 size, so little-endian on a
    little-endian host, and [LogRecordPos.decode] on the same host returns
    an equal position. *)
Theorem C6_position_codec (host : byteorder) (p : LogRecordPos) :
  pos_in_range p ->
  exists buf : bytes,
    LogRecordPos_.encode host p = Ok buf /\
    length buf = 16%nat /\
    buf = uint_bytes host 4 (file_id p) ++ uint_bytes host 8 (offset p)
            ++ uint_bytes host 4 (size p) /\
    (host = LittleEndian -> buf = pos_layout_le p) /\
    LogRecordPos_.decode host buf = Ok p.
Proof.
  intros Hr. exists (pos_layout host p). split; [|split; [|split; [|split]]].
  - now apply pos_encode_layout.
  - unfold pos_layout. now rewrite !length_app, !length_uint_bytes.
  - reflexivity.
  - now intros ->.
  - now apply pos_decode_layout.
Qed.

Lemma C6_position_codec_witness :
  let p := mkLogRecordPos 3 70000 29 in
  pos_in_range p /\
  exists buf : bytes,
    LogRecordPos_.encode LittleEndian p = Ok buf /\
    length buf = 16%nat /\
    buf = uint_bytes LittleEndian 4 (file_id p) ++ uint_bytes LittleEndian 8 (offset p)
            ++ uint_bytes LittleEndian 4 (size p) /\
    (LittleEndian = LittleEndian -> buf = pos_layout_le p) /\
    LogRecordPos_.decode LittleEndian buf = Ok p.
Proof.
  intros p.
  assert (pos_in_range p) as H by (unfold pos_in_range, p; simpl; lia).
  split; [exact H | exact (C6_position_codec LittleEndian p H)].
Defined.

(** C6 as stated fails on a big-endian host: the position (1, 0, 0) is in
    range but its encoding is not the little-endian layout. *)
Lemma C6_counterexample :
  pos_in_range (mkLogRecordPos 1 0 0) /\
  LogRecordPos_.encode BigEndian (mkLogRecordPos 1 0 0)
  = Ok [x00; x00; x00; x01; x00; x00; x00; x00; x00; x00; x00; x00; x00; x00; x00; x00] /\
  LogRecordPos_.encode BigEndian (mkLogRecordPos 1 0 0)
  <> Ok (pos_layout_le (mkLogRecordPos 1 0 0)).
Proof.
  split; [unfold pos_in_range; simpl; lia|].
  split; [vm_compute; reflexivity | vm_compute; discriminate].
Qed.

(** ** The two I/O backends (fio/io_manager.py) *)

Example file_run_example :
  file_run (FileIOManager.init [])
    [IoWrite [x61; x62; x63]; IoSize; IoRead [x00; x00] 1; IoRead [x00; x00] 3]
  = Ok [RetWrite 3; RetSize 3; RetRead 2 [x62; x63]; RetRead 0 [x00; x00]].
Proof. vm_compute. reflexivity. Qed.

Example mmap_run_example :
  mmap_run (MMapIOManager.init [])
    [IoWrite [x61; x62; x63]; IoSize; IoRead [x00; x00] 1; IoRead [x00; x00] 3]
  = Ok [RetWrite 3; RetSize 3; RetRead 2 [x62; x63]; RetRead 0 [x00; x00]].
Proof. vm_compute. reflexivity. Qed.

(** C9, at the failing input: on an empty file, a write of zero bytes
    returns 0 through the buffered backend and raises [AttributeError]
    through the memory-mapped one, whose [self.mmap] is still [None]. *)
Theorem C9_empty_write_diverges :
  file_run (FileIOManager.init []) [IoWrite []] = Ok [RetWrite 0] /\
  mmap_run (MMapIOManager.init []) [IoWrite []] = Raise AttributeError.
Proof. split; vm_compute; reflexivity. Qed.
(** Outside that case the two backends agree.  [io_rel] relates the
    state of the memory-mapped manager to the file of the buffered one. *)
Definition io_rel (f : bytes) (m : MMapIOManager.t) : Prop :=
  MMapIOManager.mm_file m = f /\
  MMapIOManager.size_value m = len f /\
  MMapIOManager.mmap m = (0 <? len f).

(** Calls on which the backends are compared: offsets are not negative,
    and no empty write reaches an empty file. *)
Definition op_ok (f : bytes) (op : io_op) : Prop :=
  match op with
  | IoWrite b => b <> [] \/ f <> []
  | IoRead _ off => 0 <= off
  | IoSize => True
  end.

Fixpoint ops_ok (f : bytes) (ops : list io_op) : Prop :=
  match ops with
  | [] => True
  | op :: ops' =>
      op_ok f op /\
      match file_step f op with
      | Ok (f', _) => ops_ok f' ops'
      | Raise _ => True
      end
  end.

Lemma io_rel_init (c : bytes) : io_rel (FileIOManager.init c) (MMapIOManager.init c).
Proof. unfold io_rel. cbn. auto. Qed.

Lemma len_pos_iff {A} (l : list A) : 0 < len l <-> l <> [].
Proof.
  unfold len. destruct l; simpl; split; intros H; try lia; try congruence.
Qed.

Lemma take_take_min {A} (l : list A) (n : nat) :
  take (Nat.min n (length l)) l = take n l.
Proof.
  destruct (Nat.le_ge_cases n (length l)) as [H|H].
  - now rewrite Nat.min_l.
  - rewrite Nat.min_r by lia. now rewrite firstn_all, take_ge by lia.
Qed.

Lemma write_agree (f : bytes) (m : MMapIOManager.t) (b : bytes) :
  io_rel f m -> b <> [] \/ f <> [] ->
  exists m', MMapIOManager.write m b = Ok (m', len b) /\
             FileIOManager.write f b = Ok (f ++ b, len b) /\
             io_rel (f ++ b) m'.
Proof.
  intros (Hf & Hs & Hm) Hok. unfold MMapIOManager.write, FileIOManager.write.
  cbv zeta. rewrite Hs.
  pose proof (len_nonneg f) as Hf0. pose proof (len_nonneg b) as Hb0.
  destruct (len f <? len f + len b) eqn:E.
  - zbool. unfold MMapIOManager._grow. cbn [MMapIOManager.mmap MMapIOManager.size_value
      MMapIOManager.mm_file negb].
    destruct (len f + len b <? len f + len b) eqn:E2; [zbool; lia|].
    eexists. split; [reflexivity|]. split; [reflexivity|].
    unfold io_rel. cbn [MMapIOManager.mmap MMapIOManager.size_value MMapIOManager.mm_file].
    rewrite Hf. split; [|split].
    + unfold MMapIOManager.map_file.
      rewrite (set_slice_mid _ f ([x00] ++ bytearray (len f + len b - len (f ++ [x00]))) [] b).
      * now rewrite app_nil_r.
      * now rewrite app_nil_r, <- app_assoc.
      * reflexivity.
      * rewrite !len_app. unfold bytearray, len in *. rewrite length_replicate.
        simpl length. lia.
    + now rewrite len_app.
    + rewrite len_app. symmetry. apply Z.ltb_lt. lia.
  - zbool. assert (len b = 0) as Hb by lia.
    assert (b = []) as -> by (destruct b; [reflexivity | unfold len in Hb; simpl in Hb; lia]).
    destruct Hok as [Hok|Hok]; [congruence|].
    apply len_pos_iff in Hok.
    rewrite Hm. destruct (0 <? len f) eqn:E1; [|zbool; lia]. cbn [negb].
    rewrite Hs. destruct (len f <? len f + len []) eqn:E2; [zbool; lia|].
    eexists. split; [reflexivity|]. split; [reflexivity|].
    unfold io_rel. cbn [MMapIOManager.mmap MMapIOManager.size_value MMapIOManager.mm_file].
    rewrite Hf, app_nil_r. split; [|split]; try reflexivity; try (symmetry; assumption).
    rewrite (set_slice_mid f f [] [] []); [now rewrite app_nil_r | now rewrite app_nil_r | reflexivity |].
    unfold len. simpl. lia.
Qed.

Lemma read_agree (f : bytes) (m : MMapIOManager.t) (b : bytes) (off : Z) :
  io_rel f m -> 0 <= off ->
  MMapIOManager.read m b off = FileIOManager.read f b off.
Proof.
  intros (Hf & Hs & Hm) Hoff. unfold MMapIOManager.read, FileIOManager.read.
  destruct (off <? 0) eqn:E0; [zbool; lia|].
  rewrite Hs, Hm, Hf.
  pose proof (len_nonneg f) as Hf0. pose proof (len_nonneg b) as Hb0.
  assert (forall (l : bytes), l = [] -> Ok (0, b) = Ok (len l, l ++ slice_from (len l) b)) as Hnil.
  { intros l ->. reflexivity. }
  destruct (len f <=? off) eqn:E1.
  - zbool. apply Hnil. unfold slice. rewrite drop_ge; [apply take_nil | unfold len in *; lia].
  - zbool. destruct (0 <? len f) eqn:E2; [|zbool; lia]. cbn [negb]. clear E2.
    set (l := drop (Z.to_nat off) f).
    assert (length l = (length f - Z.to_nat off)%nat) as Hl by (subst l; apply length_drop).
    assert (slice off (off + Z.min (len b) (len f - off)) f = slice off (off + len b) f) as ->.
    { unfold slice. fold l.
      replace (Z.to_nat (off + Z.min (len b) (len f - off) - off))
        with (Nat.min (length b) (length l)) by (unfold len in *; lia).
      replace (Z.to_nat (off + len b - off)) with (length b) by (unfold len; lia).
      apply take_take_min. }
    assert (len (slice off (off + len b) f) = Z.min (len b) (len f - off)) as Hlen.
    { unfold slice. fold l. unfold len in *. rewrite length_take. lia. }
    rewrite Hlen. f_equal. f_equal. unfold set_slice, slice_from.
    change (Z.to_nat 0) with 0%nat. rewrite take_0. cbn [app].
    f_equal. f_equal. lia.
Qed.

Lemma step_agree (f : bytes) (m : MMapIOManager.t) (op : io_op) :
  io_rel f m -> op_ok f op ->
  exists f' m' r, file_step f op = Ok (f', r) /\ mmap_step m op = Ok (m', r) /\ io_rel f' m'.
Proof.
  intros Hrel Hok. destruct op as [b|buf off|]; cbn [op_ok] in Hok.
  - destruct (write_agree f m b Hrel Hok) as (m' & Hm & Hfw & Hrel').
    exists (f ++ b), m', (RetWrite (len b)). cbn [file_step mmap_step].
    rewrite Hm, Hfw. cbn. auto.
  - cbn [file_step mmap_step]. rewrite (read_agree f m buf off Hrel Hok).
    unfold FileIOManager.read. destruct (off <? 0) eqn:E; [zbool; lia|].
    cbn [rbind fst snd]. do 3 eexists. split; [reflexivity|]. split; [reflexivity|exact Hrel].
  - destruct Hrel as (Hf & Hs & Hm). cbn [file_step mmap_step].
    unfold MMapIOManager.size, FileIOManager.size. rewrite Hs.
    exists f, m, (RetSize (len f)). unfold io_rel. auto.
Qed.

Lemma runs_agree (ops : list io_op) (f : bytes) (m : MMapIOManager.t) :
  io_rel f m -> ops_ok f ops ->
  mmap_run m ops = file_run f ops /\ is_ok (file_run f ops) = true.
Proof.
  revert f m. induction ops as [|op ops IH]; intros f m Hrel Hok; [split; reflexivity|].
  cbn [ops_ok] in Hok. destruct Hok as [Hop Hrest].
  destruct (step_agree f m op Hrel Hop) as (f' & m' & r & Hf & Hm & Hrel').
  rewrite Hf in Hrest. cbn [file_run mmap_run]. rewrite Hf, Hm. cbn [rbind fst snd].
  destruct (IH f' m' Hrel' Hrest) as [-> Hokr].
  split; [reflexivity|].
  destruct (file_run f' ops); [reflexivity | discriminate].
Qed.

(** X14: every sequence of calls that stays clear of the empty write
    on an empty file returns the same values through both backends,
    from the same initial contents, and raises nothing. *)
Theorem backends_agree (c : bytes) (ops : list io_op) :
  ops_ok c ops ->
  mmap_run (MMapIOManager.init c) ops = file_run (FileIOManager.init c) ops /\
  is_ok (file_run (FileIOManager.init c) ops) = true.
Proof. intros Hok. apply runs_agree; [apply io_rel_init | exact Hok]. Qed.

(** ** Data files (data/data_file.py) *)

Example write_then_read_normal :
  let r := mkLogRecord [x61] [x31] NORMAL in
  match DataFile.write_log_record (DataFile.init 1 []) r with
  | Ok (f, (off, n)) => off = 0 /\ n = 15 /\ DataFile.read_log_record f 0 = Some (r, 15)
  | Raise _ => False
  end.
Proof. vm_compute. auto. Qed.

(** C3, at the failing input: a TXN_START record (and likewise a
    TXN_ABORT record) with a non-empty key, well under the size cap and
    carrying the CRC [encode] computed, is appended at offset 0 of an
    empty data file, and [read_log_record] at offset 0 returns [None]:
    its header check accepts only NORMAL, DELETED and TXN_FINISHED. *)
Theorem C3_txn_start_not_read_back :
  let start := mkLogRecord [x31] [] TXNSTART in
  let abort := mkLogRecord [x31] [] TXNABORT in
  (exists f, DataFile.write_log_record (DataFile.init 1 []) start = Ok (f, (0, 14)) /\
             LogRecord_.decode (DataFile.io_manager f) = Some start /\
             DataFile.read_log_record f 0 = None) /\
  (exists f, DataFile.write_log_record (DataFile.init 1 []) abort = Ok (f, (0, 14)) /\
             LogRecord_.decode (DataFile.io_manager f) = Some abort /\
             DataFile.read_log_record f 0 = None).
Proof.
  split; eexists; (split; [vm_compute; reflexivity | split; vm_compute; reflexivity]).
Qed.
(** *** Reading a record that lies in the file *)

Definition layout_header (r : LogRecord) : bytes :=
  be_bytes 4 (crc32 (layout_tail r)) ++ [byte_of (type_value (rtype r))]
    ++ be_bytes 4 (len (key r)) ++ be_bytes 4 (len (value r)).

Lemma layout_header_body (r : LogRecord) :
  layout r = layout_header r ++ key r ++ value r.
Proof. unfold layout_header, layout, layout_tail. now rewrite <- !app_assoc. Qed.

Lemma length_layout_header (r : LogRecord) : length (layout_header r) = 13%nat.
Proof. unfold layout_header. now rewrite !length_app, !length_be_bytes. Qed.

Lemma header_crc (r : LogRecord) :
  slice_to 4 (layout_header r) = be_bytes 4 (crc32 (layout_tail r)).
Proof. unfold layout_header. apply slice_to_app. list_len. Qed.

Lemma header_type (r : LogRecord) :
  layout_header r !! 4%nat = Some (byte_of (type_value (rtype r))).
Proof.
  unfold layout_header. rewrite lookup_app_r by list_len.
  rewrite length_be_bytes. reflexivity.
Qed.

Lemma header_key_size (r : LogRecord) :
  slice 5 9 (layout_header r) = be_bytes 4 (len (key r)).
Proof.
  apply (slice_mid_eq _ (be_bytes 4 (crc32 (layout_tail r)) ++ [byte_of (type_value (rtype r))])
           _ (be_bytes 4 (len (value r))));
    [unfold layout_header; now rewrite <- ?app_assoc | list_len | list_len].
Qed.

Lemma header_value_size (r : LogRecord) :
  slice 9 13 (layout_header r) = be_bytes 4 (len (value r)).
Proof.
  apply (slice_mid_eq _ (be_bytes 4 (crc32 (layout_tail r)) ++ [byte_of (type_value (rtype r))]
                           ++ be_bytes 4 (len (key r))) _ []);
    [unfold layout_header; now rewrite app_nil_r, <- ?app_assoc | list_len | list_len].
Qed.

(** A read of [n] bytes at the start of a chunk [mid] of the file. *)
Lemma file_read_mid (data pre mid post : bytes) (off n : Z) :
  data = pre ++ mid ++ post -> off = len pre -> 0 <= n <= len mid ->
  FileIOManager.read data (bytearray n) off
  = Ok (n, take (Z.to_nat n) mid).
Proof.
  intros -> -> Hn. unfold FileIOManager.read.
  pose proof (len_nonneg pre) as Hp.
  destruct (len pre <? 0) eqn:E; [zbool; lia|].
  assert (slice (len pre) (len pre + len (bytearray n)) (pre ++ mid ++ post)
          = take (Z.to_nat n) mid) as ->.
  { unfold slice, bytearray, len. rewrite Nat2Z.id, drop_app_length, length_replicate.
    replace (Z.to_nat (Z.of_nat (length pre) + Z.of_nat (Z.to_nat n) - Z.of_nat (length pre)))
      with (Z.to_nat n) by lia.
    apply take_app_le. unfold len in Hn. lia. }
  assert (len (take (Z.to_nat n) mid) = n) as Hl.
  { unfold len in *. rewrite length_take. lia. }
  rewrite Hl. f_equal. f_equal.
  unfold slice_from, bytearray. rewrite drop_replicate, Nat.sub_diag. cbn. apply app_nil_r.
Qed.

(** Records [read_log_record] accepts: one of the three types of its
    header check, a non-empty key, at most 100 MiB of key and value. *)
Definition readable_type (t : LogRecordType) : bool :=
  match t with
  | NORMAL | DELETED | TXNFINISHED => true
  | TXNSTART | TXNABORT => false
  end.

Definition readable (r : LogRecord) : Prop :=
  readable_type (rtype r) = true /\ key r <> [] /\
  len (key r) + len (value r) <= DataFile.MAX_RECORD_BODY.

Lemma readable_encodable (r : LogRecord) : readable r -> encodable r.
Proof.
  intros (_ & _ & H). unfold encodable, DataFile.MAX_RECORD_BODY in *.
  pose proof (len_nonneg (key r)). pose proof (len_nonneg (value r)). lia.
Qed.

Lemma type_check_readable (t : LogRecordType) :
  ((type_value t =? type_value NORMAL) || (type_value t =? type_value DELETED)
   || (type_value t =? type_value TXNFINISHED)) = readable_type t.
Proof. now destruct t. Qed.

(** The header checks of [read_log_record] on a record of the file. *)
Lemma read_layout (f : DataFile.t) (pre post : bytes) (r : LogRecord) (off : Z) :
  DataFile.io_manager f = pre ++ layout r ++ post -> off = len pre ->
  readable r ->
  DataFile.read_log_record f off = Some (r, HEADER_SIZE + len (key r) + len (value r)).
Proof.
  intros Hdata Hoff (Hty & Hkey & Hcap).
  pose proof (len_nonneg (key r)) as Hk0. pose proof (len_nonneg (value r)) as Hv0.
  pose proof (len_nonneg pre) as Hp0. pose proof (len_nonneg post) as Hq0.
  apply len_pos_iff in Hkey.
  unfold DataFile.MAX_RECORD_BODY in Hcap.
  unfold DataFile.read_log_record, DataFile.read_log_record_body. cbv zeta.
  unfold FileIOManager.size. rewrite Hdata, !len_app, len_layout.
  unfold HEADER_SIZE in *.
  destruct (_ <=? off) eqn:E1; [zbool; lia|].
  destruct (_ <? off + 13) eqn:E2; [zbool; lia|].
  rewrite (file_read_mid _ pre (layout r) post off 13 eq_refl Hoff)
    by (rewrite len_layout; unfold HEADER_SIZE; lia).
  cbn [rbind fst snd]. rewrite Z.eqb_refl. cbn [negb].
  assert (take (Z.to_nat 13) (layout r) = layout_header r) as ->.
  { rewrite layout_header_body. change (Z.to_nat 13) with 13%nat.
    rewrite <- (length_layout_header r). apply take_app_length. }
  rewrite header_crc, header_type, header_key_size, header_value_size.
  rewrite !unpack_be_bytes by (try apply crc32_range; lia).
  cbn [rbind]. rewrite byte_val_type, type_check_readable, Hty. cbn [negb].
  destruct (len (key r) <=? 0) eqn:E3; [zbool; lia|].
  destruct (len (value r) <? 0) eqn:E4; [zbool; lia|].
  unfold DataFile.MAX_RECORD_BODY.
  destruct (100 * 1024 * 1024 <? len (key r) + len (value r)) eqn:E5; [zbool; lia|].
  cbn [orb].
  destruct (_ <? off + (13 + len (key r) + len (value r))) eqn:E6; [zbool; lia|].
  rewrite (file_read_mid _ pre (layout r) post off _ eq_refl Hoff)
    by (rewrite len_layout; unfold HEADER_SIZE; lia).
  cbn [rbind fst snd]. rewrite Z.eqb_refl. cbn [negb].
  assert (take (Z.to_nat (13 + len (key r) + len (value r))) (layout r) = layout r) as ->.
  { apply take_ge. pose proof (len_layout r) as Hl. unfold len, HEADER_SIZE in *. lia. }
  rewrite layout_tail_from, Z.eqb_refl. cbn [negb].
  pose proof (layout_key r []) as H5. rewrite app_nil_r in H5.
  unfold HEADER_SIZE in H5. rewrite H5, type_of_type_value. cbn [rbind].
  destruct (0 <? len (value r)) eqn:E0.
  - assert (slice_from (13 + len (key r)) (layout r) = value r) as ->.
    { rewrite layout_header_body, app_assoc. apply slice_from_app.
      rewrite len_app. unfold len. rewrite length_layout_header. lia. }
    now destruct r.
  - zbool. assert (value r = []) as Hnil.
    { destruct (value r); [reflexivity | unfold len in E0; simpl in E0; lia]. }
    destruct r as [k v t]; simpl in *. now subst v.
Qed.

(** A record above the cap is rejected at the header. *)
Lemma read_layout_oversize (f : DataFile.t) (pre post : bytes) (r : LogRecord) (off : Z) :
  DataFile.io_manager f = pre ++ layout r ++ post -> off = len pre ->
  encodable r -> DataFile.MAX_RECORD_BODY < len (key r) + len (value r) ->
  DataFile.read_log_record f off = None.
Proof.
  intros Hdata Hoff (Hek & Hev) Hcap.
  pose proof (len_nonneg (key r)) as Hk0. pose proof (len_nonneg (value r)) as Hv0.
  pose proof (len_nonneg pre) as Hp0. pose proof (len_nonneg post) as Hq0.
  unfold DataFile.MAX_RECORD_BODY in Hcap.
  unfold DataFile.read_log_record, DataFile.read_log_record_body. cbv zeta.
  unfold FileIOManager.size. rewrite Hdata, !len_app, len_layout.
  unfold HEADER_SIZE in *.
  destruct (_ <=? off) eqn:E1; [reflexivity|].
  destruct (_ <? off + 13) eqn:E2; [reflexivity|].
  rewrite (file_read_mid _ pre (layout r) post off 13 eq_refl Hoff)
    by (rewrite len_layout; unfold HEADER_SIZE; lia).
  cbn [rbind fst snd]. rewrite Z.eqb_refl. cbn [negb].
  assert (take (Z.to_nat 13) (layout r) = layout_header r) as ->.
  { rewrite layout_header_body. change (Z.to_nat 13) with 13%nat.
    rewrite <- (length_layout_header r). apply take_app_length. }
  rewrite header_crc, header_type, header_key_size, header_value_size.
  rewrite !unpack_be_bytes by (try apply crc32_range; lia).
  cbn [rbind]. 
  destruct (negb _); [reflexivity|].
  unfold DataFile.MAX_RECORD_BODY.
  destruct (100 * 1024 * 1024 <? len (key r) + len (value r)) eqn:E5; [|zbool; lia].
  now rewrite !orb_true_r.
Qed.
(** ** Recovery (db.py) on concrete directories *)

(** Scenarios: a database after a run of calls, or the exception that
    ended the run. *)
Definition step {A} (m : M DB.t A) (s : result DB.t) : result DB.t :=
  match s with
  | Ok db => match m db with
             | (Ok _, db') => Ok db'
             | (Raise e, _) => Raise e
             end
  | Raise e => Raise e
  end.

Definition commit_step (b : result Batch.t) (s : result DB.t) : result DB.t :=
  match b, s with
  | Ok b, Ok db => match Batch.commit b db with
                   | (Ok _, _, db') => Ok db'
                   | (Raise e, _, _) => Raise e
                   end
  | Raise e, _ => Raise e
  | _, Raise e => Raise e
  end.

Definition get_on (s : result DB.t) (k : bytes) : result (option bytes) :=
  match s with
  | Ok db => DB.get db k
  | Raise e => Raise e
  end.

(** The directory a database leaves, with the length of each file. *)
Definition dir_on (s : result DB.t) : directory :=
  match s with
  | Ok db => DB.dir_of db
  | Raise _ => []
  end.

Definition dir_sizes (d : directory) : list (string * Z) :=
  map (fun e => (fst e, len (snd e))) d.

(** Close, then open what has become of the directory. *)
Definition reopen (host : byteorder) (after : directory -> directory) (s : result DB.t)
    : result DB.t :=
  match step DB.close s with
  | Ok db => DB.open_db host (DB.options db) (after (DB.dir_of db))
  | Raise e => Raise e
  end.

(** Cutting a file of the directory down to its first [n] bytes. *)
Definition truncate_file (name : string) (n : nat) (d : directory) : directory :=
  map (fun e => if String.eqb (fst e) name then (fst e, take n (snd e)) else e) d.

(** C1, at the failing input: with [max_file_size = 30] and the ordered
    index, a batch that puts a -> "12" and b -> "2" is committed on a new
    database.  TXN_START and the record of a fill the first data file, the
    record of b and TXN_FINISHED go to the second.  After commit both keys
    are read; after close and reopen a is gone and b is there, so part of
    the batch is visible.  With the second file cut just before
    TXN_FINISHED, b is still visible after reopen. *)
Theorem C1_batch_partly_visible_after_reopen :
  let opts := mkOptions 30 false 0 BTREE false in
  let a := [x61] in
  let b := [x62] in
  let batch := do b1 <- Batch.put Batch.init a [x31; x32]; Batch.put b1 b [x32] in
  let committed := commit_step batch (DB.open_db LittleEndian opts []) in
  let reopened := reopen LittleEndian (fun d => d) committed in
  let cut := reopen LittleEndian (truncate_file "000000002.data" 15) committed in
  get_on committed a = Ok (Some [x31; x32]) /\
  get_on committed b = Ok (Some [x32]) /\
  dir_sizes (dir_on (step DB.close committed))
    = [("000000001.data"%string, 30); ("000000002.data"%string, 29);
       ("seq_no.data"%string, 20)] /\
  get_on reopened a = Ok None /\
  get_on reopened b = Ok (Some [x32]) /\
  get_on cut a = Ok None /\
  get_on cut b = Ok (Some [x32]).
Proof. vm_compute. repeat split; reflexivity. Qed.

(** Any directory that lists the scratch file of a merge cannot be
    opened: its name passes the filter of [load_data_files] and is not a
    number. *)
Lemma load_data_files_merge_file (db : DB.t) :
  In DB.MERGE_FILENAME (map fst (DB.dir_rest db)) ->
  fst (DB.load_data_files db) = Raise ValueError.
Proof.
  unfold DB.load_data_files.
  assert (forall names, In DB.MERGE_FILENAME names ->
            DB.parse_file_ids (filter DB.is_data_file_name names) = Raise ValueError) as H.
  { induction names as [|n names IH]; intros Hin; [destruct Hin|].
    rewrite filter_cons. destruct (decide (DB.is_data_file_name n)) as [Hd|Hd].
    - cbn [DB.parse_file_ids]. destruct Hin as [->|Hin]; [reflexivity|].
      destruct (DB.py_int (DB.before_dot n)) as [z|e] eqn:E.
      + cbn [rbind]. now rewrite IH.
      + cbn [rbind]. f_equal. unfold DB.py_int in E.
        destruct (match _ with EmptyString => _ | _ => _ end); congruence.
    - destruct Hin as [->|Hin]; [|now apply IH].
      exfalso. apply Hd. vm_compute. exact I. }
  intros Hin. now rewrite (H _ Hin).
Qed.

Lemma open_db_merge_file (host : byteorder) (opts : Options) (d : directory) :
  In DB.MERGE_FILENAME (map fst d) -> DB.open_db host opts d = Raise ValueError.
Proof.
  intros Hin. unfold DB.open_db. unfold mbind at 1.
  pose proof (load_data_files_merge_file
                (DB.mk opts None ∅ Indexer.empty [] false (Some 0) false 0 0 d)) as H.
  cbn [DB.dir_rest] in H. specialize (H Hin).
  destruct (DB.load_data_files _) as [[u|e] db']; cbn [fst] in H; [discriminate|].
  now inversion H.
Qed.

(** C4, at the failing input: a database holding a -> "1" is closed; its
    directory opens again and a is read.  With the scratch file
    merge.data beside the data file, as [merge] leaves it when it is
    interrupted before the old files are removed, whatever was written to
    the scratch file so far, the open raises [ValueError]:
    [load_data_files] takes merge.data for a data file and calls
    int("merge"). *)
Theorem C4_open_fails_beside_merge_scratch :
  let opts := mkOptions 1024 false 0 BTREE false in
  let closed := step DB.close (step (DB.put [x61] [x31]) (DB.open_db LittleEndian opts [])) in
  map fst (dir_on closed) = ["000000001.data"%string; "seq_no.data"%string] /\
  get_on (DB.open_db LittleEndian opts (dir_on closed)) [x61] = Ok (Some [x31]) /\
  forall scratch : bytes,
    DB.open_db LittleEndian opts (dir_on closed ++ [(DB.MERGE_FILENAME, scratch)])
    = Raise ValueError.
Proof.
  intros opts closed.
  split; [vm_compute; reflexivity|].
  split; [vm_compute; reflexivity|].
  intros scratch. apply open_db_merge_file.
  rewrite map_app. apply in_or_app. right. left. reflexivity.
Qed.

(** ** Replay of one record (load_index_from_files) *)

(** C7 as stated fails: a data file holds the NORMAL record of a -> "1"
    (15 bytes) and then the DELETED record of a (14 bytes).  After open
    the key is gone and [reclaim_size] is 15, the size of the position
    that was indexed; the 14 bytes of the DELETED record are not added. *)
Lemma C7_counterexample :
  let opts := mkOptions 1024 false 0 BTREE false in
  let written :=
    step (DB.delete [x61]) (step (DB.put [x61] [x31]) (DB.open_db LittleEndian opts [])) in
  let reopened := reopen LittleEndian (fun d => d) written in
  dir_sizes (dir_on (step DB.close written))
    = [("000000001.data"%string, 15 + 14); ("seq_no.data"%string, 20)] /\
  match reopened with
  | Ok db => DB.index db !! [x61] = None /\ DB.reclaim_size db = 15 /\
             DB.reclaim_size db <> 15 + 14
  | Raise _ => False
  end.
Proof. vm_compute. repeat split; try reflexivity. discriminate. Qed.

Lemma index_delete_reclaim_spec (k : bytes) (db : DB.t) :
  let db' := DB.index_delete_reclaim k db in
  DB.index db' = base.delete k (DB.index db) /\
  DB.reclaim_size db' =
    DB.reclaim_size db + match DB.index db !! k with Some o => size o | None => 0 end /\
  DB.file_ids db' = DB.file_ids db /\ DB.active_file db' = DB.active_file db /\
  DB.older_files db' = DB.older_files db /\ DB.bytes_write db' = DB.bytes_write db /\
  DB.options db' = DB.options db /\ DB.seq_no db' = DB.seq_no db.
Proof.
  unfold DB.index_delete_reclaim, Indexer.delete. cbv zeta.
  destruct (DB.index db !! k); cbn; (split; [reflexivity|]); (split; [lia|]);
    repeat split; reflexivity.
Qed.

(** C7 (amended): during segment replay on open, the loop turn that
    reads a DELETED record removes the key's index entry and increases
    [reclaim_size] by the size of the position previously indexed for
    that key, when one exists, and by nothing else; the loop goes on
    after the record. *)
Theorem C7_replay_deleted (fuel : nat) (fid : Z) (f : DataFile.t) (pre post : bytes)
    (r : LogRecord) (off : Z) (db : DB.t) :
  DataFile.io_manager f = pre ++ layout r ++ post -> off = len pre ->
  rtype r = DELETED -> key r <> [] ->
  len (key r) + len (value r) <= DataFile.MAX_RECORD_BODY ->
  exists db',
    DB.replay_loop (S fuel) fid f off db
      = DB.replay_loop fuel fid f (off + (13 + len (key r) + len (value r))) db' /\
    DB.index db' = base.delete (key r) (DB.index db) /\
    DB.reclaim_size db' =
      DB.reclaim_size db
      + match DB.index db !! key r with Some old => size old | None => 0 end.
Proof.
  intros Hdata Hoff Hty Hkey Hcap.
  exists (DB.index_delete_reclaim (key r) db).
  destruct (index_delete_reclaim_spec (key r) db) as (Hi & Hr & _).
  split; [|split; assumption].
  cbn [DB.replay_loop].
  rewrite (read_layout f pre post r off Hdata Hoff).
  - unfold DB.replay_record. rewrite Hty. reflexivity.
  - unfold readable. rewrite Hty. auto.
Qed.

Lemma C7_replay_deleted_witness :
  let r := mkLogRecord [x61] [] DELETED in
  let f := DataFile.init 1 (layout r) in
  let db := DB.mk (mkOptions 1024 false 0 BTREE false) (Some f) ∅
              {[ [x61] := mkLogRecordPos 1 0 15 ]} [1] false (Some 0) false 0 0 [] in
  exists db',
    DB.replay_loop 1 1 f 0 db
      = DB.replay_loop 0 1 f (0 + (13 + len (key r) + len (value r))) db' /\
    DB.index db' = base.delete (key r) (DB.index db) /\
    DB.reclaim_size db' =
      DB.reclaim_size db
      + match DB.index db !! key r with Some old => size old | None => 0 end.
Proof.
  intros r f db.
  apply (C7_replay_deleted 0 1 f [] [] r 0 db).
  - unfold f, DataFile.init, FileIOManager.init. cbn [DataFile.io_manager app].
    now rewrite app_nil_r.
  - reflexivity.
  - reflexivity.
  - discriminate.
  - vm_compute. discriminate.
Defined.
(** ** The write path (db.py) *)

(** The data file [_get_value_by_position] reads a position from. *)
Definition file_of (db : DB.t) (fid : Z) : option DataFile.t :=
  match DB.active_file db with
  | None => None
  | Some a => if fid =? DataFile.file_id a then Some a else DB.older_files db !! fid
  end.

(** Files of the directory that are no data files. *)
Definition other_name (name : string) : Prop :=
  name = DB.seq_no_path \/ name = DB.FILE_LOCK_NAME.

(** Sequence numbers [close] can save: not negative, with a decimal
    text that fits a record. *)
Definition seq_ok (z : Z) : Prop :=
  0 <= z /\ len (str_encode (py_str_int z)) < 2 ^ 32.

(** The state of a database that was opened on a directory of its own
    and written through [put], [delete] and [Batch.commit]: data files
    1..n, the last one active, written up to its end. *)
Definition wf (db : DB.t) : Prop :=
  exists (n : Z) (a : DataFile.t),
    1 <= n /\
    DB.file_ids db = seqZ 1 n /\
    DB.active_file db = Some a /\
    DataFile.file_id a = n /\
    DataFile.write_offset a = len (DataFile.io_manager a) /\
    (forall i f, DB.older_files db !! i = Some f -> DataFile.file_id f = i /\ 1 <= i < n) /\
    (forall i, 1 <= i < n -> is_Some (DB.older_files db !! i)) /\
    (exists z, DB.seq_no db = Some z /\ seq_ok z) /\
    Forall other_name (map fst (DB.dir_rest db)).

(** The segment-id invariant of the specification. *)
Definition max_id (ids : list Z) : Z := foldr Z.max 0 ids.

Definition segment_ids_ok (db : DB.t) : Prop :=
  exists n, 1 <= n /\ DB.file_ids db = seqZ 1 n /\
            max_id (DB.file_ids db) = n /\
            exists a, DB.active_file db = Some a /\ DataFile.file_id a = n.

(** What [_append_log_record] leaves alone. *)
Definition same_frame (db db' : DB.t) : Prop :=
  DB.index db' = DB.index db /\ DB.reclaim_size db' = DB.reclaim_size db /\
  DB.bytes_write db' = DB.bytes_write db /\ DB.seq_no db' = DB.seq_no db /\
  DB.is_closed db' = DB.is_closed db /\ DB.options db' = DB.options db /\
  DB.dir_rest db' = DB.dir_rest db.

(** The data file [fid] holds the record [r] at offset [off]. *)
Definition holds (db : DB.t) (fid off : Z) (r : LogRecord) : Prop :=
  exists f pre post,
    file_of db fid = Some f /\ DataFile.io_manager f = pre ++ layout r ++ post /\
    off = len pre.

Lemma seqZ_snoc (n : Z) : 0 <= n -> seqZ 1 (n + 1) = seqZ 1 n ++ [n + 1].
Proof.
  intros Hn. rewrite seqZ_app by lia. f_equal.
  replace (1 + n) with (n + 1) by lia. reflexivity.
Qed.

Lemma last_seqZ (n : Z) : 1 <= n -> last (seqZ 1 n) = Some n.
Proof.
  intros Hn. replace n with ((n - 1) + 1) at 1 by lia.
  rewrite seqZ_snoc by lia. rewrite last_snoc. f_equal. lia.
Qed.

Lemma max_id_seqZ (n : Z) : 0 <= n -> max_id (seqZ 1 n) = n.
Proof.
  intros Hn. unfold max_id.
  assert (forall k m, 0 <= m -> foldr Z.max 0 (seqZ m (Z.of_nat k))
                      = if decide (k = 0%nat) then 0 else m + Z.of_nat k - 1) as H.
  { induction k as [|k IH]; intros m Hm; [reflexivity|].
    rewrite Nat2Z.inj_succ, seqZ_cons by lia. cbn [foldr].
    replace (Z.pred (Z.succ (Z.of_nat k))) with (Z.of_nat k) by lia.
    rewrite IH by lia. destruct (decide (k = 0%nat)); destruct (decide (S k = 0%nat)); lia. }
  specialize (H (Z.to_nat n) 1 ltac:(lia)). rewrite Z2Nat.id in H by lia.
  rewrite H. destruct (decide (Z.to_nat n = 0%nat)); lia.
Qed.

Lemma wf_segment_ids_ok (db : DB.t) : wf db -> segment_ids_ok db.
Proof.
  intros (n & a & Hn & Hids & Ha & Hid & _). exists n.
  rewrite Hids, max_id_seqZ by lia. eauto 10.
Qed.

Lemma encode_overflow_value (r : LogRecord) :
  len (key r) < 2 ^ 32 -> 2 ^ 32 <= len (value r) -> LogRecord_.encode r = Raise StructError.
Proof.
  intros Hk Hv. unfold LogRecord_.encode. cbv zeta.
  destruct (setitem _ 4 _) as [b|e] eqn:E; cbn [rbind].
  - destruct (pack_into_u32_be b 5 (len (key r))) as [b2|e2] eqn:E2; cbn [rbind].
    + unfold pack_into_u32_be.
      rewrite pack_uint_overflow by (change (256 ^ Z.of_nat 4) with (2 ^ 32); lia).
      reflexivity.
    + unfold pack_into_u32_be in E2.
      destruct (pack_uint BigEndian 4 (len (key r))) eqn:E3; cbn [rbind] in E2.
      * repeat match type of E2 with
               | context [if ?c then _ else _] => destruct c
               end; congruence.
      * unfold pack_uint in E3. destruct (_ && _) in E3; congruence.
  - unfold setitem in E.
    repeat match type of E with
           | context [if ?c then _ else _] => destruct c eqn:?
           end; [congruence|].
    exfalso. unfold bytearray, len, HEADER_SIZE in *. rewrite length_replicate in *.
    match goal with H : (_ && _) = false |- _ =>
      apply andb_false_iff in H; destruct H; zbool; lia end.
Qed.

Lemma encode_not_encodable (r : LogRecord) :
  ~ encodable r -> LogRecord_.encode r = Raise StructError.
Proof.
  intros H. destruct (Z_lt_le_dec (len (key r)) (2 ^ 32)) as [Hk|Hk].
  - destruct (Z_lt_le_dec (len (value r)) (2 ^ 32)) as [Hv|Hv].
    + exfalso. apply H. split; assumption.
    + now apply encode_overflow_value.
  - now apply encode_overflow_key.
Qed.

Lemma encodable_dec (r : LogRecord) : {encodable r} + {~ encodable r}.
Proof.
  unfold encodable.
  destruct (Z_lt_le_dec (len (key r)) (2 ^ 32)); [|right; lia].
  destruct (Z_lt_le_dec (len (value r)) (2 ^ 32)); [left; lia | right; lia].
Qed.

(** [write_log_record] appends the laid-out record, or raises before
    touching the file. *)
Lemma write_log_record_ok (a : DataFile.t) (r : LogRecord) :
  encodable r ->
  DataFile.write_log_record a r
  = Ok (DataFile.mk (DataFile.file_id a) (DataFile.io_manager a ++ layout r)
          (DataFile.write_offset a + (HEADER_SIZE + len (key r) + len (value r))),
        (DataFile.write_offset a, HEADER_SIZE + len (key r) + len (value r))).
Proof.
  intros He. unfold DataFile.write_log_record. rewrite (encode_layout r He).
  cbn [rbind fst snd]. unfold FileIOManager.write. cbn [rbind fst snd].
  now rewrite Z.eqb_refl.
Qed.

Lemma write_log_record_raise (a : DataFile.t) (r : LogRecord) :
  ~ encodable r -> DataFile.write_log_record a r = Raise StructError.
Proof.
  intros He. unfold DataFile.write_log_record. now rewrite (encode_not_encodable r He).
Qed.

(** *** Rollover *)

Lemma next_file_id_seqZ (n : Z) : 1 <= n -> DB.next_file_id (seqZ 1 n) = n + 1.
Proof. intros Hn. unfold DB.next_file_id. now rewrite last_seqZ. Qed.

Lemma rollover_wf (db : DB.t) : wf db -> wf (DB.rollover db).
Proof.
  intros (n & a & Hn & Hids & Ha & Hid & Hwo & Hold & Hall & Hseq & Hrest).
  exists (n + 1), (DataFile.init (n + 1) []).
  unfold DB.rollover. rewrite Ha, Hids, next_file_id_seqZ by lia.
  cbn. rewrite Hid, ?Hids. split; [lia|]. split; [now rewrite seqZ_snoc by lia|].
  split; [reflexivity|]. split; [reflexivity|]. split; [reflexivity|].
  split; [|split; [|split; assumption]].
  - intros i f Hi. destruct (decide (i = n)) as [->|Hne].
    + rewrite lookup_insert_eq in Hi. inversion Hi; subst f. split; [assumption|lia].
    + rewrite lookup_insert_ne in Hi by congruence.
      destruct (Hold i f Hi). split; [assumption|lia].
  - intros i Hi. destruct (decide (i = n)) as [->|Hne].
    + rewrite lookup_insert_eq. eauto.
    + rewrite lookup_insert_ne by congruence. apply Hall. lia.
Qed.

Lemma rollover_frame (db : DB.t) : wf db -> same_frame db (DB.rollover db).
Proof.
  intros (n & a & Hn & Hids & Ha & _). unfold DB.rollover, same_frame. rewrite Ha.
  cbn. repeat split; reflexivity.
Qed.

Lemma rollover_file_of (db : DB.t) (fid : Z) (f : DataFile.t) :
  wf db -> file_of db fid = Some f -> file_of (DB.rollover db) fid = Some f.
Proof.
  intros (n & a & Hn & Hids & Ha & Hid & Hwo & Hold & Hall & Hseq & Hrest) Hf.
  unfold file_of in *. unfold DB.rollover. rewrite Ha in *. rewrite Hids, next_file_id_seqZ by lia.
  cbn. rewrite Hid in *.
  destruct (fid =? n) eqn:E; zbool.
  - subst fid. inversion Hf; subst f. destruct (n =? n + 1) eqn:E2; [zbool; lia|].
    now rewrite lookup_insert_eq.
  - destruct (Hold fid f Hf) as [_ Hr].
    destruct (fid =? n + 1) eqn:E2; [zbool; lia|].
    now rewrite lookup_insert_ne by congruence.
Qed.

Lemma rollover_active (db : DB.t) :
  wf db ->
  exists n, DB.file_ids db = seqZ 1 n /\ 1 <= n /\
    DB.active_file (DB.rollover db) = Some (DataFile.init (n + 1) []) /\
    DB.file_ids (DB.rollover db) = DB.file_ids db ++ [max_id (DB.file_ids db) + 1].
Proof.
  intros (n & a & Hn & Hids & Ha & _). exists n.
  unfold DB.rollover. rewrite Ha, Hids, next_file_id_seqZ, max_id_seqZ by lia.
  cbn. rewrite ?Hids. auto.
Qed.

(** *** Appending a record *)

Lemma wf_write (db : DB.t) (a : DataFile.t) (r : LogRecord) :
  wf db -> DB.active_file db = Some a ->
  wf (DB.set_active_file
        (Some (DataFile.mk (DataFile.file_id a) (DataFile.io_manager a ++ layout r)
                 (DataFile.write_offset a + (HEADER_SIZE + len (key r) + len (value r))))) db).
Proof.
  intros (n & a0 & Hn & Hids & Ha & Hid & Hwo & Hold & Hall & Hseq & Hrest) Ha'.
  rewrite Ha in Ha'. inversion Ha'; subst a0.
  exists n. eexists. cbn.
  split; [assumption|]. split; [assumption|]. split; [reflexivity|].
  split; [assumption|]. split; [cbn; now rewrite len_app, len_layout, Hwo|].
  split; [assumption|]. split; [assumption|]. split; assumption.
Qed.

Lemma holds_write (db : DB.t) (a : DataFile.t) (tail : bytes) (wo fid off : Z) (r : LogRecord) :
  DB.active_file db = Some a -> holds db fid off r ->
  holds (DB.set_active_file
           (Some (DataFile.mk (DataFile.file_id a) (DataFile.io_manager a ++ tail) wo)) db)
        fid off r.
Proof.
  intros Ha (f & pre & post & Hf & Hio & Hoff). unfold holds, file_of in *.
  rewrite Ha in Hf. cbn. destruct (fid =? DataFile.file_id a) eqn:E.
  - inversion Hf; subst f. eexists _, pre, (post ++ tail). cbn.
    split; [reflexivity|]. split; [|assumption]. rewrite Hio. now rewrite <- !app_assoc.
  - exists f, pre, post. auto.
Qed.

Lemma holds_new (db : DB.t) (a : DataFile.t) (wo : Z) (r : LogRecord) :
  holds (DB.set_active_file
           (Some (DataFile.mk (DataFile.file_id a) (DataFile.io_manager a ++ layout r) wo)) db)
        (DataFile.file_id a) (len (DataFile.io_manager a)) r.
Proof.
  unfold holds, file_of. cbn. rewrite Z.eqb_refl.
  eexists _, (DataFile.io_manager a), []. cbn. now rewrite app_nil_r.
Qed.

(** The outcome of [_append_log_record] on a well-formed database. *)
Lemma append_spec (rec : LogRecord) (db : DB.t) :
  wf db ->
  exists res db',
    DB._append_log_record rec db = (res, db') /\
    wf db' /\ same_frame db db' /\
    (forall fid off r, holds db fid off r -> holds db' fid off r) /\
    match res with
    | Ok pos =>
        encodable rec /\ holds db' (file_id pos) (offset pos) rec /\
        size pos = HEADER_SIZE + len (key rec) + len (value rec)
    | Raise e => ~ encodable rec /\ e = StructError
    end.
Proof.
  intros Hwf. unfold DB._append_log_record.
  set (db1 := if DB.needs_new_file db then DB.rollover db else db).
  assert (wf db1) as Hwf1 by (subst db1; destruct (DB.needs_new_file db);
                              [now apply rollover_wf | assumption]).
  assert (same_frame db db1) as Hfr1.
  { subst db1; destruct (DB.needs_new_file db); [now apply rollover_frame|].
    unfold same_frame. repeat split; reflexivity. }
  assert (forall fid off r, holds db fid off r -> holds db1 fid off r) as Hh1.
  { subst db1; destruct (DB.needs_new_file db); [|auto].
    intros fid off r (f & pre & post & Hf & Hio & Hoff).
    exists f, pre, post. split; [now apply rollover_file_of|auto]. }
  clearbody db1.
  pose proof Hwf1 as (n & a & Hn & Hids & Ha & Hid & Hwo & _).
  rewrite Ha.
  destruct (encodable_dec rec) as [He|He].
  - rewrite (write_log_record_ok a rec He).
    eexists _, _. split; [reflexivity|].
    split; [now apply wf_write|].
    split; [exact Hfr1|].
    split; [intros fid off r Hh; apply holds_write; [assumption | now apply Hh1]|].
    cbn [file_id offset size DataFile.file_id]. split; [assumption|]. split; [|reflexivity].
    rewrite Hwo. apply holds_new.
  - rewrite (write_log_record_raise a rec He).
    eexists _, _. split; [reflexivity|]. auto.
Qed.

(** *** put, get, delete against a logical map *)

(** Changes that leave the data files alone. *)
Definition same_files (db db' : DB.t) : Prop :=
  DB.file_ids db' = DB.file_ids db /\ DB.active_file db' = DB.active_file db /\
  DB.older_files db' = DB.older_files db /\ DB.seq_no db' = DB.seq_no db /\
  DB.dir_rest db' = DB.dir_rest db.

Lemma wf_same_files (db db' : DB.t) : same_files db db' -> wf db -> wf db'.
Proof.
  intros (H1 & H2 & H3 & H4 & H5) (n & a & Hwf). exists n, a.
  rewrite H1, H2, H3, H4, H5. exact Hwf.
Qed.

Lemma holds_same_files (db db' : DB.t) (fid off : Z) (r : LogRecord) :
  same_files db db' -> holds db fid off r -> holds db' fid off r.
Proof.
  intros (H1 & H2 & H3 & H4 & H5) (f & pre & post & Hf & Hio).
  exists f, pre, post. split; [|exact Hio]. unfold file_of in *. now rewrite H2, H3.
Qed.

(** [rep db m]: the index entries of [db] are the keys of [m], and each
    points at the NORMAL record of its key and value in the data files. *)
Definition rep (db : DB.t) (m : gmap bytes bytes) : Prop :=
  forall k,
    match DB.index db !! k with
    | Some pos =>
        exists v, m !! k = Some v /\
                  holds db (file_id pos) (offset pos) (mkLogRecord k v NORMAL) /\
                  k <> [] /\ encodable (mkLogRecord k v NORMAL)
    | None => m !! k = None
    end.

(** What [get] shows of a stored value: nothing above the size cap of
    [read_log_record]. *)
Definition capped (k : bytes) (v : option bytes) : option bytes :=
  match v with
  | Some v => if len k + len v <=? DataFile.MAX_RECORD_BODY then Some v else None
  | None => None
  end.

Lemma get_spec (db : DB.t) (m : gmap bytes bytes) (k : bytes) :
  rep db m -> DB.is_closed db = false -> k <> [] ->
  DB.get db k = Ok (capped k (m !! k)).
Proof.
  intros Hrep Hopen Hk. unfold DB.get. rewrite Hopen.
  destruct (decide (k = [])) as [|_]; [contradiction|].
  unfold Indexer.get. specialize (Hrep k).
  destruct (DB.index db !! k) as [pos|]; [|now rewrite Hrep].
  destruct Hrep as (v & Hm & (f & pre & post & Hf & Hio & Hoff) & _ & Henc).
  rewrite Hm. cbn [capped]. unfold DB._get_value_by_position.
  unfold file_of in Hf. destruct (DB.active_file db) as [a|]; [|discriminate].
  rewrite Hf.
  destruct (len k + len v <=? DataFile.MAX_RECORD_BODY) eqn:E; zbool.
  - rewrite (read_layout f pre post _ _ Hio Hoff); [reflexivity|].
    unfold readable. cbn. auto.
  - rewrite (read_layout_oversize f pre post _ _ Hio Hoff Henc); [reflexivity|].
    cbn. lia.
Qed.

Lemma same_files_put_tail (k : bytes) (pos : LogRecordPos) (n : Z) (db : DB.t) :
  same_files db
    (DB.sync_policy (DB.set_bytes_write (DB.bytes_write (DB.index_put_reclaim k pos db) + n)
                       (DB.index_put_reclaim k pos db))).
Proof.
  unfold DB.sync_policy, DB.index_put_reclaim, Indexer.put, same_files.
  destruct (DB.index db !! k); cbn; destruct (_ || _); cbn; auto.
Qed.

Lemma same_files_delete_tail (k : bytes) (n : Z) (db : DB.t) :
  same_files db
    (DB.sync_policy (DB.set_bytes_write (DB.bytes_write (DB.index_delete_reclaim k db) + n)
                       (DB.index_delete_reclaim k db))).
Proof.
  unfold DB.sync_policy, DB.index_delete_reclaim, Indexer.delete, same_files.
  destruct (DB.index db !! k); cbn; destruct (_ || _); cbn; auto.
Qed.

Lemma index_put_tail (k : bytes) (pos : LogRecordPos) (n : Z) (db : DB.t) :
  let db' := DB.sync_policy
               (DB.set_bytes_write (DB.bytes_write (DB.index_put_reclaim k pos db) + n)
                  (DB.index_put_reclaim k pos db)) in
  DB.index db' = <[k := pos]> (DB.index db) /\ DB.is_closed db' = DB.is_closed db /\
  DB.options db' = DB.options db.
Proof.
  unfold DB.sync_policy, DB.index_put_reclaim, Indexer.put.
  destruct (DB.index db !! k); cbn; destruct (_ || _); cbn; auto.
Qed.

Lemma index_delete_tail (k : bytes) (n : Z) (db : DB.t) :
  let db' := DB.sync_policy
               (DB.set_bytes_write (DB.bytes_write (DB.index_delete_reclaim k db) + n)
                  (DB.index_delete_reclaim k db)) in
  DB.index db' = base.delete k (DB.index db) /\ DB.is_closed db' = DB.is_closed db /\
  DB.options db' = DB.options db.
Proof.
  unfold DB.sync_policy, DB.index_delete_reclaim, Indexer.delete.
  destruct (DB.index db !! k); cbn; destruct (_ || _); cbn; auto.
Qed.

(** [put] on an open database with a non-empty key. *)
Lemma put_spec (db : DB.t) (m : gmap bytes bytes) (k v : bytes) :
  wf db -> rep db m -> DB.is_closed db = false -> k <> [] ->
  exists res db',
    DB.put k v db = (res, db') /\ wf db' /\ DB.is_closed db' = false /\
    DB.options db' = DB.options db /\
    match res with
    | Ok _ => encodable (mkLogRecord k v NORMAL) /\ rep db' (<[k := v]> m)
    | Raise e => ~ encodable (mkLogRecord k v NORMAL) /\ rep db' m
    end.
Proof.
  intros Hwf Hrep Hopen Hk. unfold DB.put. rewrite Hopen.
  destruct (decide (k = [])) as [|_]; [contradiction|].
  destruct (append_spec (mkLogRecord k v NORMAL) db Hwf)
    as (res & db1 & Happ & Hwf1 & Hfr & Hstab & Hres).
  destruct Hfr as (Hi & _ & _ & _ & Hc & Ho & _).
  unfold mbind at 1. rewrite Happ. destruct res as [pos|e].
  - destruct Hres as (Henc & Hnew & Hsz). unfold mbind, mmodify.
    set (db' := DB.sync_policy _).
    pose proof (same_files_put_tail k pos (len k + len v) db1) as Hsf. fold db' in Hsf.
    destruct (index_put_tail k pos (len k + len v) db1) as (Hi' & Hc' & Ho'). fold db' in Hi', Hc', Ho'.
    exists (Ok tt), db'. split; [reflexivity|].
    split; [now apply (wf_same_files db1)|]. split; [congruence|]. split; [congruence|].
    split; [assumption|].
    intros k'. rewrite Hi', Hi. destruct (decide (k = k')) as [<-|Hne].
    + rewrite !lookup_insert_eq. exists v. split; [reflexivity|].
      split; [now apply (holds_same_files db1)|]. auto.
    + rewrite !lookup_insert_ne by assumption. specialize (Hrep k').
      destruct (DB.index db !! k') as [pos'|]; [|assumption].
      destruct Hrep as (v' & Hm & Hh & Hrest). exists v'. split; [assumption|].
      split; [|assumption]. apply (holds_same_files db1); [assumption|]. now apply Hstab.
  - destruct Hres as (Henc & ->). exists (Raise StructError), db1.
    split; [reflexivity|]. split; [assumption|]. split; [congruence|]. split; [congruence|].
    split; [assumption|].
    intros k'. rewrite Hi. specialize (Hrep k').
    destruct (DB.index db !! k') as [pos'|]; [|assumption].
    destruct Hrep as (v' & Hm & Hh & Hrest). exists v'. split; [assumption|].
    split; [|assumption]. now apply Hstab.
Qed.

(** [delete] on an open database with a non-empty key: the DELETED
    record of a key always fits. *)
Lemma delete_spec (db : DB.t) (m : gmap bytes bytes) (k : bytes) :
  wf db -> rep db m -> DB.is_closed db = false -> k <> [] ->
  exists db',
    DB.delete k db = (Ok tt, db') /\ wf db' /\ DB.is_closed db' = false /\
    DB.options db' = DB.options db /\ rep db' (base.delete k m).
Proof.
  intros Hwf Hrep Hopen Hk. unfold DB.delete. rewrite Hopen.
  destruct (decide (k = [])) as [|_]; [contradiction|].
  unfold Indexer.get. pose proof (Hrep k) as Hrk.
  destruct (DB.index db !! k) as [pos0|] eqn:Hidx.
  - destruct Hrk as (v0 & Hm0 & _ & _ & (Hek & _)). cbn in Hek.
    destruct (append_spec (mkLogRecord k [] DELETED) db Hwf)
      as (res & db1 & Happ & Hwf1 & Hfr & Hstab & Hres).
    destruct Hfr as (Hi & _ & _ & _ & Hc & Ho & _).
    unfold mbind at 1. rewrite Happ. destruct res as [pos|e].
    + unfold mbind, mmodify. set (db' := DB.sync_policy _).
      pose proof (same_files_delete_tail k (len k) db1) as Hsf. fold db' in Hsf.
      destruct (index_delete_tail k (len k) db1) as (Hi' & Hc' & Ho').
      fold db' in Hi', Hc', Ho'.
      exists db'. split; [reflexivity|].
      split; [now apply (wf_same_files db1)|]. split; [congruence|]. split; [congruence|].
      intros k'. rewrite Hi', Hi. destruct (decide (k = k')) as [<-|Hne].
      * now rewrite !lookup_delete_eq.
      * rewrite !lookup_delete_ne by assumption. specialize (Hrep k').
        destruct (DB.index db !! k') as [pos'|]; [|assumption].
        destruct Hrep as (v' & Hm & Hh & Hrest). exists v'. split; [assumption|].
        split; [|assumption]. apply (holds_same_files db1); [assumption|]. now apply Hstab.
    + destruct Hres as (Henc & _). exfalso. apply Henc. split; cbn; [assumption|].
      unfold len. simpl. lia.
  - exists db. split; [reflexivity|]. split; [assumption|]. split; [assumption|].
    split; [reflexivity|].
    intros k'. destruct (decide (k = k')) as [<-|Hne].
    + rewrite Hidx. now rewrite lookup_delete_eq.
    + rewrite lookup_delete_ne by assumption. apply Hrep.
Qed.

(** *** Sequences of puts and deletes *)

Inductive db_op : Type :=
  | Put (k v : bytes)
  | Delete (k : bytes).

Definition apply_op (o : db_op) : M DB.t unit :=
  match o with
  | Put k v => DB.put k v
  | Delete k => DB.delete k
  end.

(** The calls one after the other, up to the first exception. *)
Fixpoint run_ops (ops : list db_op) : M DB.t unit :=
  match ops with
  | [] => mret tt
  | o :: rest => apply_op o ;;; run_ops rest
  end.

(** The value the last operation on [k] left: [Some v] after a put of
    [v], [None] after a delete, [init] when the sequence has none. *)
Fixpoint last_write (ops : list db_op) (k : bytes) (init : option bytes) : option bytes :=
  match ops with
  | [] => init
  | Put k' v :: rest => last_write rest k (if decide (k = k') then Some v else init)
  | Delete k' :: rest => last_write rest k (if decide (k = k') then None else init)
  end.

Fixpoint model_ops (ops : list db_op) (m : gmap bytes bytes) : gmap bytes bytes :=
  match ops with
  | [] => m
  | Put k v :: rest => model_ops rest (<[k := v]> m)
  | Delete k :: rest => model_ops rest (base.delete k m)
  end.

(** Operations [get] can answer: a non-empty key, and for a put at most
    100 MiB of key and value. *)
Definition op_small (o : db_op) : Prop :=
  match o with
  | Put k v => k <> [] /\ len k + len v <= DataFile.MAX_RECORD_BODY
  | Delete k => k <> []
  end.

Lemma model_ops_lookup (ops : list db_op) (m : gmap bytes bytes) (k : bytes) :
  model_ops ops m !! k = last_write ops k (m !! k).
Proof.
  revert m. induction ops as [|[k' v|k'] ops IH]; intros m; cbn; [reflexivity| |].
  - rewrite IH. destruct (decide (k = k')) as [->|Hne].
    + now rewrite lookup_insert_eq.
    + now rewrite lookup_insert_ne by congruence.
  - rewrite IH. destruct (decide (k = k')) as [->|Hne].
    + now rewrite lookup_delete_eq.
    + now rewrite lookup_delete_ne by congruence.
Qed.

Lemma capped_last_write (ops : list db_op) (k : bytes) (init : option bytes) :
  Forall op_small ops -> capped k init = init ->
  capped k (last_write ops k init) = last_write ops k init.
Proof.
  intros Hops. revert init. induction Hops as [|[k' v|k'] ops Ho Hops IH]; intros init Hinit;
    cbn [last_write]; [assumption| |].
  - apply IH. destruct (decide (k = k')) as [->|]; [|assumption].
    cbn. destruct Ho as [_ Hcap]. destruct (_ <=? _) eqn:E; [reflexivity|zbool; lia].
  - apply IH. destruct (decide (k = k')); [reflexivity|assumption].
Qed.

Lemma small_encodable (k v : bytes) :
  len k + len v <= DataFile.MAX_RECORD_BODY -> encodable (mkLogRecord k v NORMAL).
Proof.
  intros H. unfold encodable, DataFile.MAX_RECORD_BODY in *. cbn.
  pose proof (len_nonneg k). pose proof (len_nonneg v). lia.
Qed.

Lemma run_ops_spec (ops : list db_op) (db : DB.t) (m : gmap bytes bytes) :
  wf db -> rep db m -> DB.is_closed db = false -> Forall op_small ops ->
  exists db',
    run_ops ops db = (Ok tt, db') /\ wf db' /\ rep db' (model_ops ops m) /\
    DB.is_closed db' = false.
Proof.
  intros Hwf Hrep Hopen Hops. revert db m Hwf Hrep Hopen.
  induction Hops as [|o ops Ho Hops IH]; intros db m Hwf Hrep Hopen.
  - exists db. cbn. auto.
  - cbn [run_ops model_ops]. unfold mbind. destruct o as [k v|k]; cbn [apply_op op_small] in *.
    + destruct Ho as [Hk Hcap].
      destruct (put_spec db m k v Hwf Hrep Hopen Hk) as (res & db1 & Hput & Hwf1 & Hc1 & _ & Hres).
      rewrite Hput. destruct res as [[]|e].
      * destruct Hres as [_ Hrep1]. apply (IH db1 _ Hwf1 Hrep1 Hc1).
      * destruct Hres as [Hne _]. exfalso. apply Hne. now apply small_encodable.
    + destruct (delete_spec db m k Hwf Hrep Hopen Ho) as (db1 & Hdel & Hwf1 & Hc1 & _ & Hrep1).
      rewrite Hdel. apply (IH db1 _ Hwf1 Hrep1 Hc1).
Qed.

(** *** A new database *)

Definition new_db (opts : Options) : DB.t :=
  DB.mk opts (Some (DataFile.init 1 [])) ∅ ∅ [1] false (Some 0) false 0 0 [].

Lemma open_db_empty (host : byteorder) (opts : Options) :
  DB.open_db host opts [] = Ok (new_db opts).
Proof.
  destruct opts as [mfs sw bps [] mm]; vm_compute; reflexivity.
Qed.

Lemma new_db_wf (opts : Options) : wf (new_db opts).
Proof.
  exists 1, (DataFile.init 1 []). cbn.
  split; [lia|]. split; [reflexivity|]. split; [reflexivity|]. split; [reflexivity|].
  split; [reflexivity|]. split; [intros i f H; now rewrite lookup_empty in H|].
  split; [intros i Hi; lia|]. split; [|constructor].
  exists 0. split; [reflexivity|]. split; [lia|]. vm_compute. reflexivity.
Qed.

Lemma new_db_rep (opts : Options) : rep (new_db opts) ∅.
Proof. intros k. cbn. now rewrite !lookup_empty. Qed.

(** C2 (amended): on a newly opened database, for every sequence of put
    and delete operations with non-empty keys in which every put has
    len(key) + len(value) at most 100 MiB, all the calls succeed and
    afterwards [get(k)] returns the value most recently written for [k],
    and [None] for every key whose last operation was a delete (or that
    was never written). *)
Theorem C2_round_trip (host : byteorder) (opts : Options) (ops : list db_op) :
  Forall op_small ops ->
  exists db0 db,
    DB.open_db host opts [] = Ok db0 /\
    run_ops ops db0 = (Ok tt, db) /\
    forall k, k <> [] -> DB.get db k = Ok (last_write ops k None).
Proof.
  intros Hops. exists (new_db opts).
  destruct (run_ops_spec ops (new_db opts) ∅ (new_db_wf opts) (new_db_rep opts) eq_refl Hops)
    as (db & Hrun & Hwf & Hrep & Hopen).
  exists db. split; [apply open_db_empty|]. split; [assumption|].
  intros k Hk. rewrite (get_spec db _ k Hrep Hopen Hk), model_ops_lookup, lookup_empty.
  f_equal. now apply capped_last_write.
Qed.

Lemma C2_round_trip_witness :
  let ops := [Put [x61] [x31]; Put [x62] [x32]; Put [x61] [x33]; Delete [x62]] in
  let opts := mkOptions 64 false 0 BTREE false in
  Forall op_small ops /\
  exists db0 db,
    DB.open_db LittleEndian opts [] = Ok db0 /\
    run_ops ops db0 = (Ok tt, db) /\
    forall k, k <> [] -> DB.get db k = Ok (last_write ops k None).
Proof.
  intros ops opts.
  assert (Forall op_small ops) as H.
  { repeat constructor; try discriminate; vm_compute; discriminate. }
  split; [exact H | exact (C2_round_trip LittleEndian opts ops H)].
Defined.

(** C2 as stated fails above the size cap of [read_log_record]: the put
    of a value of 100 MiB under the key "a" succeeds on a new database,
    and [get] of that key then returns [None]. *)
Lemma C2_counterexample :
  let opts := mkOptions 1024 false 0 BTREE false in
  let v := replicate (Z.to_nat (100 * 1024 * 1024)) x00 in
  exists db0 db,
    DB.open_db LittleEndian opts [] = Ok db0 /\
    run_ops [Put [x61] v] db0 = (Ok tt, db) /\
    last_write [Put [x61] v] [x61] None = Some v /\
    DB.get db [x61] = Ok None.
Proof.
  intros opts v.
  assert (len v = 100 * 1024 * 1024) as Hv.
  { unfold v, len. rewrite length_replicate. apply Z2Nat.id. lia. }
  clearbody v.
  assert ([x61] <> ([] : bytes)) as Hk by discriminate.
  destruct (put_spec (new_db opts) ∅ [x61] v (new_db_wf opts) (new_db_rep opts) eq_refl Hk)
    as (res & db & Hput & Hwf & Hopen & _ & Hres).
  exists (new_db opts), db. split; [apply open_db_empty|].
  destruct res as [[]|e].
  - destruct Hres as [_ Hrep]. split; [|split].
    + cbn [run_ops apply_op]. unfold mbind. now rewrite Hput.
    + cbn [last_write]. now destruct (decide ([x61] = [x61])).
    + rewrite (get_spec db _ [x61] Hrep Hopen Hk), lookup_insert_eq. cbn [capped].
      unfold DataFile.MAX_RECORD_BODY. rewrite Hv.
      change (len [x61]) with 1. reflexivity.
  - destruct Hres as [Hne _]. exfalso. apply Hne. unfold encodable. cbn [key value].
    rewrite Hv. change (len [x61]) with 1. lia.
Qed.

(** ** Batches (batch.py) *)

(** *** The buffer of a batch *)

Lemma dict_get_set {V} (d : list (bytes * V)) (k k' : bytes) (v : V) :
  dict_get (dict_set d k v) k' = if decide (k' = k) then Some v else dict_get d k'.
Proof.
  induction d as [|[k0 v0] d IH]; cbn.
  - destruct (decide (k' = k)); reflexivity.
  - destruct (decide (k = k0)) as [->|Hne]; cbn.
    + destruct (decide (k' = k0)); reflexivity.
    + rewrite IH. destruct (decide (k' = k0)) as [->|]; [|reflexivity].
      destruct (decide (k0 = k)); [congruence|reflexivity].
Qed.

Lemma dict_set_keys {V} (d : list (bytes * V)) (k : bytes) (v : V) :
  map fst (dict_set d k v) = if decide (k ∈ map fst d) then map fst d else map fst d ++ [k].
Proof.
  induction d as [|[k0 v0] d IH]; cbn.
  - destruct (decide (k ∈ [])) as [H|_]; [inversion H|reflexivity].
  - destruct (decide (k = k0)) as [->|Hne]; cbn.
    + destruct (decide (k0 ∈ k0 :: map fst d)) as [_|H]; [reflexivity|].
      exfalso. apply H. left.
    + rewrite IH. destruct (decide (k ∈ map fst d)) as [Hin|Hnin].
      * destruct (decide (k ∈ k0 :: map fst d)) as [_|H]; [reflexivity|].
        exfalso. apply H. now right.
      * destruct (decide (k ∈ k0 :: map fst d)) as [H|_]; [|reflexivity].
        apply elem_of_cons in H. destruct H; congruence.
Qed.

Lemma dict_set_fresh {V} (d : list (bytes * V)) (k : bytes) (v : V) :
  k ∉ map fst d -> dict_set d k v = d ++ [(k, v)].
Proof.
  induction d as [|[k0 v0] d IH]; intros Hk; cbn; [reflexivity|].
  cbn in Hk. apply not_elem_of_cons in Hk. destruct Hk as [Hne Hk].
  destruct (decide (k = k0)); [congruence|]. now rewrite IH.
Qed.

Lemma dict_set_NoDup {V} (d : list (bytes * V)) (k : bytes) (v : V) :
  NoDup (map fst d) -> NoDup (map fst (dict_set d k v)).
Proof.
  intros Hd. rewrite dict_set_keys. destruct (decide (k ∈ map fst d)); [assumption|].
  apply NoDup_app. split; [assumption|]. split; [|apply NoDup_singleton].
  intros x Hx Hx'. apply list_elem_of_singleton in Hx'. congruence.
Qed.

Lemma dict_set_nonempty_keys {V} (d : list (bytes * V)) (k : bytes) (v : V) :
  k <> [] -> Forall (fun k => k <> []) (map fst d) ->
  Forall (fun k => k <> []) (map fst (dict_set d k v)).
Proof.
  intros Hk Hd. rewrite dict_set_keys. destruct (decide (k ∈ map fst d)); [assumption|].
  apply Forall_app. split; [assumption|]. now constructor.
Qed.

Inductive batch_op : Type :=
  | BPut (k v : bytes)
  | BDelete (k : bytes).

Definition batch_op_key (o : batch_op) : bytes :=
  match o with BPut k _ => k | BDelete k => k end.

Fixpoint run_batch (ops : list batch_op) (b : Batch.t) : result Batch.t :=
  match ops with
  | [] => Ok b
  | BPut k v :: rest => do b' <- Batch.put b k v; run_batch rest b'
  | BDelete k :: rest => do b' <- Batch.delete b k; run_batch rest b'
  end.

(** The operation buffered last for [k]: [Some (Some v)] for a put,
    [Some None] for a delete, [init] when the sequence has none. *)
Fixpoint last_batch_op (ops : list batch_op) (k : bytes) (init : option (option bytes))
    : option (option bytes) :=
  match ops with
  | [] => init
  | BPut k' v :: rest => last_batch_op rest k (if decide (k = k') then Some (Some v) else init)
  | BDelete k' :: rest => last_batch_op rest k (if decide (k = k') then Some None else init)
  end.

Lemma run_batch_spec (ops : list batch_op) (b : Batch.t) :
  Batch.is_committed b = false ->
  Forall (fun o => batch_op_key o <> []) ops ->
  NoDup (map fst (Batch.writes b)) ->
  Forall (fun k => k <> []) (map fst (Batch.writes b)) ->
  exists b',
    run_batch ops b = Ok b' /\ Batch.is_committed b' = false /\
    NoDup (map fst (Batch.writes b')) /\
    Forall (fun k => k <> []) (map fst (Batch.writes b')) /\
    forall k, dict_get (Batch.writes b') k
              = last_batch_op ops k (dict_get (Batch.writes b) k).
Proof.
  intros Hc Hops. revert b Hc.
  induction Hops as [|o ops Ho Hops IH]; intros b Hc Hnd Hne.
  - exists b. cbn. auto.
  - destruct o as [k v|k]; cbn [run_batch last_batch_op batch_op_key] in *.
    + unfold Batch.put. rewrite Hc. destruct (decide (k = [])); [contradiction|].
      cbn [rbind].
      destruct (IH (Batch.mk false (dict_set (Batch.writes b) k (Some v))) eq_refl
                  (dict_set_NoDup _ _ _ Hnd) (dict_set_nonempty_keys _ _ _ Ho Hne))
        as (b' & Hrun & Hc' & Hnd' & Hne' & Hget).
      exists b'. repeat (split; [assumption|]).
      intros k'. rewrite Hget. cbn [Batch.writes]. now rewrite dict_get_set.
    + unfold Batch.delete. rewrite Hc. destruct (decide (k = [])); [contradiction|].
      cbn [rbind].
      destruct (IH (Batch.mk false (dict_set (Batch.writes b) k None)) eq_refl
                  (dict_set_NoDup _ _ _ Hnd) (dict_set_nonempty_keys _ _ _ Ho Hne))
        as (b' & Hrun & Hc' & Hnd' & Hne' & Hget).
      exists b'. repeat (split; [assumption|]).
      intros k'. rewrite Hget. cbn [Batch.writes]. now rewrite dict_get_set.
Qed.

(** *** The log: the data files read in the order of their ids *)

Definition file_bytes (db : DB.t) (fid : Z) : bytes :=
  match file_of db fid with
  | Some f => DataFile.io_manager f
  | None => []
  end.

Definition log_bytes (db : DB.t) : bytes :=
  flat_map (file_bytes db) (DB.file_ids db).

Lemma flat_map_ext_in {A B} (f g : A -> list B) (l : list A) :
  (forall x, In x l -> f x = g x) -> flat_map f l = flat_map g l.
Proof.
  induction l as [|x l IH]; intros H; cbn; [reflexivity|].
  rewrite (H x) by now left. f_equal. apply IH. intros y Hy. apply H. now right.
Qed.

Lemma wf_file_of (db : DB.t) (fid : Z) :
  wf db -> In fid (DB.file_ids db) -> is_Some (file_of db fid).
Proof.
  intros (n & a & Hn & Hids & Ha & Hid & Hwo & Hold & Hall & _) Hin.
  rewrite Hids in Hin. apply list_elem_of_In, elem_of_seqZ in Hin.
  unfold file_of. rewrite Ha, Hid. destruct (fid =? n) eqn:E; [eauto|].
  zbool. apply Hall. lia.
Qed.

Lemma rollover_log (db : DB.t) : wf db -> log_bytes (DB.rollover db) = log_bytes db.
Proof.
  intros Hwf. unfold log_bytes.
  destruct (rollover_active db Hwf) as (n & Hids & Hn & Hact & Hids').
  rewrite Hids', flat_map_app. cbn [flat_map].
  assert (file_bytes (DB.rollover db) (max_id (DB.file_ids db) + 1) = []) as ->.
  { unfold file_bytes, file_of. rewrite Hact. cbn.
    rewrite Hids, max_id_seqZ by lia. now rewrite Z.eqb_refl. }
  rewrite !app_nil_r. apply flat_map_ext_in. intros fid Hin.
  unfold file_bytes. destruct (wf_file_of db fid Hwf Hin) as [f Hf].
  now rewrite Hf, (rollover_file_of db fid f Hwf Hf).
Qed.

Lemma write_log (db : DB.t) (a : DataFile.t) (tail : bytes) (wo : Z) :
  wf db -> DB.active_file db = Some a ->
  log_bytes (DB.set_active_file
               (Some (DataFile.mk (DataFile.file_id a) (DataFile.io_manager a ++ tail) wo)) db)
  = log_bytes db ++ tail.
Proof.
  intros (n & a0 & Hn & Hids & Ha & Hid & Hwo & Hold & Hall & _) Ha'.
  rewrite Ha in Ha'. inversion Ha'; subst a0. clear Ha'.
  unfold log_bytes. cbn [DB.set_active_file DB.file_ids]. rewrite Hids.
  assert (seqZ 1 n = seqZ 1 (n - 1) ++ [n]) as ->.
  { replace (seqZ 1 n) with (seqZ 1 ((n - 1) + 1)) by (f_equal; lia).
    rewrite seqZ_snoc by lia. f_equal. f_equal. lia. }
  rewrite !flat_map_app. cbn [flat_map]. rewrite !app_nil_r.
  assert (file_bytes db n = DataFile.io_manager a) as ->.
  { unfold file_bytes, file_of. now rewrite Ha, Hid, Z.eqb_refl. }
  assert (forall d, file_bytes (DB.set_active_file
                     (Some (DataFile.mk (DataFile.file_id a) d wo)) db) n = d) as ->.
  { intros d. unfold file_bytes, file_of. cbn. now rewrite Hid, Z.eqb_refl. }
  rewrite app_assoc. f_equal. f_equal. apply flat_map_ext_in. intros fid Hin.
  apply list_elem_of_In, elem_of_seqZ in Hin.
  unfold file_bytes, file_of. cbn. rewrite Ha, Hid.
  destruct (fid =? n) eqn:E; [zbool; lia|reflexivity].
Qed.

(** [_append_log_record] appends the record to the log, or nothing when
    it raises. *)
Lemma append_log (rec : LogRecord) (db : DB.t) :
  wf db ->
  log_bytes (snd (DB._append_log_record rec db))
  = log_bytes db ++ if is_ok (fst (DB._append_log_record rec db)) then layout rec else [].
Proof.
  intros Hwf. unfold DB._append_log_record.
  set (db1 := if DB.needs_new_file db then DB.rollover db else db).
  assert (wf db1) as Hwf1 by (subst db1; destruct (DB.needs_new_file db);
                              [now apply rollover_wf | assumption]).
  assert (log_bytes db1 = log_bytes db) as <-
      by (subst db1; destruct (DB.needs_new_file db); [now apply rollover_log | reflexivity]).
  clearbody db1.
  pose proof Hwf1 as (n & a & Hn & Hids & Ha & _). rewrite Ha.
  destruct (encodable_dec rec) as [He|He].
  - rewrite (write_log_record_ok a rec He). cbn [fst snd is_ok]. now apply write_log.
  - rewrite (write_log_record_raise a rec He). cbn [fst snd is_ok]. now rewrite app_nil_r.
Qed.

(** *** Appending the buffered entries *)

Lemma same_frame_refl (db : DB.t) : same_frame db db.
Proof. unfold same_frame. repeat split; reflexivity. Qed.

Lemma same_frame_trans (db1 db2 db3 : DB.t) :
  same_frame db1 db2 -> same_frame db2 db3 -> same_frame db1 db3.
Proof.
  unfold same_frame. intros (A1 & A2 & A3 & A4 & A5 & A6 & A7) (B1 & B2 & B3 & B4 & B5 & B6 & B7).
  repeat split; congruence.
Qed.

(** The entry [e] of the buffer was appended at the position recorded
    in [p]. *)
Definition placed (db : DB.t) (e : bytes * option bytes)
    (p : bytes * (LogRecordPos * bool)) : Prop :=
  fst p = fst e /\ snd (snd p) = bool_decide (snd e <> None) /\
  holds db (file_id (fst (snd p))) (offset (fst (snd p))) (Batch.record_of (fst e) (snd e)) /\
  encodable (Batch.record_of (fst e) (snd e)).

Definition entries_bytes (ws : list (bytes * option bytes)) : bytes :=
  flat_map (fun e => layout (Batch.record_of (fst e) (snd e))) ws.

Lemma append_writes_spec (ws : list (bytes * option bytes)) :
  forall (acc : list (bytes * (LogRecordPos * bool))) (db : DB.t),
    wf db -> NoDup (map fst ws) ->
    (forall k, k ∈ map fst ws -> k ∉ map fst acc) ->
    exists res db',
      Batch.append_writes ws acc db = (res, db') /\ wf db' /\ same_frame db db' /\
      (forall fid off r, holds db fid off r -> holds db' fid off r) /\
      match res with
      | Ok ps =>
          log_bytes db' = log_bytes db ++ entries_bytes ws /\
          exists new, ps = acc ++ new /\ Forall2 (placed db') ws new
      | Raise _ => True
      end.
Proof.
  induction ws as [|[k w] ws IH]; intros acc db Hwf Hnd Hfresh.
  - exists (Ok acc), db. cbn. split; [reflexivity|]. split; [assumption|].
    split; [apply same_frame_refl|]. split; [auto|]. split; [now rewrite app_nil_r|].
    exists []. split; [now rewrite app_nil_r|constructor].
  - cbn [Batch.append_writes]. unfold mbind.
    destruct (append_spec (Batch.record_of k w) db Hwf)
      as (res1 & db1 & Happ & Hwf1 & Hfr1 & Hst1 & Hres1).
    pose proof (append_log (Batch.record_of k w) db Hwf) as Hlog1.
    rewrite Happ in Hlog1 |- *. cbn [fst snd] in Hlog1.
    destruct res1 as [pos|e].
    2:{ exists (Raise e), db1. auto. }
    destruct Hres1 as (Henc & Hnew & Hsz). cbn [is_ok] in Hlog1.
    cbn [map] in Hnd. apply NoDup_cons in Hnd. destruct Hnd as [Hk Hnd].
    assert (k ∉ map fst acc) as Hkacc by (apply Hfresh; cbn; left).
    rewrite (dict_set_fresh acc k _ Hkacc).
    destruct (IH (acc ++ [(k, (pos, bool_decide (w <> None)))]) db1 Hwf1 Hnd)
      as (res & db' & Hrun & Hwf' & Hfr' & Hst' & Hres).
    { intros k' Hk'. rewrite map_app. cbn. intros Hin. apply elem_of_app in Hin.
      destruct Hin as [Hin|Hin].
      - revert Hin. apply Hfresh. cbn. now right.
      - apply list_elem_of_singleton in Hin. subst k'. contradiction. }
    exists res, db'. split; [assumption|]. split; [assumption|].
    split; [now apply (same_frame_trans db db1)|]. split; [auto|].
    destruct res as [ps|e]; [|exact I].
    destruct Hres as (Hlog & new & Hps & Hall). split.
    + rewrite Hlog, Hlog1. unfold entries_bytes. cbn [flat_map fst snd].
      now rewrite <- app_assoc.
    + exists ((k, (pos, bool_decide (w <> None))) :: new). split.
      * rewrite Hps. now rewrite <- app_assoc.
      * constructor; [|assumption]. unfold placed. cbn [fst snd]. auto.
Qed.

(** *** Updating the index from the positions *)

Definition apply_writes (ws : list (bytes * option bytes)) (m : gmap bytes bytes)
    : gmap bytes bytes :=
  fold_left (fun m e => match snd e with
                        | Some v => <[fst e := v]> m
                        | None => base.delete (fst e) m
                        end) ws m.

Lemma same_files_index_put (k : bytes) (pos : LogRecordPos) (db : DB.t) :
  same_files db (DB.index_put_reclaim k pos db) /\
  DB.index (DB.index_put_reclaim k pos db) = <[k := pos]> (DB.index db) /\
  DB.is_closed (DB.index_put_reclaim k pos db) = DB.is_closed db /\
  DB.options (DB.index_put_reclaim k pos db) = DB.options db.
Proof.
  unfold DB.index_put_reclaim, Indexer.put, same_files.
  destruct (DB.index db !! k); cbn; auto 10.
Qed.

Lemma same_files_index_delete (k : bytes) (db : DB.t) :
  same_files db (DB.index_delete_reclaim k db) /\
  DB.index (DB.index_delete_reclaim k db) = base.delete k (DB.index db) /\
  DB.is_closed (DB.index_delete_reclaim k db) = DB.is_closed db /\
  DB.options (DB.index_delete_reclaim k db) = DB.options db.
Proof.
  unfold DB.index_delete_reclaim, Indexer.delete, same_files.
  destruct (DB.index db !! k); cbn; auto 10.
Qed.

Lemma same_files_refl (db : DB.t) : same_files db db.
Proof. unfold same_files. auto. Qed.

Lemma same_files_trans (db1 db2 db3 : DB.t) :
  same_files db1 db2 -> same_files db2 db3 -> same_files db1 db3.
Proof.
  unfold same_files. intros (A1 & A2 & A3 & A4 & A5) (B1 & B2 & B3 & B4 & B5).
  repeat split; congruence.
Qed.

Lemma rep_index_put (db : DB.t) (m : gmap bytes bytes) (k v : bytes) (pos : LogRecordPos) :
  rep db m -> holds db (file_id pos) (offset pos) (mkLogRecord k v NORMAL) ->
  k <> [] -> encodable (mkLogRecord k v NORMAL) ->
  rep (DB.index_put_reclaim k pos db) (<[k := v]> m).
Proof.
  intros Hrep Hh Hk Henc k'.
  destruct (same_files_index_put k pos db) as (Hsf & Hi & _). rewrite Hi.
  destruct (decide (k = k')) as [<-|Hne].
  - rewrite !lookup_insert_eq. exists v. split; [reflexivity|].
    split; [now apply (holds_same_files db)|]. auto.
  - rewrite !lookup_insert_ne by assumption. specialize (Hrep k').
    destruct (DB.index db !! k') as [pos'|]; [|assumption].
    destruct Hrep as (v' & Hm & Hh' & Hrest). exists v'. split; [assumption|].
    split; [|assumption]. now apply (holds_same_files db).
Qed.

Lemma rep_index_delete (db : DB.t) (m : gmap bytes bytes) (k : bytes) :
  rep db m -> rep (DB.index_delete_reclaim k db) (base.delete k m).
Proof.
  intros Hrep k'.
  destruct (same_files_index_delete k db) as (Hsf & Hi & _). rewrite Hi.
  destruct (decide (k = k')) as [<-|Hne].
  - now rewrite !lookup_delete_eq.
  - rewrite !lookup_delete_ne by assumption. specialize (Hrep k').
    destruct (DB.index db !! k') as [pos'|]; [|assumption].
    destruct Hrep as (v' & Hm & Hh' & Hrest). exists v'. split; [assumption|].
    split; [|assumption]. now apply (holds_same_files db).
Qed.

Lemma placed_same_files (db db' : DB.t) (e : bytes * option bytes)
    (p : bytes * (LogRecordPos * bool)) :
  same_files db db' -> placed db e p -> placed db' e p.
Proof.
  intros Hsf (H1 & H2 & H3 & H4). unfold placed.
  split; [assumption|]. split; [assumption|]. split; [|assumption].
  now apply (holds_same_files db).
Qed.

Lemma apply_positions_spec (ws : list (bytes * option bytes)) :
  forall (ps : list (bytes * (LogRecordPos * bool))) (db : DB.t) (m : gmap bytes bytes),
    Forall2 (placed db) ws ps -> rep db m -> Forall (fun k => k <> []) (map fst ws) ->
    rep (Batch.apply_positions ps db) (apply_writes ws m) /\
    same_files db (Batch.apply_positions ps db) /\
    DB.is_closed (Batch.apply_positions ps db) = DB.is_closed db /\
    DB.options (Batch.apply_positions ps db) = DB.options db.
Proof.
  induction ws as [|[k w] ws IH]; intros ps db m HF Hrep Hne.
  - inversion HF; subst. cbn. split; [assumption|]. split; [apply same_files_refl|]. auto.
  - inversion HF as [|e p ws' ps' Hp Hall]; subst. destruct p as [k' [pos b]].
    destruct Hp as (Hk' & Hb & Hh & Henc). cbn [fst snd] in *. subst k' b.
    cbn [map] in Hne. apply Forall_cons in Hne. destruct Hne as [Hk Hne].
    cbn [Batch.apply_positions]. unfold apply_writes. cbn [fold_left fst snd].
    fold (apply_writes ws). destruct w as [v|]; cbn [Batch.record_of] in *.
    + rewrite bool_decide_true by discriminate.
      destruct (same_files_index_put k pos db) as (Hsf & Hi & Hc & Ho).
      destruct (IH ps' (DB.index_put_reclaim k pos db) (<[k := v]> m))
        as (Hrep' & Hsf' & Hc' & Ho').
      * eapply Forall2_impl; [exact Hall|]. intros e p. now apply placed_same_files.
      * now apply rep_index_put.
      * assumption.
      * fold (apply_writes ws (<[k := v]> m)).
        split; [assumption|]. split; [now apply (same_files_trans db _ _ Hsf)|].
        split; congruence.
    + rewrite bool_decide_false by (intros H; now apply H).
      destruct (same_files_index_delete k db) as (Hsf & Hi & Hc & Ho).
      destruct (IH ps' (DB.index_delete_reclaim k db) (base.delete k m))
        as (Hrep' & Hsf' & Hc' & Ho').
      * eapply Forall2_impl; [exact Hall|]. intros e p. now apply placed_same_files.
      * now apply rep_index_delete.
      * assumption.
      * fold (apply_writes ws (base.delete k m)).
        split; [assumption|]. split; [now apply (same_files_trans db _ _ Hsf)|].
        split; congruence.
Qed.

(** *** commit *)

Lemma rep_stable (db db' : DB.t) (m : gmap bytes bytes) :
  rep db m -> DB.index db' = DB.index db ->
  (forall fid off r, holds db fid off r -> holds db' fid off r) -> rep db' m.
Proof.
  intros Hrep Hi Hst k. rewrite Hi. specialize (Hrep k).
  destruct (DB.index db !! k) as [pos|]; [|assumption].
  destruct Hrep as (v & Hm & Hh & Hrest). exists v. auto.
Qed.

Lemma holds_set_seq_no (db : DB.t) (s : option Z) (fid off : Z) (r : LogRecord) :
  holds db fid off r -> holds (DB.set_seq_no s db) fid off r.
Proof. intros H. exact H. Qed.

Lemma wf_set_seq_no (db : DB.t) (z : Z) :
  seq_ok z -> wf db -> wf (DB.set_seq_no (Some z) db).
Proof.
  intros Hz (n & a & H1 & H2 & H3 & H4 & H5 & H6 & H7 & H8 & H9). exists n, a. cbn.
  repeat (split; [assumption|]). split; [eauto|assumption].
Qed.

Lemma log_set_seq_no (db : DB.t) (s : option Z) :
  log_bytes (DB.set_seq_no s db) = log_bytes db.
Proof. reflexivity. Qed.

Definition marker_bytes (txn_id : Z) (ty : LogRecordType) : bytes :=
  if 0 <? txn_id then layout (Batch.marker txn_id ty) else [].

Lemma commit_try_spec (txn : Z) (ws : list (bytes * option bytes)) (db db' : DB.t)
    (m : gmap bytes bytes) :
  wf db -> rep db m -> NoDup (map fst ws) -> Forall (fun k => k <> []) (map fst ws) ->
  Batch.commit_try txn ws db = (Ok tt, db') ->
  wf db' /\ rep db' (apply_writes ws m) /\
  DB.is_closed db' = DB.is_closed db /\ DB.options db' = DB.options db /\
  log_bytes db' = log_bytes db ++ marker_bytes txn TXNSTART ++ entries_bytes ws
                    ++ marker_bytes txn TXNFINISHED.
Proof.
  intros Hwf Hrep Hnd Hne Hrun. unfold Batch.commit_try, marker_bytes in *.
  unfold mbind at 1 in Hrun.
  (* the start marker *)
  assert (exists db0, (if 0 <? txn
                       then (let* _ := DB._append_log_record (Batch.marker txn TXNSTART) in mret tt)
                       else mret tt) db = (Ok tt, db0) /\
                      wf db0 /\ same_frame db db0 /\
                      (forall fid off r, holds db fid off r -> holds db0 fid off r) /\
                      log_bytes db0 = log_bytes db
                        ++ (if 0 <? txn then layout (Batch.marker txn TXNSTART) else []))
    as (db0 & Hs & Hwf0 & Hfr0 & Hst0 & Hlog0).
  { destruct (0 <? txn).
    - destruct (append_spec (Batch.marker txn TXNSTART) db Hwf)
        as (r & d & Happ & Hwfd & Hfrd & Hstd & Hres).
      pose proof (append_log (Batch.marker txn TXNSTART) db Hwf) as Hlog.
      unfold mbind in Hrun |- *. rewrite Happ in Hrun, Hlog |- *.
      destruct r as [pos|e]; [|discriminate].
      exists d. cbn [fst snd is_ok] in Hlog. auto 10.
    - exists db. unfold mret. split; [reflexivity|]. split; [assumption|].
      split; [apply same_frame_refl|]. split; [auto|]. now rewrite app_nil_r. }
  rewrite Hs in Hrun. unfold mbind at 1 in Hrun.
  (* the entries *)
  destruct (append_writes_spec ws [] db0 Hwf0 Hnd)
    as (res & db1 & Hw & Hwf1 & Hfr1 & Hst1 & Hres1).
  { intros k _ Hin. inversion Hin. }
  rewrite Hw in Hrun. destruct res as [ps|e]; [|discriminate].
  destruct Hres1 as (Hlog1 & new & Hps & Hpl). cbn [app] in Hps. subst new.
  unfold mbind at 1 in Hrun.
  (* the finish marker *)
  assert (exists db2, (if 0 <? txn
                       then (let* _ := DB._append_log_record (Batch.marker txn TXNFINISHED) in
                             mmodify (DB.set_seq_no (Some txn)))
                       else mret tt) db1 = (Ok tt, db2) /\
                      wf db2 /\ DB.index db2 = DB.index db1 /\
                      DB.is_closed db2 = DB.is_closed db1 /\ DB.options db2 = DB.options db1 /\
                      (forall fid off r, holds db1 fid off r -> holds db2 fid off r) /\
                      log_bytes db2 = log_bytes db1
                        ++ (if 0 <? txn then layout (Batch.marker txn TXNFINISHED) else []))
    as (db2 & Hf & Hwf2 & Hi2 & Hc2 & Ho2 & Hst2 & Hlog2).
  { destruct (0 <? txn) eqn:Etxn.
    - destruct (append_spec (Batch.marker txn TXNFINISHED) db1 Hwf1)
        as (r & d & Happ & Hwfd & Hfrd & Hstd & Hres).
      pose proof (append_log (Batch.marker txn TXNFINISHED) db1 Hwf1) as Hlog.
      unfold mbind in Hrun |- *. rewrite Happ in Hrun, Hlog |- *.
      destruct r as [pos|e]; [|discriminate].
      destruct Hfrd as (Di & _ & _ & _ & Dc & Do & _).
      destruct Hres as ((Hmk & _) & _). cbn [Batch.marker key] in Hmk.
      exists (DB.set_seq_no (Some txn) d). cbn [fst snd is_ok] in Hlog.
      split; [reflexivity|].
      split; [apply wf_set_seq_no; [split; [zbool; lia | exact Hmk] | assumption]|].
      split; [exact Di|]. split; [exact Dc|]. split; [exact Do|].
      split; [intros fid off r0 Hh; apply holds_set_seq_no; now apply Hstd|].
      rewrite log_set_seq_no. exact Hlog.
    - exists db1. unfold mret. split; [reflexivity|]. split; [assumption|].
      split; [reflexivity|]. split; [reflexivity|]. split; [reflexivity|].
      split; [auto|]. now rewrite app_nil_r. }
  rewrite Hf in Hrun. unfold mmodify in Hrun. inversion Hrun; subst db'. clear Hrun.
  destruct Hfr0 as (Ai & _ & _ & _ & Ac & Ao & _).
  destruct Hfr1 as (Bi & _ & _ & _ & Bc & Bo & _).
  assert (rep db2 m) as Hrep2.
  { apply (rep_stable db); [assumption | congruence | auto]. }
  destruct (apply_positions_spec ws ps db2 m) as (Hrep' & Hsf' & Hc' & Ho').
  { eapply Forall2_impl; [exact Hpl|]. intros e p (P1 & P2 & P3 & P4). unfold placed. auto. }
  { assumption. }
  { assumption. }
  split; [now apply (wf_same_files db2)|]. split; [assumption|].
  split; [congruence|]. split; [congruence|].
  destruct Hsf' as (S1 & S2 & S3 & _).
  assert (log_bytes (Batch.apply_positions ps db2) = log_bytes db2) as ->.
  { unfold log_bytes, file_bytes, file_of. now rewrite S1, S2, S3. }
  rewrite Hlog2, Hlog1, Hlog0. now rewrite <- !app_assoc.
Qed.

Lemma dict_get_None {V} (d : list (bytes * V)) (k : bytes) :
  k ∉ map fst d -> dict_get d k = None.
Proof.
  induction d as [|[k0 v0] d IH]; intros Hk; cbn; [reflexivity|].
  cbn in Hk. apply not_elem_of_cons in Hk. destruct Hk as [Hne Hk].
  destruct (decide (k = k0)); [congruence|]. now apply IH.
Qed.

Lemma apply_writes_cons (k0 : bytes) (w0 : option bytes) (ws : list (bytes * option bytes))
    (m : gmap bytes bytes) :
  apply_writes ((k0, w0) :: ws) m
  = apply_writes ws match w0 with
                    | Some v => <[k0 := v]> m
                    | None => base.delete k0 m
                    end.
Proof. reflexivity. Qed.

Lemma apply_writes_lookup (ws : list (bytes * option bytes)) (m : gmap bytes bytes) (k : bytes) :
  NoDup (map fst ws) ->
  apply_writes ws m !! k = match dict_get ws k with
                           | Some w => w
                           | None => m !! k
                           end.
Proof.
  revert m. induction ws as [|[k0 w0] ws IH]; intros m Hnd; [reflexivity|].
  cbn [map fst] in Hnd. apply NoDup_cons in Hnd. destruct Hnd as [Hk0 Hnd].
  rewrite apply_writes_cons, (IH _ Hnd).
  cbn [dict_get]. destruct (decide (k = k0)) as [->|Hne].
  - rewrite (dict_get_None ws k0 Hk0).
    destruct w0; [apply lookup_insert_eq | apply lookup_delete_eq].
  - destruct (dict_get ws k); [reflexivity|].
    destruct w0; [now rewrite lookup_insert_ne by congruence
                 | now rewrite lookup_delete_ne by congruence].
Qed.

(** The transaction id [commit] uses, and the bytes it is to append:
    nothing for an empty batch, otherwise the records of the buffered
    entries, in order, between the two markers when the id is positive. *)
Definition commit_txn_id (db : DB.t) : Z :=
  match DB.seq_no db with
  | Some s => if is_btree (DB.index_type_of db) then s + 1 else s
  | None => 0
  end.

Definition committed_bytes (db : DB.t) (ws : list (bytes * option bytes)) : bytes :=
  match ws with
  | [] => []
  | _ => marker_bytes (commit_txn_id db) TXNSTART ++ entries_bytes ws
         ++ marker_bytes (commit_txn_id db) TXNFINISHED
  end.

Lemma commit_spec (b b' : Batch.t) (db db' : DB.t) (m : gmap bytes bytes) :
  wf db -> rep db m -> NoDup (map fst (Batch.writes b)) ->
  Forall (fun k => k <> []) (map fst (Batch.writes b)) ->
  Batch.commit b db = (Ok tt, b', db') ->
  wf db' /\ rep db' (apply_writes (Batch.writes b) m) /\
  DB.is_closed db' = DB.is_closed db /\
  log_bytes db' = log_bytes db ++ committed_bytes db (Batch.writes b).
Proof.
  intros Hwf Hrep Hnd Hne Hc. unfold Batch.commit in Hc.
  destruct (Batch.is_committed b); [discriminate|].
  unfold committed_bytes, commit_txn_id.
  destruct (Batch.writes b) as [|e ws] eqn:Hws.
  - inversion Hc; subst. cbn. rewrite app_nil_r. auto.
  - destruct (DB.seq_no db) as [s|]; [|discriminate].
    unfold DB.index_type_of in *.
    set (txn := if is_btree (index_type (DB.options db)) then s + 1 else s) in *.
    destruct (Batch.commit_try txn (e :: ws) db) as [[[]|err] db1] eqn:Htry; [|discriminate].
    inversion Hc; subst db'.
    destruct (commit_try_spec txn (e :: ws) db db1 m Hwf Hrep Hnd Hne Htry)
      as (H1 & H2 & H3 & _ & H5).
    auto.
Qed.

(** C10: for every sequence of [Batch.put] and [Batch.delete] calls with
    non-empty keys on a new batch, the buffer holds each key once, with
    the operation buffered last for it; and when [Batch.commit] returns,
    it has appended to the log exactly one record per buffered key (in
    buffer order, between the transaction markers when there are any),
    the index maps every key to what its last buffered operation made of
    it, and [get] answers accordingly. *)
Theorem C10_batch_last_op_per_key (ops : list batch_op) (db : DB.t) (m : gmap bytes bytes) :
  wf db -> rep db m -> DB.is_closed db = false ->
  Forall (fun o => batch_op_key o <> []) ops ->
  exists b,
    run_batch ops Batch.init = Ok b /\
    NoDup (map fst (Batch.writes b)) /\
    (forall k, dict_get (Batch.writes b) k = last_batch_op ops k None) /\
    forall b' db',
      Batch.commit b db = (Ok tt, b', db') ->
      log_bytes db' = log_bytes db ++ committed_bytes db (Batch.writes b) /\
      rep db' (apply_writes (Batch.writes b) m) /\
      (forall k, apply_writes (Batch.writes b) m !! k
                 = match last_batch_op ops k None with
                   | Some w => w
                   | None => m !! k
                   end) /\
      (forall k, k <> [] ->
                 DB.get db' k = Ok (capped k match last_batch_op ops k None with
                                             | Some w => w
                                             | None => m !! k
                                             end)).
Proof.
  intros Hwf Hrep Hopen Hops.
  destruct (run_batch_spec ops Batch.init eq_refl Hops (NoDup_nil_2) (Forall_nil_2 _))
    as (b & Hrun & Hc & Hnd & Hne & Hget).
  exists b. split; [assumption|]. split; [assumption|]. split; [exact Hget|].
  intros b' db' Hcommit.
  destruct (commit_spec b b' db db' m Hwf Hrep Hnd Hne Hcommit) as (Hwf' & Hrep' & Hc' & Hlog).
  assert (forall k, apply_writes (Batch.writes b) m !! k
                    = match last_batch_op ops k None with
                      | Some w => w
                      | None => m !! k
                      end) as Hlook.
  { intros k. rewrite (apply_writes_lookup _ _ _ Hnd). now rewrite Hget. }
  split; [assumption|]. split; [assumption|]. split; [exact Hlook|].
  intros k Hk. rewrite (get_spec db' _ k Hrep') by (congruence || assumption).
  now rewrite Hlook.
Qed.

Lemma C10_batch_last_op_per_key_witness :
  let ops := [BPut [x78] [x31]; BPut [x79] [x32]; BDelete [x78]; BPut [x79] [x33]] in
  let db := new_db (mkOptions 1024 false 0 BTREE false) in
  exists b,
    run_batch ops Batch.init = Ok b /\
    NoDup (map fst (Batch.writes b)) /\
    (forall k, dict_get (Batch.writes b) k = last_batch_op ops k None) /\
    forall b' db',
      Batch.commit b db = (Ok tt, b', db') ->
      log_bytes db' = log_bytes db ++ committed_bytes db (Batch.writes b) /\
      rep db' (apply_writes (Batch.writes b) ∅) /\
      (forall k, apply_writes (Batch.writes b) ∅ !! k
                 = match last_batch_op ops k None with
                   | Some w => w
                   | None => (∅ : gmap bytes bytes) !! k
                   end) /\
      (forall k, k <> [] ->
                 DB.get db' k = Ok (capped k match last_batch_op ops k None with
                                             | Some w => w
                                             | None => (∅ : gmap bytes bytes) !! k
                                             end)).
Proof.
  intros ops db.
  apply (C10_batch_last_op_per_key ops db ∅).
  - apply new_db_wf.
  - apply new_db_rep.
  - reflexivity.
  - repeat constructor; discriminate.
Defined.

(** The commit of that batch does return: one record per key between the
    two markers, and the last operations are what [get] shows. *)
Example batch_commit_example :
  let ops := [BPut [x78] [x31]; BPut [x79] [x32]; BDelete [x78]; BPut [x79] [x33]] in
  let db := DB.open_db LittleEndian (mkOptions 1024 false 0 BTREE false) [] in
  let committed := commit_step (run_batch ops Batch.init) db in
  match run_batch ops Batch.init with
  | Ok b => Batch.writes b = [([x78], None); ([x79], Some [x33])]
  | Raise _ => False
  end /\
  get_on committed [x78] = Ok None /\
  get_on committed [x79] = Ok (Some [x33]) /\
  dir_sizes (dir_on committed) = [("000000001.data"%string, 14 + 14 + 15 + 14)].
Proof. vm_compute. repeat split; reflexivity. Qed.

(** ** The segment-id invariant

    [wf] holds after every call, whatever its outcome. *)

Lemma put_wf (k v : bytes) (db : DB.t) : wf db -> wf (snd (DB.put k v db)).
Proof.
  intros Hwf. unfold DB.put.
  destruct (DB.is_closed db); [exact Hwf|].
  destruct (decide (k = [])); [exact Hwf|].
  destruct (append_spec (mkLogRecord k v NORMAL) db Hwf) as (r & d & Happ & Hwfd & _).
  unfold mbind, mmodify. rewrite Happ. destruct r as [pos|e]; cbn [snd]; [|exact Hwfd].
  eapply wf_same_files; [apply same_files_put_tail|exact Hwfd].
Qed.

Lemma delete_wf (k : bytes) (db : DB.t) : wf db -> wf (snd (DB.delete k db)).
Proof.
  intros Hwf. unfold DB.delete.
  destruct (DB.is_closed db); [exact Hwf|].
  destruct (decide (k = [])); [exact Hwf|].
  destruct (Indexer.get (DB.index db) k); [|exact Hwf].
  destruct (append_spec (mkLogRecord k [] DELETED) db Hwf) as (r & d & Happ & Hwfd & _).
  unfold mbind, mmodify. rewrite Happ. destruct r as [pos|e]; cbn [snd]; [|exact Hwfd].
  eapply wf_same_files; [apply same_files_delete_tail|exact Hwfd].
Qed.

Lemma append_writes_wf (ws : list (bytes * option bytes)) :
  forall (acc : list (bytes * (LogRecordPos * bool))) (db : DB.t),
    wf db -> wf (snd (Batch.append_writes ws acc db)).
Proof.
  induction ws as [|[k w] ws IH]; intros acc db Hwf; cbn [Batch.append_writes];
    [exact Hwf|].
  destruct (append_spec (Batch.record_of k w) db Hwf) as (r & d & Happ & Hwfd & _).
  unfold mbind. rewrite Happ. destruct r as [pos|e]; [now apply IH | exact Hwfd].
Qed.

Lemma apply_positions_same_files (ps : list (bytes * (LogRecordPos * bool))) :
  forall db : DB.t, same_files db (Batch.apply_positions ps db).
Proof.
  induction ps as [|[k [pos b]] ps IH]; intros db; cbn [Batch.apply_positions];
    [apply same_files_refl|].
  eapply same_files_trans; [|apply IH].
  destruct b; [apply same_files_index_put | apply same_files_index_delete].
Qed.

Lemma commit_try_wf (txn : Z) (ws : list (bytes * option bytes)) (db : DB.t) :
  wf db -> wf (snd (Batch.commit_try txn ws db)).
Proof.
  intros Hwf. unfold Batch.commit_try, mbind, mmodify, mret.
  destruct (0 <? txn) eqn:Etxn.
  - destruct (append_spec (Batch.marker txn TXNSTART) db Hwf) as (r & d & Happ & Hwfd & _).
    rewrite Happ. destruct r as [p|e]; [|exact Hwfd].
    pose proof (append_writes_wf ws [] d Hwfd) as Hw.
    destruct (Batch.append_writes ws [] d) as [[ps|e] d1]; cbn [snd] in Hw |- *;
      [|exact Hw].
    destruct (append_spec (Batch.marker txn TXNFINISHED) d1 Hw)
      as (r2 & d2 & Happ2 & Hwf2 & _ & _ & Hres).
    rewrite Happ2. destruct r2 as [p2|e]; [|exact Hwf2]. cbn [snd].
    destruct Hres as ((Hmk & _) & _). cbn [Batch.marker key] in Hmk.
    eapply wf_same_files; [apply apply_positions_same_files|].
    apply wf_set_seq_no; [split; [zbool; lia | exact Hmk] | exact Hwf2].
  - pose proof (append_writes_wf ws [] db Hwf) as Hw.
    destruct (Batch.append_writes ws [] db) as [[ps|e] d1]; cbn [snd] in Hw |- *;
      [|exact Hw].
    eapply wf_same_files; [apply apply_positions_same_files|exact Hw].
Qed.

Lemma commit_wf (b : Batch.t) (db : DB.t) : wf db -> wf (snd (Batch.commit b db)).
Proof.
  intros Hwf. unfold Batch.commit.
  destruct (Batch.is_committed b); [exact Hwf|].
  destruct (Batch.writes b) as [|w ws]; [exact Hwf|].
  destruct (DB.seq_no db) as [s|]; [|exact Hwf].
  set (txn := if is_btree (DB.index_type_of db) then s + 1 else s).
  pose proof (commit_try_wf txn (w :: ws) db Hwf) as Hw.
  destruct (Batch.commit_try txn (w :: ws) db) as [[u|e] d]; cbn [snd] in Hw |- *;
    [exact Hw|].
  destruct (0 <? txn); [|exact Hw].
  destruct (append_spec (Batch.marker txn TXNABORT) d Hw) as (r & d' & Happ & Hwfd & _).
  now rewrite Happ.
Qed.

(** A rollover, and only a rollover, adds a segment id: one past the
    largest, and the new segment is the active one. *)
Lemma append_segment_ids (rec : LogRecord) (db : DB.t) :
  wf db ->
  let db' := snd (DB._append_log_record rec db) in
  if DB.needs_new_file db
  then DB.file_ids db' = DB.file_ids db ++ [max_id (DB.file_ids db) + 1] /\
       exists a, DB.active_file db' = Some a /\
                 DataFile.file_id a = max_id (DB.file_ids db) + 1
  else DB.file_ids db' = DB.file_ids db /\
       exists a, DB.active_file db' = Some a /\
                 DataFile.file_id a = max_id (DB.file_ids db).
Proof.
  intros Hwf db'. subst db'. unfold DB._append_log_record.
  destruct (DB.needs_new_file db).
  - destruct (rollover_active db Hwf) as (n & Hids & Hn & Ha & Hids').
    rewrite <- Hids'. set (db1 := DB.rollover db) in *. rewrite Ha.
    assert (max_id (DB.file_ids db) + 1 = n + 1) as -> by (rewrite Hids, max_id_seqZ; lia).
    destruct (encodable_dec rec) as [He|He].
    + rewrite (write_log_record_ok _ _ He). cbn. eauto.
    + rewrite (write_log_record_raise _ _ He). cbn [snd]. rewrite Ha. eauto.
  - destruct Hwf as (n & a & Hn & Hids & Ha & Hid & _).
    rewrite Ha.
    assert (max_id (DB.file_ids db) = n) as -> by (rewrite Hids, max_id_seqZ; lia).
    destruct (encodable_dec rec) as [He|He].
    + rewrite (write_log_record_ok _ _ He). cbn. eauto.
    + rewrite (write_log_record_raise _ _ He). cbn [snd]. rewrite Ha. eauto.
Qed.

(** ** File names

    The name of a data file is read back as its id. *)

Definition digit (c : ascii) : Prop := (48 <= N_of_ascii c <= 57)%N.

Fixpoint digits (s : string) : Prop :=
  match s with
  | EmptyString => True
  | String c s' => digit c /\ digits s'
  end.

Lemma append_cons (c : ascii) (s t : string) :
  (String c s +:+ t)%string = String c (s +:+ t)%string.
Proof. reflexivity. Qed.

Lemma append_nil (t : string) : (EmptyString +:+ t)%string = t.
Proof. reflexivity. Qed.

(** The value of a digit string that continues the number [acc]. *)
Fixpoint uint_val (d : Decimal.uint) (acc : Z) : Z :=
  match d with
  | Decimal.Nil => acc
  | Decimal.D0 d => uint_val d (10 * acc)
  | Decimal.D1 d => uint_val d (10 * acc + 1)
  | Decimal.D2 d => uint_val d (10 * acc + 2)
  | Decimal.D3 d => uint_val d (10 * acc + 3)
  | Decimal.D4 d => uint_val d (10 * acc + 4)
  | Decimal.D5 d => uint_val d (10 * acc + 5)
  | Decimal.D6 d => uint_val d (10 * acc + 6)
  | Decimal.D7 d => uint_val d (10 * acc + 7)
  | Decimal.D8 d => uint_val d (10 * acc + 8)
  | Decimal.D9 d => uint_val d (10 * acc + 9)
  end.

Lemma uint_val_pos (d : Decimal.uint) :
  forall acc : positive, uint_val d (Z.pos acc) = Z.pos (Pos.of_uint_acc d acc).
Proof.
  induction d; intros acc; cbn [uint_val Pos.of_uint_acc]; [reflexivity | ..];
    match goal with
    | |- uint_val _ ?z = _ => 
        match goal with
        | |- _ = Z.pos (Pos.of_uint_acc _ ?p) => replace z with (Z.pos p) by lia
        end
    end; apply IHd.
Qed.

Lemma uint_val_0 (d : Decimal.uint) : uint_val d 0 = Z.of_N (N.of_uint d).
Proof.
  unfold N.of_uint.
  induction d; cbn [uint_val Pos.of_uint]; [reflexivity | exact IHd | ..];
    cbn [Z.mul Z.add]; apply uint_val_pos.
Qed.

Lemma digits_uint (d : Decimal.uint) : digits (NilEmpty.string_of_uint d).
Proof.
  induction d; cbn [NilEmpty.string_of_uint digits]; [exact I | ..];
    (split; [unfold digit; cbn; lia | exact IHd]).
Qed.

Lemma digits_zeros (k : nat) : digits (DB.zeros k).
Proof.
  induction k as [|k IH]; cbn [DB.zeros digits]; [exact I|].
  split; [unfold digit; cbn; lia | exact IH].
Qed.

Lemma digits_app (s t : string) : digits s -> digits t -> digits (s +:+ t).
Proof.
  induction s as [|c s IH]; rewrite ?append_cons, ?append_nil; cbn [digits]; [auto|].
  intros [Hc Hs] Ht. split; [exact Hc | now apply IH].
Qed.

Lemma digit_cases (c : ascii) (P : ascii -> Prop) :
  digit c ->
  P "0"%char -> P "1"%char -> P "2"%char -> P "3"%char -> P "4"%char ->
  P "5"%char -> P "6"%char -> P "7"%char -> P "8"%char -> P "9"%char -> P c.
Proof.
  unfold digit.
  destruct c as [[] [] [] [] [] [] [] []]; cbn; intros H; try lia; auto 20.
Qed.

Lemma int_digits_cons (c : ascii) (s : string) (acc : Z) (b : bool) (v : Z) :
  DB.digit_val c = Some v ->
  DB.int_digits (String c s) acc b = DB.int_digits s (10 * acc + v) true.
Proof. intros H. cbn [DB.int_digits]. now rewrite H. Qed.

Lemma int_digits_uint (d : Decimal.uint) :
  forall (acc : Z) (b : bool),
    d <> Decimal.Nil \/ b = true ->
    DB.int_digits (NilEmpty.string_of_uint d) acc b = Some (uint_val d acc).
Proof.
  induction d; intros acc b Hb; cbn [NilEmpty.string_of_uint uint_val].
  - destruct Hb as [Hb| ->]; [congruence | reflexivity].
  - rewrite (int_digits_cons _ _ _ _ 0), IHd by auto. now rewrite Z.add_0_r.
  - now rewrite (int_digits_cons _ _ _ _ 1), IHd by auto.
  - now rewrite (int_digits_cons _ _ _ _ 2), IHd by auto.
  - now rewrite (int_digits_cons _ _ _ _ 3), IHd by auto.
  - now rewrite (int_digits_cons _ _ _ _ 4), IHd by auto.
  - now rewrite (int_digits_cons _ _ _ _ 5), IHd by auto.
  - now rewrite (int_digits_cons _ _ _ _ 6), IHd by auto.
  - now rewrite (int_digits_cons _ _ _ _ 7), IHd by auto.
  - now rewrite (int_digits_cons _ _ _ _ 8), IHd by auto.
  - now rewrite (int_digits_cons _ _ _ _ 9), IHd by auto.
Qed.

Lemma int_digits_zeros (k : nat) (s : string) :
  forall b : bool,
    DB.int_digits (DB.zeros k +:+ s) 0 b
    = DB.int_digits s 0 (b || negb (Nat.eqb k 0)).
Proof.
  induction k as [|k IH]; intros b; cbn [DB.zeros]; rewrite ?append_cons, ?append_nil.
  - cbn. now rewrite orb_false_r.
  - rewrite (int_digits_cons _ _ _ _ 0) by reflexivity. change (10 * 0 + 0) with 0.
    rewrite IH. cbn. now rewrite orb_true_r.
Qed.

Lemma lstrip_digit (c : ascii) (s : string) :
  digit c -> DB.lstrip (String c s) = String c s.
Proof. intros Hc. revert s. apply (digit_cases c); auto. Qed.

Lemma rstrip_digits (s : string) : digits s -> DB.rstrip s = s.
Proof.
  induction s as [|c s IH]; [reflexivity|]. intros [Hc Hs].
  cbn [DB.rstrip]. rewrite (IH Hs).
  destruct s; [|reflexivity].
  revert Hc. clear. intros Hc. apply (digit_cases c); auto.
Qed.

Lemma before_dot_digits (s t : string) :
  digits s -> DB.before_dot (s +:+ String "." t) = s.
Proof.
  induction s as [|c s IH]; [reflexivity|]. intros [Hc Hs].
  rewrite ?append_cons, ?append_nil; cbn [DB.before_dot]. rewrite (IH Hs).
  revert s IH Hs. apply (digit_cases c); auto.
Qed.

Lemma str_endswith_app (s p : string) : DB.str_endswith (s +:+ p) p = true.
Proof.
  induction s as [|c s IH]; rewrite ?append_cons, ?append_nil.
  - destruct p; cbn [DB.str_endswith]; now rewrite String.eqb_refl.
  - cbn [DB.str_endswith]. rewrite IH. apply orb_true_r.
Qed.

Lemma not_digit (c : ascii) : (57 <? N_of_ascii c)%N = true -> ~ digit c.
Proof. intros H [_ H2]. apply N.ltb_lt in H. lia. Qed.

Lemma prefix_digit (a c : ascii) (p s : string) :
  digit c -> ~ digit a -> String.prefix (String a p) (String c s) = false.
Proof.
  intros Hc Ha. cbn [String.prefix].
  destruct (ascii_dec a c) as [->|]; [contradiction | reflexivity].
Qed.

(** The decimal text of a number that is not negative. *)
Definition dec (n : Z) : string := NilEmpty.string_of_uint (N.to_uint (Z.to_N n)).

Lemma dec_cons (n : Z) : exists c s, dec n = String c s /\ digit c /\ digits s.
Proof.
  unfold dec. pose proof (digits_uint (N.to_uint (Z.to_N n))) as H.
  destruct (NilEmpty.string_of_uint (N.to_uint (Z.to_N n))) as [|c s] eqn:E.
  - exfalso. destruct (Z.to_N n) as [|p]; [discriminate|].
    cbn [N.to_uint] in E. pose proof (DecimalPos.Unsigned.to_uint_nonnil p) as Hp.
    destruct (Pos.to_uint p); solve [congruence | discriminate].
  - destruct H as [Hc Hs]. eauto.
Qed.

Lemma to_uint_nonnil (n : N) : N.to_uint n <> Decimal.Nil.
Proof.
  destruct n as [|p]; [discriminate | apply DecimalPos.Unsigned.to_uint_nonnil].
Qed.

Lemma string_of_uint_dec (n : Z) :
  NilZero.string_of_uint (N.to_uint (Z.to_N n)) = dec n.
Proof.
  unfold dec, NilZero.string_of_uint.
  pose proof (to_uint_nonnil (Z.to_N n)) as H.
  now destruct (N.to_uint (Z.to_N n)).
Qed.

(** [int] of zeros followed by the decimal text of [n] is [n]. *)
Lemma py_int_dec (k : nat) (n : Z) :
  0 <= n -> DB.py_int (DB.zeros k +:+ dec n) = Ok n.
Proof.
  intros Hn.
  assert (exists c s, DB.zeros k +:+ dec n = String c s /\ digit c /\ digits s)
    as (c & s & E & Hc & Hs).
  { destruct k as [|k].
    - apply dec_cons.
    - exists "0"%char, (DB.zeros k +:+ dec n). split; [reflexivity|].
      split; [unfold digit; cbn; lia|].
      apply digits_app; [apply digits_zeros|].
      destruct (dec_cons n) as (c & s & -> & Hc & Hs). now split. }
  assert (DB.int_digits (String c s) 0 false = Some n) as Hval.
  { rewrite <- E, int_digits_zeros. unfold dec.
    rewrite int_digits_uint by (left; apply to_uint_nonnil).
    rewrite uint_val_0, DecimalN.Unsigned.of_to. f_equal. lia. }
  unfold DB.py_int. rewrite E, (lstrip_digit c s Hc).
  rewrite (rstrip_digits (String c s)) by now split.
  revert Hval. clear -Hc. revert s. apply (digit_cases c); auto;
    intros s Hval; now rewrite Hval.
Qed.

Lemma format_09d_dec (i : Z) :
  0 <= i -> exists k, DB.format_09d i = DB.zeros k +:+ dec i.
Proof.
  intros Hi. unfold DB.format_09d. rewrite Z.abs_eq by lia.
  destruct (i <? 0) eqn:E; [zbool; lia|].
  rewrite string_of_uint_dec. eauto.
Qed.

Lemma get_data_file_path_digits (i : Z) :
  0 <= i ->
  exists c s, DB.get_data_file_path i = (String c s +:+ ".data")%string /\
              digit c /\ digits s /\ DB.py_int (String c s) = Ok i.
Proof.
  intros Hi. destruct (format_09d_dec i Hi) as (k & E).
  pose proof (py_int_dec k i Hi) as Hint. unfold DB.get_data_file_path.
  rewrite E. destruct (dec_cons i) as (c & s & Ed & Hc & Hs).
  destruct k as [|k].
  - exists c, s. cbn [DB.zeros] in *; rewrite ?append_cons, ?append_nil in *. rewrite Ed in *. auto.
  - exists "0"%char, (DB.zeros k +:+ dec i)%string. cbn [DB.zeros] in *; rewrite ?append_cons, ?append_nil in *.
    split; [reflexivity|]. split; [unfold digit; cbn; lia|]. split; [|exact Hint].
    apply digits_app; [apply digits_zeros|]. rewrite Ed. now split.
Qed.

Lemma py_int_data_file_path (i : Z) :
  0 <= i -> DB.py_int (DB.before_dot (DB.get_data_file_path i)) = Ok i.
Proof.
  intros Hi. destruct (get_data_file_path_digits i Hi) as (c & s & -> & Hc & Hs & Hint).
  change (String c s +:+ ".data")%string with (String c s +:+ String "." "data")%string.
  rewrite before_dot_digits by now split. exact Hint.
Qed.

Lemma is_data_file_name_path (i : Z) :
  0 <= i -> DB.is_data_file_name (DB.get_data_file_path i) = true.
Proof.
  intros Hi. destruct (get_data_file_path_digits i Hi) as (c & s & -> & Hc & Hs & _).
  unfold DB.is_data_file_name, DB.DATA_FILE_NAME_SUFFIX, DB.str_startswith.
  rewrite str_endswith_app. rewrite ?append_cons, ?append_nil.
  rewrite !prefix_digit; first [reflexivity | assumption | now apply not_digit].
Qed.

Lemma get_data_file_path_inj (i j : Z) :
  0 <= i -> 0 <= j -> DB.get_data_file_path i = DB.get_data_file_path j -> i = j.
Proof.
  intros Hi Hj E. pose proof (py_int_data_file_path i Hi) as H.
  rewrite E, py_int_data_file_path in H by exact Hj. congruence.
Qed.

(** The sequence number is read back from its text. *)
Lemma py_str_int_dec (z : Z) : 0 <= z -> py_str_int z = dec z.
Proof.
  intros Hz. unfold py_str_int. rewrite <- string_of_uint_dec.
  destruct z as [|p|p]; [reflexivity | reflexivity | lia].
Qed.

Lemma py_int_str (z : Z) :
  0 <= z -> DB.py_int (string_of_list_byte (str_encode (py_str_int z))) = Ok z.
Proof.
  intros Hz. unfold str_encode. rewrite string_of_list_byte_of_string.
  rewrite py_str_int_dec by exact Hz. exact (py_int_dec 0 z Hz).
Qed.

Lemma str_encode_int_nonempty (z : Z) : 0 <= z -> str_encode (py_str_int z) <> [].
Proof.
  intros Hz. rewrite py_str_int_dec by exact Hz.
  destruct (dec_cons z) as (c & s & -> & _). discriminate.
Qed.

(** ** Opening a directory *)

Lemma filter_all {A} (P : A -> Prop) `{!forall x, Decision (P x)} (l : list A) :
  Forall P l -> filter P l = l.
Proof.
  induction 1 as [|x l Hx Hl IH]; [reflexivity|].
  rewrite filter_cons_True by exact Hx. now rewrite IH.
Qed.

Lemma filter_none {A} (P : A -> Prop) `{!forall x, Decision (P x)} (l : list A) :
  Forall (fun x => ~ P x) l -> filter P l = [].
Proof.
  induction 1 as [|x l Hx Hl IH]; [reflexivity|].
  now rewrite filter_cons_False by exact Hx.
Qed.

Lemma dir_lookup_None (d : directory) (name : string) :
  ~ In name (map fst d) -> DB.dir_lookup d name = None.
Proof.
  induction d as [|[n c] d IH]; [reflexivity|]. cbn [map fst In DB.dir_lookup].
  intros H. destruct (String.eqb_spec n name) as [->|Hne]; [tauto|]. apply IH. tauto.
Qed.

Lemma dir_lookup_Some (d : directory) (name : string) (c : bytes) :
  In name (map fst d) -> (forall c', In (name, c') d -> c' = c) ->
  DB.dir_lookup d name = Some c.
Proof.
  induction d as [|[n c0] d IH]; cbn [map fst In DB.dir_lookup]; [tauto|].
  intros Hin Hc. destruct (String.eqb_spec n name) as [->|Hne].
  - f_equal. apply Hc. now left.
  - apply IH; [tauto|]. intros c' H. apply Hc. now right.
Qed.

Lemma Sorted_seqZ (m n : Z) : Sorted Z.le (seqZ m n).
Proof.
  destruct (Z_le_gt_dec n 0) as [Hn|Hn]; [rewrite seqZ_nil by lia; constructor|].
  replace n with (Z.of_nat (Z.to_nat n)) by lia.
  generalize (Z.to_nat n) as k. clear. intros k. revert m.
  induction k as [|k IH]; intros m; [constructor|].
  rewrite Nat2Z.inj_succ, seqZ_cons by lia.
  replace (Z.pred (Z.succ (Z.of_nat k))) with (Z.of_nat k) by lia.
  constructor; [apply IH|]. destruct k as [|k]; [constructor|].
  rewrite Nat2Z.inj_succ, seqZ_cons by lia. constructor. lia.
Qed.

Lemma sort_ids_seqZ (ids : list Z) (n : Z) :
  ids ≡ₚ seqZ 1 n -> DB.sort_ids ids = seqZ 1 n.
Proof.
  intros Hp. unfold DB.sort_ids.
  apply (Sorted_unique Z.le).
  - apply Sorted_merge_sort. apply _.
  - apply Sorted_seqZ.
  - now rewrite merge_sort_Permutation.
Qed.

Lemma parse_file_ids_paths (ids : list Z) :
  Forall (fun i => 0 <= i) ids ->
  DB.parse_file_ids (map DB.get_data_file_path ids) = Ok ids.
Proof.
  induction 1 as [|i ids Hi Hids IH]; cbn [map DB.parse_file_ids]; [reflexivity|].
  rewrite py_int_data_file_path by exact Hi. cbn [rbind]. now rewrite IH.
Qed.

Lemma all_but_last_seqZ (n : Z) : 1 <= n -> DB.all_but_last (seqZ 1 n) = seqZ 1 (n - 1).
Proof.
  intros Hn. replace n with ((n - 1) + 1) at 1 by lia. rewrite seqZ_snoc by lia.
  unfold DB.all_but_last. rewrite length_app. cbn [length].
  replace (length (seqZ 1 (n - 1)) + 1 - 1)%nat with (length (seqZ 1 (n - 1))) by lia.
  apply take_app_length.
Qed.

Lemma lookup_open_older (d : directory) (l : list Z) :
  forall (o : gmap Z DataFile.t) (i : Z),
    fold_left (fun o fid => <[fid := DB.open_data_file d fid]> o) l o !! i
    = if decide (i ∈ l) then Some (DB.open_data_file d i) else o !! i.
Proof.
  induction l as [|x l IH]; intros o i; cbn [fold_left].
  - destruct (decide (i ∈ [])) as [H|H]; [inversion H | reflexivity].
  - rewrite IH. destruct (decide (i ∈ l)) as [Hl|Hl].
    + rewrite decide_True by (now apply list_elem_of_further). reflexivity.
    + destruct (decide (i = x)) as [->|Hne].
      * rewrite decide_True by apply list_elem_of_here. now rewrite lookup_insert_eq.
      * rewrite decide_False by (rewrite elem_of_cons; tauto).
        now rewrite lookup_insert_ne by congruence.
Qed.

(** The scan of the data files leaves the files as they are. *)
Definition same_store (db db' : DB.t) : Prop :=
  same_files db db' /\ DB.is_closed db' = DB.is_closed db /\
  DB.options db' = DB.options db.

Lemma same_store_refl (db : DB.t) : same_store db db.
Proof. split; [apply same_files_refl | auto]. Qed.

Lemma same_store_trans (db1 db2 db3 : DB.t) :
  same_store db1 db2 -> same_store db2 db3 -> same_store db1 db3.
Proof.
  intros (A & A1 & A2) (B & B1 & B2).
  split; [eapply same_files_trans; eassumption | split; congruence].
Qed.

Lemma replay_record_same_store (fid off sz : Z) (r : LogRecord) (db : DB.t) :
  same_store db (DB.replay_record fid off sz r db).
Proof.
  unfold DB.replay_record. destruct (rtype r); try apply same_store_refl.
  - destruct (same_files_index_put (key r) (mkLogRecordPos fid off sz) db)
      as ((H1 & H2 & H3 & H4 & H5) & _ & H6 & H7).
    unfold same_store, same_files. cbn. auto 10.
  - destruct (same_files_index_delete (key r) db) as (H & _ & H6 & H7).
    split; auto.
Qed.

Lemma replay_loop_same_store (fid : Z) (f : DataFile.t) (fuel : nat) :
  forall (off : Z) (db db' : DB.t),
    DB.replay_loop fuel fid f off db = Some db' -> same_store db db'.
Proof.
  induction fuel as [|fuel IH]; intros off db db'; cbn [DB.replay_loop]; [discriminate|].
  destruct (DataFile.read_log_record f off) as [[r sz]|].
  - intros H. eapply same_store_trans; [apply replay_record_same_store | exact (IH _ _ _ H)].
  - intros [= <-]. apply same_store_refl.
Qed.

Lemma replay_file_same_store (fid : Z) (f : DataFile.t) (db : DB.t) :
  same_store db (DB.replay_file fid f db).
Proof.
  unfold DB.replay_file.
  destruct (DB.replay_loop _ fid f 0 db) as [db'|] eqn:E;
    [exact (replay_loop_same_store _ _ _ _ _ _ E) | apply same_store_refl].
Qed.

Lemma load_index_from_files_same_store (db : DB.t) :
  exists db', DB.load_index_from_files db = (Ok tt, db') /\ same_store db db'.
Proof.
  unfold DB.load_index_from_files. eexists. split; [reflexivity|].
  generalize (DB.file_ids db) as l. intros l. revert db.
  induction l as [|fid l IH]; intros db; cbn [fold_left]; [apply same_store_refl|].
  eapply same_store_trans; [|apply IH].
  destruct (decide (Some fid = last (DB.file_ids db)));
    [destruct (DB.active_file db) | destruct (DB.older_files db !! fid)];
    first [apply replay_file_same_store | apply same_store_refl].
Qed.

(** The record [_save_seq_no] writes. *)
Definition seq_record (z : Z) : LogRecord :=
  mkLogRecord (str_encode DB.SEQ_NO_KEY) (str_encode (py_str_int z)) NORMAL.

Lemma seq_record_encodable (z : Z) : seq_ok z -> encodable (seq_record z).
Proof. intros [_ Hz]. split; [vm_compute; reflexivity | exact Hz]. Qed.

Lemma layout_nonempty (r : LogRecord) : layout r <> [].
Proof.
  intros E. pose proof (len_layout r) as H. rewrite E in H.
  pose proof (len_nonneg (key r)). pose proof (len_nonneg (value r)).
  unfold HEADER_SIZE, len in *. cbn [length] in H. lia.
Qed.

Lemma load_seq_no_ok (db : DB.t) (z : Z) :
  seq_ok z ->
  DB.dir_lookup (DB.dir_rest db) DB.seq_no_path = Some (layout (seq_record z)) ->
  DB._load_seq_no db = Ok (Some z).
Proof.
  intros Hz E. unfold DB._load_seq_no. rewrite E.
  destruct (decide (layout (seq_record z) = [])) as [H|_];
    [now apply layout_nonempty in H|].
  rewrite (decode_layout _ (seq_record_encodable z Hz)). cbn [seq_record value].
  destruct (decide (str_encode (py_str_int z) = [])) as [H|_];
    [now apply str_encode_int_nonempty in H; [|apply Hz]|].
  rewrite py_int_str by apply Hz. reflexivity.
Qed.

(** Names that are not data files. *)
Lemma data_file_name_first (i : Z) (name : string) :
  0 <= i -> DB.get_data_file_path i = name ->
  match name with
  | String c _ => digit c
  | EmptyString => False
  end.
Proof.
  intros Hi <-. destruct (get_data_file_path_digits i Hi) as (c & s & -> & Hc & _).
  exact Hc.
Qed.

Lemma other_name_not_data (name : string) :
  other_name name -> ~ Is_true (DB.is_data_file_name name).
Proof. intros [-> | ->]; vm_compute; auto. Qed.

Lemma other_name_not_path (i : Z) : 0 <= i -> ~ other_name (DB.get_data_file_path i).
Proof.
  intros Hi H. apply other_name_not_data in H. apply H.
  rewrite is_data_file_name_path by exact Hi. exact I.
Qed.

(** A directory that holds the data files 1..n and, besides them, only
    the sequence-number file and the lock file. *)
Lemma listing_names (d : directory) (n : Z) (others : list string) :
  map fst d ≡ₚ map DB.get_data_file_path (seqZ 1 n) ++ others ->
  forall name, In name (map fst d) <->
    (exists i, 1 <= i <= n /\ name = DB.get_data_file_path i) \/ In name others.
Proof.
  intros Hp name. split.
  - intros H. apply (Permutation_in _ Hp) in H.
    apply in_app_or in H as [H|H]; [left | now right].
    apply in_map_iff in H as (i & <- & Hi).
    apply list_elem_of_In, elem_of_seqZ in Hi. exists i. split; [lia | reflexivity].
  - intros H. apply (Permutation_in _ (Permutation_sym Hp)). apply in_or_app.
    destruct H as [(i & Hi & ->)|H]; [left | now right].
    apply in_map. apply list_elem_of_In, elem_of_seqZ. lia.
Qed.

Lemma data_files_listed (d : directory) (n : Z) (others : list string) :
  map fst d ≡ₚ map DB.get_data_file_path (seqZ 1 n) ++ others ->
  Forall other_name others ->
  exists ids,
    filter DB.is_data_file_name (map fst d) = map DB.get_data_file_path ids /\
    ids ≡ₚ seqZ 1 n.
Proof.
  intros Hp Hoth.
  destruct (Permutation_map_inv DB.get_data_file_path
              (l1 := filter DB.is_data_file_name (map fst d)) (seqZ 1 n))
    as (ids & E & Hids).
  { rewrite Hp, filter_app. rewrite filter_all, filter_none, app_nil_r; [reflexivity | |].
    - apply Forall_forall. intros name H. apply other_name_not_data.
      revert name H. now apply Forall_forall.
    - apply Forall_forall. intros name H.
      apply list_elem_of_In, in_map_iff in H as (i & <- & Hi).
      apply list_elem_of_In, elem_of_seqZ in Hi.
      rewrite is_data_file_name_path by lia. exact I. }
  exists ids. split; [exact E | now symmetry].
Qed.

Lemma not_listed (d : directory) (n : Z) (others : list string) (name : string) :
  map fst d ≡ₚ map DB.get_data_file_path (seqZ 1 n) ++ others ->
  Forall other_name others ->
  match name with String c _ => ~ digit c | EmptyString => True end ->
  ~ other_name name ->
  ~ In name (map fst d).
Proof.
  intros Hp Hoth Hc Hno H. apply (listing_names d n others Hp) in H.
  destruct H as [(i & Hi & E)|H].
  - pose proof (data_file_name_first i name ltac:(lia) (eq_sym E)) as Hd.
    destruct name; [exact Hd | exact (Hc Hd)].
  - apply Hno. clear Hc Hno. revert name H. apply List.Forall_forall. exact Hoth.
Qed.

Definition open_older (d : directory) (n : Z) : gmap Z DataFile.t :=
  fold_left (fun o fid => <[fid := DB.open_data_file d fid]> o) (seqZ 1 (n - 1)) ∅.

Lemma lookup_open_older_seqZ (d : directory) (n i : Z) :
  open_older d n !! i = if decide (1 <= i < n) then Some (DB.open_data_file d i) else None.
Proof.
  unfold open_older. rewrite lookup_open_older, lookup_empty.
  destruct (decide (i ∈ seqZ 1 (n - 1))) as [H|H]; rewrite elem_of_seqZ in H;
    destruct (decide (1 <= i < n)); try reflexivity; lia.
Qed.

Lemma drop_open_files_wf (d : directory) (n : Z) (others : list string) (db : DB.t)
    (a : DataFile.t) (z : Z) :
  1 <= n ->
  map fst d ≡ₚ map DB.get_data_file_path (seqZ 1 n) ++ others ->
  Forall other_name others ->
  DB.file_ids db = seqZ 1 n -> DB.active_file db = Some a ->
  DataFile.file_id a = n -> DataFile.write_offset a = len (DataFile.io_manager a) ->
  DB.older_files db = open_older d n -> DB.seq_no db = Some z -> seq_ok z ->
  DB.dir_rest db = d ->
  wf (DB.drop_open_files db).
Proof.
  intros Hn Hp Hoth Hids Ha Hid Hwo Hold Hseq Hz Hd.
  exists n, a. unfold DB.drop_open_files.
  cbn [DB.file_ids DB.active_file DB.older_files DB.seq_no DB.dir_rest DB.set_dir_rest].
  split; [exact Hn|]. split; [exact Hids|]. split; [exact Ha|]. split; [exact Hid|].
  split; [exact Hwo|]. rewrite Hold, Hd.
  split; [|split; [|split; [eauto|]]].
  - intros i f. rewrite lookup_open_older_seqZ.
    destruct (decide (1 <= i < n)); [|discriminate]. intros [= <-]. now split.
  - intros i Hi. rewrite lookup_open_older_seqZ, decide_True by exact Hi. eauto.
  - apply Forall_forall. intros name H.
    apply list_elem_of_In, in_map_iff in H as (e & <- & He).
    apply list_elem_of_In, list_elem_of_filter in He as [HP He].
    assert (In (fst e) (map fst d)) as H by (apply in_map, list_elem_of_In; exact He).
    apply (listing_names d n others Hp) in H as [(i & Hi & E)|H].
    + exfalso. apply negb_prop_elim in HP. apply HP, bool_decide_pack.
      rewrite E. unfold DB.open_names. rewrite Ha, Hid, Hold.
      apply list_elem_of_In, in_map, in_or_app.
      destruct (decide (i = n)) as [->|Hne]; [right; now left | left].
      apply in_map_iff. exists (i, DB.open_data_file d i). split; [reflexivity|].
      apply list_elem_of_In, elem_of_map_to_list.
      rewrite lookup_open_older_seqZ, decide_True by lia. reflexivity.
    + revert H. generalize (fst e). apply List.Forall_forall. exact Hoth.
Qed.

(** Opening succeeds on such a directory, whatever the data files hold. *)
Lemma open_db_ok (host : byteorder) (opts : Options) (n : Z) (d : directory)
    (others : list string) :
  1 <= n ->
  map fst d ≡ₚ map DB.get_data_file_path (seqZ 1 n) ++ others ->
  Forall other_name others ->
  (is_btree (index_type opts) = true ->
   DB.dir_lookup d DB.seq_no_path = None \/
   exists z, seq_ok z /\ DB.dir_lookup d DB.seq_no_path = Some (layout (seq_record z))) ->
  exists db', DB.open_db host opts d = Ok db' /\ wf db' /\ DB.file_ids db' = seqZ 1 n /\
              DB.is_closed db' = false /\ DB.options db' = opts.
Proof.
  intros Hn Hp Hoth Hseq.
  destruct (data_files_listed d n others Hp Hoth) as (ids & Hfiles & Hids).
  assert (Forall (fun i => 0 <= i) ids) as Hpos.
  { apply Forall_forall. intros i Hi. rewrite Hids in Hi. apply elem_of_seqZ in Hi. lia. }
  set (db1 := DB.mk opts (Some (DB.open_data_file d n)) (open_older d n) Indexer.empty
                    (seqZ 1 n) false (Some 0) false 0 0 d).
  assert (DB.load_data_files
            (DB.mk opts None ∅ Indexer.empty [] false (Some 0) false 0 0 d)
          = (Ok tt, db1)) as E1.
  { unfold DB.load_data_files. cbn [DB.dir_rest].
    rewrite Hfiles, (parse_file_ids_paths ids Hpos), (sort_ids_seqZ ids n Hids).
    rewrite last_seqZ, all_but_last_seqZ by lia. reflexivity. }
  assert (DB._load_merge_files db1 = (Ok tt, db1)) as E2.
  { unfold DB._load_merge_files. change (DB.dir_rest db1) with d.
    rewrite dir_lookup_None; [reflexivity|].
    apply (not_listed d n others _ Hp Hoth); [now apply not_digit|].
    intros [E|E]; vm_compute in E; discriminate. }
  assert (DB._load_index_from_hint_file host db1 = (Ok tt, db1)) as E3.
  { unfold DB._load_index_from_hint_file. change (DB.dir_rest db1) with d.
    rewrite dir_lookup_None; [reflexivity|].
    apply (not_listed d n others _ Hp Hoth); [now apply not_digit|].
    intros [E|E]; vm_compute in E; discriminate. }
  destruct (load_index_from_files_same_store db1)
    as (db2 & E4 & (Hf1 & Hf2 & Hf3 & Hf4 & Hf5) & Hf6 & Hf7).
  change (DB.file_ids db1) with (seqZ 1 n) in Hf1.
  change (DB.active_file db1) with (Some (DB.open_data_file d n)) in Hf2.
  change (DB.older_files db1) with (open_older d n) in Hf3.
  change (DB.seq_no db1) with (Some 0) in Hf4.
  change (DB.dir_rest db1) with d in Hf5.
  change (DB.is_closed db1) with false in Hf6.
  change (DB.options db1) with opts in Hf7.
  unfold DB.open_db. cbv zeta. unfold mbind. rewrite E1. cbv beta iota.
  rewrite E2. cbv beta iota. rewrite E3. cbv beta iota. rewrite E4. cbv beta iota.
  destruct (is_btree (index_type opts)) eqn:Eb.
  - assert (exists z, seq_ok z /\ DB._load_seq_no db2 = Ok (Some z)) as (z & Hz & E5).
    { destruct (Hseq eq_refl) as [E|(z & Hz & E)].
      - exists 0. split; [split; [lia | vm_compute; reflexivity]|].
        unfold DB._load_seq_no. now rewrite Hf5, E.
      - exists z. split; [exact Hz|]. apply load_seq_no_ok; [exact Hz | now rewrite Hf5]. }
    rewrite E5. cbn [DB.active_file DB.set_seq_no]. rewrite Hf2.
    eexists. split; [reflexivity|].
    split; [|split; [exact Hf1|split]].
    + eapply (drop_open_files_wf d n others _ _ z Hn Hp Hoth); cbn; try reflexivity;
        solve [assumption | exact Hf1 | exact Hf3 | exact Hf5].
    + exact Hf6.
    + exact Hf7.
  - eexists. split; [reflexivity|].
    split; [|split; [exact Hf1|split]].
    + eapply (drop_open_files_wf d n others _ _ 0 Hn Hp Hoth); try eassumption;
        solve [reflexivity | split; [lia | vm_compute; reflexivity]].
    + exact Hf6.
    + exact Hf7.
Qed.

(** ** Closing and opening again *)

Lemma data_file_ids (db : DB.t) (n : Z) (a : DataFile.t) :
  1 <= n -> DB.active_file db = Some a -> DataFile.file_id a = n ->
  (forall i f, DB.older_files db !! i = Some f -> DataFile.file_id f = i /\ 1 <= i < n) ->
  (forall i, 1 <= i < n -> is_Some (DB.older_files db !! i)) ->
  map DataFile.file_id (DB.data_files db) ≡ₚ seqZ 1 n.
Proof.
  intros Hn Ha Hid Hold Hall.
  unfold DB.data_files. rewrite Ha, map_app, map_map. cbn [map]. rewrite Hid.
  assert (seqZ 1 n = seqZ 1 (n - 1) ++ [n]) as ->.
  { pose proof (seqZ_snoc (n - 1) ltac:(lia)) as E.
    now replace (n - 1 + 1) with n in E by lia. }
  apply Permutation_app_tail.
  rewrite (map_ext_in _ fst).
  2:{ intros [i f] H. apply list_elem_of_In, elem_of_map_to_list in H. cbn.
      now apply Hold. }
  apply NoDup_Permutation.
  - apply (NoDup_fst_map_to_list (DB.older_files db)).
  - apply NoDup_seqZ.
  - intros i. rewrite elem_of_seqZ. split.
    + intros H. apply list_elem_of_In, in_map_iff in H as ([j f] & <- & H).
      apply list_elem_of_In, elem_of_map_to_list in H. apply Hold in H. cbn. lia.
    + intros Hi. destruct (Hall i ltac:(lia)) as [f Hf].
      apply list_elem_of_In, in_map_iff. exists (i, f). split; [reflexivity|].
      apply list_elem_of_In. now apply elem_of_map_to_list.
Qed.

Lemma dir_of_names (db : DB.t) :
  map fst (DB.dir_of db)
  = map DB.get_data_file_path (map DataFile.file_id (DB.data_files db))
    ++ map fst (DB.dir_rest db).
Proof. unfold DB.dir_of. now rewrite map_app, !map_map. Qed.

Lemma dir_write_names (d : directory) (name : string) (c : bytes) :
  Forall other_name (map fst d) -> other_name name ->
  Forall other_name (map fst (DB.dir_write d name c)).
Proof.
  intros Hd Hname. unfold DB.dir_write, DB.dir_remove. rewrite map_app.
  apply Forall_app. split; [|cbn [map fst]; constructor; [exact Hname | constructor]].
  apply Forall_forall. intros x H.
  apply list_elem_of_In, in_map_iff in H as (e & <- & He).
  apply list_elem_of_In, list_elem_of_filter in He as [_ He].
  assert (fst e ∈ map fst d) as H by (apply list_elem_of_In, in_map, list_elem_of_In, He).
  revert H. generalize (fst e). now apply Forall_forall.
Qed.

(** [close] leaves a directory that [open_db_ok] accepts, in whatever
    order the names are listed. *)
Lemma close_dir (after : directory -> directory) (db : DB.t) :
  (forall d, after d ≡ₚ d) -> wf db -> DB.is_closed db = false ->
  exists dbc n others,
    DB.close db = (Ok tt, dbc) /\ DB.options dbc = DB.options db /\
    1 <= n /\ DB.file_ids db = seqZ 1 n /\
    map fst (after (DB.dir_of dbc)) ≡ₚ map DB.get_data_file_path (seqZ 1 n) ++ others /\
    Forall other_name others /\
    (is_btree (index_type (DB.options db)) = true ->
     exists z, seq_ok z /\
       DB.dir_lookup (after (DB.dir_of dbc)) DB.seq_no_path
       = Some (layout (seq_record z))).
Proof.
  intros Hafter (n & a & Hn & Hids & Ha & Hid & _ & Hold & Hall & (z & Hseq & Hz) & Hrest)
         Hopen.
  pose proof (data_file_ids db n a Hn Ha Hid Hold Hall) as Hperm.
  unfold DB.close. rewrite Hopen.
  destruct (is_btree (index_type (DB.options db))) eqn:Eb.
  - unfold DB._save_seq_no. rewrite Hseq. cbv zeta.
    change (mkLogRecord (str_encode DB.SEQ_NO_KEY) (str_encode (py_str_int z)) NORMAL)
      with (seq_record z).
    rewrite (encode_layout _ (seq_record_encodable z Hz)). cbn [rbind fst].
    set (c := layout (seq_record z)).
    set (dbc := DB.set_is_closed true
                  (DB.set_dir_rest (DB.dir_write (DB.dir_rest db) DB.seq_no_path c) db)).
    assert (DB.dir_of dbc
            = map (fun f => (DB.get_data_file_path (DataFile.file_id f),
                             DataFile.io_manager f)) (DB.data_files db)
              ++ DB.dir_write (DB.dir_rest db) DB.seq_no_path c) as Hdir by reflexivity.
    exists dbc, n, (map fst (DB.dir_write (DB.dir_rest db) DB.seq_no_path c)).
    split; [reflexivity|]. split; [reflexivity|]. split; [exact Hn|]. split; [exact Hids|].
    split; [|split].
    + rewrite (Permutation_map fst (Hafter _)), dir_of_names.
      apply Permutation_app; [apply Permutation_map; exact Hperm | reflexivity].
    + apply dir_write_names; [exact Hrest | now left].
    + intros _. exists z. split; [exact Hz|]. apply dir_lookup_Some.
      * apply (Permutation_in _ (Permutation_sym (Permutation_map fst (Hafter _)))).
        rewrite Hdir, map_app. apply in_or_app. right.
        unfold DB.dir_write. rewrite map_app. apply in_or_app. right. now left.
      * intros c' H. apply (Permutation_in _ (Hafter _)) in H. rewrite Hdir in H.
        apply in_app_or in H as [H|H].
        -- exfalso. apply in_map_iff in H as (f & [= E _] & Hf).
           assert (In (DataFile.file_id f) (seqZ 1 n)) as Hi
             by (apply (Permutation_in _ Hperm), in_map, Hf).
           apply list_elem_of_In, elem_of_seqZ in Hi.
           apply (other_name_not_path (DataFile.file_id f)); [lia|]. left. exact E.
        -- unfold DB.dir_write, DB.dir_remove in H. apply in_app_or in H as [H|H].
           ++ exfalso. apply list_elem_of_In, list_elem_of_filter in H as [H _].
              cbn [fst] in H. rewrite String.eqb_refl in H. exact H.
           ++ destruct H as [[= <-]|[]]. reflexivity.
  - exists (DB.set_is_closed true db), n, (map fst (DB.dir_rest db)).
    split; [reflexivity|]. split; [reflexivity|]. split; [exact Hn|]. split; [exact Hids|].
    split; [|split; [exact Hrest | discriminate]].
    rewrite (Permutation_map fst (Hafter _)), dir_of_names.
    apply Permutation_app; [apply Permutation_map; exact Hperm | reflexivity].
Qed.

Lemma reopen_wf (host : byteorder) (after : directory -> directory) (db : DB.t) :
  (forall d, after d ≡ₚ d) -> wf db -> DB.is_closed db = false ->
  exists db', reopen host after (Ok db) = Ok db' /\ wf db' /\
              DB.file_ids db' = DB.file_ids db /\ DB.is_closed db' = false /\
              DB.options db' = DB.options db.
Proof.
  intros Hafter Hwf Hopen.
  destruct (close_dir after db Hafter Hwf Hopen)
    as (dbc & n & others & Ec & Eo & Hn & Hids & Hp & Hoth & Hseq).
  unfold reopen, step. rewrite Ec, Eo.
  destruct (open_db_ok host (DB.options db) n (after (DB.dir_of dbc)) others Hn Hp Hoth)
    as (db' & E & Hwf' & Hids' & Hc' & Ho').
  { intros Hb. right. exact (Hseq Hb). }
  exists db'. rewrite Hids. auto.
Qed.

(** No call closes the database. *)
Lemma append_is_closed (rec : LogRecord) (db : DB.t) :
  DB.is_closed (snd (DB._append_log_record rec db)) = DB.is_closed db.
Proof.
  unfold DB._append_log_record, DB.rollover.
  destruct (DB.needs_new_file db); [destruct (DB.active_file db)|];
    cbn [DB.active_file DB.set_file_ids DB.set_active_file DB.set_older_files];
    try destruct (DB.active_file db);
    try destruct (DataFile.write_log_record _ rec) as [[a' [off sz]]|e]; reflexivity.
Qed.

Lemma put_is_closed (k v : bytes) (db : DB.t) :
  DB.is_closed (snd (DB.put k v db)) = DB.is_closed db.
Proof.
  unfold DB.put. destruct (DB.is_closed db) eqn:Ec; [exact Ec|].
  destruct (decide (k = [])); [exact Ec|].
  pose proof (append_is_closed (mkLogRecord k v NORMAL) db) as H.
  unfold mbind, mmodify.
  destruct (DB._append_log_record (mkLogRecord k v NORMAL) db) as [[pos|e] d];
    cbn [snd] in H |- *; [|congruence].
  rewrite <- Ec, <- H.
  unfold DB.sync_policy, DB.index_put_reclaim, Indexer.put.
  destruct (DB.index d !! k); cbn; destruct (_ || _); reflexivity.
Qed.

Lemma delete_is_closed (k : bytes) (db : DB.t) :
  DB.is_closed (snd (DB.delete k db)) = DB.is_closed db.
Proof.
  unfold DB.delete. destruct (DB.is_closed db) eqn:Ec; [exact Ec|].
  destruct (decide (k = [])); [exact Ec|].
  destruct (Indexer.get (DB.index db) k); [|exact Ec].
  pose proof (append_is_closed (mkLogRecord k [] DELETED) db) as H.
  unfold mbind, mmodify.
  destruct (DB._append_log_record (mkLogRecord k [] DELETED) db) as [[pos|e] d];
    cbn [snd] in H |- *; [|congruence].
  rewrite <- Ec, <- H.
  unfold DB.sync_policy, DB.index_delete_reclaim, Indexer.delete.
  destruct (DB.index d !! k); cbn; destruct (_ || _); reflexivity.
Qed.

Lemma append_writes_is_closed (ws : list (bytes * option bytes)) :
  forall (acc : list (bytes * (LogRecordPos * bool))) (db : DB.t),
    DB.is_closed (snd (Batch.append_writes ws acc db)) = DB.is_closed db.
Proof.
  induction ws as [|[k w] ws IH]; intros acc db; cbn [Batch.append_writes];
    [reflexivity|].
  pose proof (append_is_closed (Batch.record_of k w) db) as H. unfold mbind.
  destruct (DB._append_log_record (Batch.record_of k w) db) as [[pos|e] d];
    cbn [snd] in H; [now rewrite IH | exact H].
Qed.

Lemma apply_positions_is_closed (ps : list (bytes * (LogRecordPos * bool))) :
  forall db : DB.t, DB.is_closed (Batch.apply_positions ps db) = DB.is_closed db.
Proof.
  induction ps as [|[k [pos b]] ps IH]; intros db; cbn [Batch.apply_positions];
    [reflexivity|].
  rewrite IH. destruct b;
    [apply same_files_index_put | apply same_files_index_delete].
Qed.

Lemma commit_try_is_closed (txn : Z) (ws : list (bytes * option bytes)) (db : DB.t) :
  DB.is_closed (snd (Batch.commit_try txn ws db)) = DB.is_closed db.
Proof.
  unfold Batch.commit_try, mbind, mmodify, mret.
  destruct (0 <? txn).
  - pose proof (append_is_closed (Batch.marker txn TXNSTART) db) as H1.
    destruct (DB._append_log_record (Batch.marker txn TXNSTART) db) as [[p|e] d];
      cbn [snd] in H1; [|exact H1].
    pose proof (append_writes_is_closed ws [] d) as H2.
    destruct (Batch.append_writes ws [] d) as [[ps|e] d1]; cbn [snd] in H2 |- *;
      [|congruence].
    pose proof (append_is_closed (Batch.marker txn TXNFINISHED) d1) as H3.
    destruct (DB._append_log_record (Batch.marker txn TXNFINISHED) d1) as [[p2|e] d2];
      cbn [snd] in H3 |- *; [|congruence].
    rewrite apply_positions_is_closed. cbn. congruence.
  - pose proof (append_writes_is_closed ws [] db) as H2.
    destruct (Batch.append_writes ws [] db) as [[ps|e] d1]; cbn [snd] in H2 |- *;
      [|exact H2].
    now rewrite apply_positions_is_closed.
Qed.

Lemma commit_is_closed (b : Batch.t) (db : DB.t) :
  DB.is_closed (snd (Batch.commit b db)) = DB.is_closed db.
Proof.
  unfold Batch.commit.
  destruct (Batch.is_committed b); [reflexivity|].
  destruct (Batch.writes b) as [|w ws]; [reflexivity|].
  destruct (DB.seq_no db) as [s|]; [|reflexivity].
  set (txn := if is_btree (DB.index_type_of db) then s + 1 else s).
  pose proof (commit_try_is_closed txn (w :: ws) db) as H.
  destruct (Batch.commit_try txn (w :: ws) db) as [[u|e] d]; cbn [snd] in H |- *;
    [exact H|].
  destruct (0 <? txn); [|exact H].
  now rewrite append_is_closed.
Qed.

(** The databases a program can hold: opened on a new directory, then
    written through [put], [delete] and [Batch.commit], whatever the
    outcome of each call, and closed and opened again, whatever the
    order in which the directory is listed. *)
Inductive reachable (host : byteorder) : DB.t -> Prop :=
| reach_open (opts : Options) (db : DB.t) :
    DB.open_db host opts [] = Ok db -> reachable host db
| reach_put (k v : bytes) (db : DB.t) :
    reachable host db -> reachable host (snd (DB.put k v db))
| reach_delete (k : bytes) (db : DB.t) :
    reachable host db -> reachable host (snd (DB.delete k db))
| reach_commit (b : Batch.t) (db : DB.t) :
    reachable host db -> reachable host (snd (Batch.commit b db))
| reach_reopen (after : directory -> directory) (db db' : DB.t) :
    reachable host db -> (forall d, after d ≡ₚ d) ->
    reopen host after (Ok db) = Ok db' -> reachable host db'.

Lemma reachable_wf (host : byteorder) (db : DB.t) :
  reachable host db -> wf db /\ DB.is_closed db = false.
Proof.
  induction 1 as [opts db E|k v db _ [IH Hc]|k db _ [IH Hc]|b db _ [IH Hc]
                  |after db db' _ [IH Hc] Hafter E].
  - rewrite open_db_empty in E. injection E as <-. split; [apply new_db_wf | reflexivity].
  - split; [now apply put_wf | now rewrite put_is_closed].
  - split; [now apply delete_wf | now rewrite delete_is_closed].
  - split; [now apply commit_wf | now rewrite commit_is_closed].
  - destruct (reopen_wf host after db Hafter IH Hc) as (db'' & E' & Hwf & _ & Hc' & _).
    rewrite E in E'. injection E' as <-. now split.
Qed.

(** C8: in every database that is reached from a new directory through
    [put], [delete], [Batch.commit] and closing and opening again, the
    segment ids are 1, 2, ..., n for some n >= 1, n is their maximum and
    the id of the active segment; an append that rolls over adds exactly
    the id max + 1 and makes that segment the active one, an append that
    does not leaves the ids and the active id alone; and closing and
    opening again succeeds and gives the same ids. *)
Theorem C8_segment_ids (host : byteorder) (db : DB.t) :
  reachable host db ->
  segment_ids_ok db /\
  (forall rec : LogRecord,
     let db' := snd (DB._append_log_record rec db) in
     if DB.needs_new_file db
     then DB.file_ids db' = DB.file_ids db ++ [max_id (DB.file_ids db) + 1] /\
          exists a, DB.active_file db' = Some a /\
                    DataFile.file_id a = max_id (DB.file_ids db) + 1
     else DB.file_ids db' = DB.file_ids db /\
          exists a, DB.active_file db' = Some a /\
                    DataFile.file_id a = max_id (DB.file_ids db)) /\
  (forall after : directory -> directory,
     (forall d, after d ≡ₚ d) ->
     exists db', reopen host after (Ok db) = Ok db' /\ segment_ids_ok db' /\
                 DB.file_ids db' = DB.file_ids db).
Proof.
  intros Hr. destruct (reachable_wf host db Hr) as [Hwf Hc].
  split; [now apply wf_segment_ids_ok|]. split.
  - intros rec. now apply append_segment_ids.
  - intros after Hafter.
    destruct (reopen_wf host after db Hafter Hwf Hc) as (db' & E & Hwf' & Hids & _).
    exists db'. split; [exact E|]. split; [now apply wf_segment_ids_ok | exact Hids].
Qed.

Lemma C8_segment_ids_witness :
  let opts := mkOptions 30 false 0 BTREE false in
  let db := snd (DB.put [x62] [x32] (snd (DB.put [x61] (replicate 20 x31) (new_db opts)))) in
  segment_ids_ok db /\
  (forall rec : LogRecord,
     let db' := snd (DB._append_log_record rec db) in
     if DB.needs_new_file db
     then DB.file_ids db' = DB.file_ids db ++ [max_id (DB.file_ids db) + 1] /\
          exists a, DB.active_file db' = Some a /\
                    DataFile.file_id a = max_id (DB.file_ids db) + 1
     else DB.file_ids db' = DB.file_ids db /\
          exists a, DB.active_file db' = Some a /\
                    DataFile.file_id a = max_id (DB.file_ids db)) /\
  (forall after : directory -> directory,
     (forall d, after d ≡ₚ d) ->
     exists db', reopen LittleEndian after (Ok db) = Ok db' /\ segment_ids_ok db' /\
                 DB.file_ids db' = DB.file_ids db).
Proof.
  intros opts db. apply (C8_segment_ids LittleEndian db).
  apply reach_put, reach_put, (reach_open LittleEndian opts).
  vm_compute. reflexivity.
Defined.

(** Three segments, written with [max_file_size = 30], are found again
    and put in order when the directory, which lists them unordered, is
    read backwards. *)
Example segment_ids_example :
  let opts := mkOptions 30 false 0 BTREE false in
  let db := step (DB.put [x63] [x33])
              (step (DB.put [x62] (replicate 20 x32))
                 (step (DB.put [x61] (replicate 20 x31))
                    (DB.open_db LittleEndian opts []))) in
  match db, reopen LittleEndian (@rev _) db with
  | Ok db, Ok db' =>
      DB.file_ids db = [1; 2; 3] /\ DB.file_ids db' = [1; 2; 3] /\
      option_map DataFile.file_id (DB.active_file db') = Some 3 /\
      map (fun i => option_map DataFile.file_id (DB.older_files db' !! i)) [1; 2; 3]
      = [Some 1; Some 2; None]
  | _, _ => False
  end /\
  map fst (dir_on db)
  = ["000000002.data"; "000000001.data"; "000000003.data"]%string.
Proof. vm_compute. repeat split; reflexivity. Qed.

(* ================================================================== *)
(** * Part III: further properties                                     *)
(* ================================================================== *)

(** ** Recovery: what the scan of the data files rebuilds *)

(** The bytes of a data file that holds the records [rs], one after the
    other. *)
Definition segment_bytes (rs : list LogRecord) : bytes := flat_map layout rs.

(** What one turn of the scan does to the index. *)
Definition index_step (fid off : Z) (r : LogRecord) (idx : gmap bytes LogRecordPos)
    : gmap bytes LogRecordPos :=
  match rtype r with
  | NORMAL => <[key r := mkLogRecordPos fid off (len (layout r))]> idx
  | DELETED => base.delete (key r) idx
  | _ => idx
  end.

Fixpoint index_of_segment (fid off : Z) (rs : list LogRecord)
    (idx : gmap bytes LogRecordPos) : gmap bytes LogRecordPos :=
  match rs with
  | [] => idx
  | r :: rs' => index_of_segment fid (off + len (layout r)) rs' (index_step fid off r idx)
  end.

Definition index_of_segments (ids : list Z) (segs : Z -> list LogRecord)
    (idx : gmap bytes LogRecordPos) : gmap bytes LogRecordPos :=
  fold_left (fun idx fid => index_of_segment fid 0 (segs fid) idx) ids idx.

(** The data files of [db] hold the records [segs fid], all of them
    records that [read_log_record] reads. *)
Definition segments (db : DB.t) (segs : Z -> list LogRecord) : Prop :=
  forall fid, In fid (DB.file_ids db) ->
    file_bytes db fid = segment_bytes (segs fid) /\ Forall readable (segs fid).

(** ... and the index is the one a scan of them builds. *)
Definition logged (db : DB.t) (segs : Z -> list LogRecord) : Prop :=
  segments db segs /\ DB.index db = index_of_segments (DB.file_ids db) segs ∅.

(** The part of [wf] that is about the data files. *)
Definition wf_files (db : DB.t) : Prop :=
  exists (n : Z) (a : DataFile.t),
    1 <= n /\ DB.file_ids db = seqZ 1 n /\ DB.active_file db = Some a /\
    DataFile.file_id a = n /\
    (forall i f, DB.older_files db !! i = Some f -> DataFile.file_id f = i /\ 1 <= i < n) /\
    (forall i, 1 <= i < n -> is_Some (DB.older_files db !! i)).

Lemma wf_wf_files (db : DB.t) : wf db -> wf_files db.
Proof.
  intros (n & a & Hn & Hids & Ha & Hid & _ & Hold & Hall & _). exists n, a. auto 10.
Qed.

Lemma read_eof (f : DataFile.t) (off : Z) :
  len (DataFile.io_manager f) <= off -> DataFile.read_log_record f off = None.
Proof.
  intros H. unfold DataFile.read_log_record, DataFile.read_log_record_body. cbv zeta.
  unfold FileIOManager.size. destruct (_ <=? off) eqn:E; [reflexivity | zbool; lia].
Qed.

Lemma replay_record_index (fid off : Z) (r : LogRecord) (db : DB.t) :
  DB.index (DB.replay_record fid off (len (layout r)) r db)
  = index_step fid off r (DB.index db).
Proof.
  unfold DB.replay_record, index_step. destruct (rtype r); try reflexivity.
  - cbn [DB.index DB.set_bytes_write]. apply same_files_index_put.
  - apply same_files_index_delete.
Qed.

Lemma replay_loop_segment (fid : Z) (f : DataFile.t) (rs : list LogRecord) :
  forall (fuel : nat) (pre : bytes) (off : Z) (db : DB.t),
    DataFile.io_manager f = pre ++ segment_bytes rs -> off = len pre ->
    Forall readable rs -> (length rs < fuel)%nat ->
    exists db', DB.replay_loop fuel fid f off db = Some db' /\ same_store db db' /\
                DB.index db' = index_of_segment fid off rs (DB.index db).
Proof.
  induction rs as [|r rs IH]; intros fuel pre off db Hio Hoff Hrs Hfuel.
  - destruct fuel as [|fuel]; [cbn in Hfuel; lia|]. cbn [DB.replay_loop].
    rewrite read_eof; [exists db; split; [reflexivity|]; split;
                       [apply same_store_refl | reflexivity]|].
    rewrite Hio, Hoff. cbn. rewrite app_nil_r. lia.
  - destruct fuel as [|fuel]; [cbn in Hfuel; lia|]. cbn [DB.replay_loop].
    apply Forall_cons in Hrs as [Hr Hrs]. cbn [segment_bytes flat_map] in Hio.
    rewrite (read_layout f pre (flat_map layout rs) r off Hio Hoff Hr).
    rewrite <- len_layout.
    destruct (IH fuel (pre ++ layout r) (off + len (layout r))
                (DB.replay_record fid off (len (layout r)) r db))
      as (db' & E & Hst & Hidx).
    + now rewrite <- app_assoc.
    + rewrite len_app. lia.
    + exact Hrs.
    + cbn [length] in Hfuel. lia.
    + exists db'. split; [exact E|]. split.
      * eapply same_store_trans; [apply replay_record_same_store | exact Hst].
      * rewrite Hidx, replay_record_index. reflexivity.
Qed.

Lemma length_segment_bytes (rs : list LogRecord) :
  (length rs <= length (segment_bytes rs))%nat.
Proof.
  induction rs as [|r rs IH]; cbn [segment_bytes flat_map length]; [lia|].
  rewrite length_app. pose proof (len_layout r) as H.
  pose proof (len_nonneg (key r)). pose proof (len_nonneg (value r)).
  unfold len, HEADER_SIZE in *. unfold segment_bytes in IH. lia.
Qed.

Lemma replay_file_segment (fid : Z) (f : DataFile.t) (rs : list LogRecord) (db : DB.t) :
  DataFile.io_manager f = segment_bytes rs -> Forall readable rs ->
  same_store db (DB.replay_file fid f db) /\
  DB.index (DB.replay_file fid f db) = index_of_segment fid 0 rs (DB.index db).
Proof.
  intros Hio Hrs. unfold DB.replay_file.
  destruct (replay_loop_segment fid f rs (S (length (DataFile.io_manager f))) [] 0 db)
    as (db' & E & Hst & Hidx); [exact Hio | reflexivity | exact Hrs | |].
  - rewrite Hio. pose proof (length_segment_bytes rs). lia.
  - rewrite E. auto.
Qed.

Lemma wf_files_file_of (db : DB.t) (fid : Z) :
  wf_files db -> In fid (DB.file_ids db) -> is_Some (file_of db fid).
Proof.
  intros (n & a & Hn & Hids & Ha & Hid & Hold & Hall) Hin.
  rewrite Hids in Hin. apply list_elem_of_In, elem_of_seqZ in Hin.
  unfold file_of. rewrite Ha, Hid. destruct (fid =? n) eqn:E; [eauto|].
  apply Hall. zbool. lia.
Qed.

(** The file the scan picks for an id is the file of that id. *)
Lemma scan_file_of (db : DB.t) (fid : Z) :
  wf_files db -> In fid (DB.file_ids db) ->
  (if decide (Some fid = last (DB.file_ids db)) then DB.active_file db
   else DB.older_files db !! fid) = file_of db fid.
Proof.
  intros (n & a & Hn & Hids & Ha & Hid & Hold & Hall) Hin.
  unfold file_of. rewrite Ha, Hid, Hids, last_seqZ by lia.
  destruct (decide (Some fid = Some n)) as [E|E].
  - injection E as ->. now rewrite Z.eqb_refl.
  - destruct (fid =? n) eqn:E2; [zbool; congruence | reflexivity].
Qed.

Lemma load_index_segments (db : DB.t) (segs : Z -> list LogRecord) :
  wf_files db -> segments db segs ->
  exists db', DB.load_index_from_files db = (Ok tt, db') /\ same_store db db' /\
              DB.index db' = index_of_segments (DB.file_ids db) segs (DB.index db).
Proof.
  intros Hwf Hsegs. unfold DB.load_index_from_files. eexists. split; [reflexivity|].
  unfold index_of_segments.
  assert (forall l db',
             (forall fid, In fid l -> In fid (DB.file_ids db)) -> same_store db db' ->
             let F := fun (db : DB.t) fid =>
                        match (if decide (Some fid = last (DB.file_ids db))
                               then DB.active_file db else DB.older_files db !! fid) with
                        | Some f => DB.replay_file fid f db
                        | None => db
                        end in
             same_store db (fold_left F l db') /\
             DB.index (fold_left F l db')
             = fold_left (fun idx fid => index_of_segment fid 0 (segs fid) idx) l
                 (DB.index db')) as H.
  { induction l as [|fid l IH]; intros db' Hl Hst F; cbn [fold_left]; [now split|].
    assert (In fid (DB.file_ids db)) as Hin by (apply Hl; now left).
    assert (F db' fid = DB.replay_file fid
                          (default (DataFile.init 0 []) (file_of db fid)) db'
            /\ is_Some (file_of db fid)) as [HF [f Hf]].
    { destruct Hst as ((H1 & H2 & H3 & _) & _). subst F. cbv beta.
      rewrite H1, H2, H3, (scan_file_of db fid Hwf Hin).
      destruct (wf_files_file_of db fid Hwf Hin) as [f Hf]. rewrite Hf. eauto. }
    rewrite HF, Hf. cbn [default].
    destruct (Hsegs fid Hin) as [Hb Hr]. unfold file_bytes in Hb. rewrite Hf in Hb.
    destruct (replay_file_segment fid f (segs fid) db' Hb Hr) as [Hst' Hi'].
    destruct (IH (DB.replay_file fid f db')) as [A B].
    - intros x Hx. apply Hl. now right.
    - eapply same_store_trans; eassumption.
    - split; [exact A|]. etransitivity; [exact B|]. now rewrite Hi'. }
  apply (H (DB.file_ids db) db); [auto | apply same_store_refl].
Qed.

(** *** [put] and [delete] keep the index in step with the files *)

Lemma fold_left_ext_in {A B} (f g : A -> B -> A) (l : list B) (a : A) :
  (forall x b, In x l -> f b x = g b x) -> fold_left f l a = fold_left g l a.
Proof.
  revert a. induction l as [|x l IH]; intros a H; cbn [fold_left]; [reflexivity|].
  rewrite (H x a) by now left. apply IH. intros y b Hy. apply H. now right.
Qed.

Lemma segment_bytes_snoc (rs : list LogRecord) (r : LogRecord) :
  segment_bytes (rs ++ [r]) = segment_bytes rs ++ layout r.
Proof. unfold segment_bytes. rewrite flat_map_app. cbn. now rewrite app_nil_r. Qed.

Lemma index_of_segment_snoc (fid : Z) (rs : list LogRecord) (r : LogRecord) :
  forall (off : Z) (idx : gmap bytes LogRecordPos),
    index_of_segment fid off (rs ++ [r]) idx
    = index_step fid (off + len (segment_bytes rs)) r (index_of_segment fid off rs idx).
Proof.
  induction rs as [|r0 rs IH]; intros off idx; cbn [app index_of_segment].
  - cbn. now rewrite Z.add_0_r.
  - rewrite IH. cbn [segment_bytes flat_map]. rewrite len_app. f_equal. unfold segment_bytes. lia.
Qed.

Lemma segments_same_files (db db' : DB.t) (segs : Z -> list LogRecord) :
  same_files db db' -> segments db segs -> segments db' segs.
Proof.
  intros (H1 & H2 & H3 & _) Hs fid Hin. rewrite H1 in Hin.
  destruct (Hs fid Hin) as [Hb Hr]. split; [|exact Hr].
  unfold file_bytes, file_of in *. now rewrite H2, H3.
Qed.

Lemma rollover_segments (db : DB.t) (segs : Z -> list LogRecord) :
  wf db -> segments db segs ->
  let segs1 := fun fid => if fid =? max_id (DB.file_ids db) + 1 then [] else segs fid in
  segments (DB.rollover db) segs1 /\
  index_of_segments (DB.file_ids (DB.rollover db)) segs1 ∅
  = index_of_segments (DB.file_ids db) segs ∅.
Proof.
  intros Hwf Hs segs1.
  destruct (rollover_active db Hwf) as (n & Hids & Hn & Hact & Hids').
  assert (max_id (DB.file_ids db) = n) as Hmax by (rewrite Hids; apply max_id_seqZ; lia).
  assert (forall fid, In fid (DB.file_ids db) -> segs1 fid = segs fid) as Hsame.
  { intros fid Hin. subst segs1. cbv beta. rewrite Hmax.
    rewrite Hids in Hin. apply list_elem_of_In, elem_of_seqZ in Hin.
    destruct (fid =? n + 1) eqn:E; [zbool; lia | reflexivity]. }
  split.
  - intros fid Hin. rewrite Hids' in Hin. apply in_app_or in Hin as [Hin|[<-|[]]].
    + rewrite (Hsame fid Hin). destruct (Hs fid Hin) as [Hb Hr]. split; [|exact Hr].
      rewrite <- Hb. unfold file_bytes.
      destruct (wf_file_of db fid Hwf Hin) as [f Hf].
      now rewrite Hf, (rollover_file_of db fid f Hwf Hf).
    + subst segs1. cbv beta. rewrite Z.eqb_refl. split; [|constructor].
      unfold file_bytes, file_of. rewrite Hact, Hmax. cbn. now rewrite Z.eqb_refl.
  - unfold index_of_segments. rewrite Hids', fold_left_app. cbn [fold_left].
    subst segs1. cbv beta. rewrite Z.eqb_refl. cbn [index_of_segment].
    apply fold_left_ext_in. intros fid idx Hin.
    specialize (Hsame fid Hin). cbv beta in Hsame. now rewrite Hsame.
Qed.

Lemma write_segments (db : DB.t) (a : DataFile.t) (r : LogRecord) (wo : Z)
    (segs : Z -> list LogRecord) :
  wf db -> DB.active_file db = Some a -> segments db segs -> readable r ->
  let db' := DB.set_active_file
               (Some (DataFile.mk (DataFile.file_id a) (DataFile.io_manager a ++ layout r) wo))
               db in
  let segs' := fun fid => if fid =? DataFile.file_id a then segs fid ++ [r] else segs fid in
  segments db' segs' /\
  index_of_segments (DB.file_ids db') segs' ∅
  = index_step (DataFile.file_id a) (len (DataFile.io_manager a)) r
      (index_of_segments (DB.file_ids db) segs ∅).
Proof.
  intros (n & a0 & Hn & Hids & Ha & Hid & Hwo & Hold & Hall & _) Ha' Hs Hr db' segs'.
  rewrite Ha in Ha'. injection Ha' as ->.
  assert (In n (DB.file_ids db)) as Hin_n
    by (rewrite Hids; apply list_elem_of_In, elem_of_seqZ; lia).
  assert (file_bytes db n = DataFile.io_manager a) as Hbn.
  { unfold file_bytes, file_of. now rewrite Ha, Hid, Z.eqb_refl. }
  split.
  - intros fid Hin. change (DB.file_ids db') with (DB.file_ids db) in Hin.
    destruct (Hs fid Hin) as [Hb Hrs]. subst segs'. cbv beta. rewrite Hid.
    destruct (fid =? n) eqn:E; zbool.
    + subst fid. split; [|apply Forall_app; split; [exact Hrs | now constructor]].
      rewrite segment_bytes_snoc, <- Hb, Hbn.
      unfold file_bytes, file_of, db'. cbn. now rewrite Hid, Z.eqb_refl.
    + split; [|exact Hrs]. rewrite <- Hb.
      unfold file_bytes, file_of, db'. rewrite Ha. cbn. rewrite Hid.
      destruct (fid =? n) eqn:E2; [zbool; lia | reflexivity].
  - change (DB.file_ids db') with (DB.file_ids db). unfold index_of_segments.
    rewrite Hids.
    assert (seqZ 1 n = seqZ 1 (n - 1) ++ [n]) as ->.
    { pose proof (seqZ_snoc (n - 1) ltac:(lia)) as E.
      now replace (n - 1 + 1) with n in E by lia. }
    rewrite !fold_left_app. cbn [fold_left]. subst segs'. cbv beta.
    rewrite Hid, Z.eqb_refl, index_of_segment_snoc.
    destruct (Hs n Hin_n) as [Hb _]. rewrite <- Hb, Hbn. cbn [Z.add].
    f_equal. f_equal. apply fold_left_ext_in. intros fid idx Hin.
    apply list_elem_of_In, elem_of_seqZ in Hin.
    destruct (fid =? n) eqn:E; [zbool; lia | reflexivity].
Qed.

Lemma append_logged (r : LogRecord) (db : DB.t) (segs : Z -> list LogRecord) :
  wf db -> segments db segs -> readable r ->
  exists pos db' segs',
    DB._append_log_record r db = (Ok pos, db') /\ segments db' segs' /\
    index_of_segments (DB.file_ids db') segs' ∅
    = index_step (file_id pos) (offset pos) r
        (index_of_segments (DB.file_ids db) segs ∅) /\
    size pos = len (layout r).
Proof.
  intros Hwf Hs Hr. unfold DB._append_log_record.
  set (db1 := if DB.needs_new_file db then DB.rollover db else db).
  assert (wf db1 /\ exists segs1,
            segments db1 segs1 /\
            index_of_segments (DB.file_ids db1) segs1 ∅
            = index_of_segments (DB.file_ids db) segs ∅) as (Hwf1 & segs1 & Hs1 & Hi1).
  { subst db1. destruct (DB.needs_new_file db).
    - split; [now apply rollover_wf|]. eexists. now apply rollover_segments.
    - split; [exact Hwf|]. exists segs. now split. }
  clearbody db1. pose proof Hwf1 as (n & a & Hn & Hids & Ha & Hid & Hwo & _).
  rewrite Ha, (write_log_record_ok a r (readable_encodable r Hr)).
  destruct (write_segments db1 a r
              (DataFile.write_offset a + (HEADER_SIZE + len (key r) + len (value r)))
              segs1 Hwf1 Ha Hs1 Hr) as [Hs' Hi'].
  eexists _, _, _. split; [reflexivity|]. split; [exact Hs'|].
  cbn [file_id offset size DataFile.file_id]. split.
  - rewrite Hi', Hi1, Hwo. reflexivity.
  - now rewrite len_layout.
Qed.

Lemma put_logged (db : DB.t) (segs : Z -> list LogRecord) (k v : bytes) :
  wf db -> logged db segs -> DB.is_closed db = false ->
  k <> [] -> len k + len v <= DataFile.MAX_RECORD_BODY ->
  exists segs', logged (snd (DB.put k v db)) segs'.
Proof.
  intros Hwf [Hs Hi] Hopen Hk Hcap. unfold DB.put. rewrite Hopen.
  destruct (decide (k = [])) as [|_]; [contradiction|].
  assert (readable (mkLogRecord k v NORMAL)) as Hr by (unfold readable; cbn; auto).
  destruct (append_logged _ db segs Hwf Hs Hr) as (pos & db1 & segs' & E & Hs' & Hi' & Hsz).
  destruct (append_spec (mkLogRecord k v NORMAL) db Hwf)
    as (res & db1' & E' & _ & (Hidx & _) & _).
  rewrite E in E'. injection E' as <- <-.
  unfold mbind, mmodify. rewrite E. cbn [snd]. exists segs'. split.
  - eapply segments_same_files; [apply same_files_put_tail | exact Hs'].
  - destruct (same_files_put_tail k pos (len k + len v) db1) as (-> & _).
    rewrite Hi'. unfold index_step. cbn [rtype key]. rewrite <- Hi, <- Hidx, <- Hsz.
    destruct pos as [pf po ps]. cbn [file_id offset size].
    unfold DB.sync_policy, DB.index_put_reclaim, Indexer.put.
    destruct (DB.index db1 !! k); cbn; destruct (_ || _); reflexivity.
Qed.

Lemma delete_logged (db : DB.t) (segs : Z -> list LogRecord) (k : bytes) :
  wf db -> logged db segs -> DB.is_closed db = false -> k <> [] ->
  (is_Some (DB.index db !! k) -> len k <= DataFile.MAX_RECORD_BODY) ->
  exists segs', logged (snd (DB.delete k db)) segs'.
Proof.
  intros Hwf [Hs Hi] Hopen Hk Hcap. unfold DB.delete. rewrite Hopen.
  destruct (decide (k = [])) as [|_]; [contradiction|].
  destruct (Indexer.get (DB.index db) k) as [old|] eqn:Hold;
    [|exists segs; now split].
  assert (readable (mkLogRecord k [] DELETED)) as Hr.
  { unfold readable. cbn [rtype key value readable_type].
    split; [reflexivity|]. split; [exact Hk|].
    unfold Indexer.get in Hold. specialize (Hcap (mk_is_Some _ _ Hold)).
    change (len (@nil byte)) with 0. lia. }
  destruct (append_logged _ db segs Hwf Hs Hr) as (pos & db1 & segs' & E & Hs' & Hi' & Hsz).
  destruct (append_spec (mkLogRecord k [] DELETED) db Hwf)
    as (res & db1' & E' & _ & (Hidx & _) & _).
  rewrite E in E'. injection E' as <- <-.
  unfold mbind, mmodify. rewrite E. cbn [snd]. exists segs'. split.
  - eapply segments_same_files; [apply same_files_delete_tail | exact Hs'].
  - destruct (same_files_delete_tail k (len k) db1) as (-> & _).
    rewrite Hi'. unfold index_step. cbn [rtype key]. rewrite <- Hi, <- Hidx.
    unfold DB.sync_policy, DB.index_delete_reclaim, Indexer.delete.
    destruct (DB.index db1 !! k); cbn; destruct (_ || _); reflexivity.
Qed.

(** *** Closing and opening again keeps the files and rebuilds the index *)

Lemma close_files (db : DB.t) :
  wf db ->
  DB.active_file (snd (DB.close db)) = DB.active_file db /\
  DB.older_files (snd (DB.close db)) = DB.older_files db /\
  Forall other_name (map fst (DB.dir_rest (snd (DB.close db)))).
Proof.
  intros (n & a & _ & _ & _ & _ & _ & _ & _ & _ & Hrest). unfold DB.close.
  destruct (DB.is_closed db); [cbn; auto|].
  destruct (is_btree (index_type (DB.options db))); [|cbn; auto].
  unfold DB._save_seq_no. cbv zeta.
  destruct (LogRecord_.encode _) as [[buf sz]|err]; cbn; [|auto].
  split; [reflexivity|]. split; [reflexivity|].
  apply dir_write_names; [exact Hrest | now left].
Qed.

Lemma file_of_data_files (db : DB.t) (i : Z) (f : DataFile.t) :
  wf db -> file_of db i = Some f ->
  In f (DB.data_files db) /\ DataFile.file_id f = i /\ 1 <= i.
Proof.
  intros (n & a & Hn & Hids & Ha & Hid & _ & Hold & _) Hf.
  unfold file_of in Hf. unfold DB.data_files. rewrite Ha in *. rewrite Hid in Hf.
  destruct (i =? n) eqn:E; zbool.
  - injection Hf as <-. split; [apply in_or_app; right; now left | lia].
  - destruct (Hold i f Hf) as [H1 H2]. split; [|lia].
    apply in_or_app. left. apply in_map_iff. exists (i, f). split; [reflexivity|].
    apply list_elem_of_In. now apply elem_of_map_to_list.
Qed.

Lemma data_files_file_of (db : DB.t) (f : DataFile.t) :
  wf db -> In f (DB.data_files db) ->
  file_of db (DataFile.file_id f) = Some f /\ 1 <= DataFile.file_id f.
Proof.
  intros (n & a & Hn & Hids & Ha & Hid & _ & Hold & _) Hf.
  unfold file_of. unfold DB.data_files in Hf. rewrite Ha in *. rewrite Hid.
  apply in_app_or in Hf as [Hf|[<-|[]]].
  - apply in_map_iff in Hf as ([i f'] & E & Hin). cbn in E. subst f'.
    apply list_elem_of_In, elem_of_map_to_list in Hin.
    destruct (Hold i f Hin) as [Hi Hr]. rewrite Hi.
    destruct (i =? n) eqn:E; [zbool; lia|]. split; [exact Hin | lia].
  - rewrite Hid, Z.eqb_refl. split; [reflexivity | lia].
Qed.

(** The directory [close] leaves holds each data file under its name. *)
Lemma dir_lookup_data_file (after : directory -> directory) (db : DB.t) (i : Z)
    (f : DataFile.t) :
  (forall d, after d ≡ₚ d) -> wf db -> file_of db i = Some f ->
  DB.dir_lookup (after (DB.dir_of (snd (DB.close db)))) (DB.get_data_file_path i)
  = Some (DataFile.io_manager f).
Proof.
  intros Hafter Hwf Hf.
  destruct (close_files db Hwf) as (Ha & Ho & Hrest).
  destruct (file_of_data_files db i f Hwf Hf) as (Hin & Hid & Hi).
  assert (DB.dir_of (snd (DB.close db))
          = map (fun f => (DB.get_data_file_path (DataFile.file_id f),
                           DataFile.io_manager f)) (DB.data_files db)
            ++ DB.dir_rest (snd (DB.close db))) as Hdir.
  { unfold DB.dir_of, DB.data_files. now rewrite Ha, Ho. }
  apply dir_lookup_Some.
  - apply (Permutation_in _ (Permutation_sym (Permutation_map fst (Hafter _)))).
    rewrite Hdir, map_app. apply in_or_app. left. rewrite map_map. cbn [fst].
    apply in_map_iff. exists f. now rewrite Hid.
  - intros c' H. apply (Permutation_in _ (Hafter _)) in H. rewrite Hdir in H.
    apply in_app_or in H as [H|H].
    + apply in_map_iff in H as (f' & [= E <-] & Hf').
      destruct (data_files_file_of db f' Hwf Hf') as [Hf'' Hi'].
      apply get_data_file_path_inj in E; [|lia|lia]. rewrite E in Hf''. congruence.
    + exfalso. apply (other_name_not_path i); [lia|].
      assert (In (DB.get_data_file_path i) (map fst (DB.dir_rest (snd (DB.close db)))))
        as Hn by (apply in_map_iff; exists (DB.get_data_file_path i, c'); auto).
      revert Hn. generalize (DB.get_data_file_path i). apply List.Forall_forall. exact Hrest.
Qed.

(** The database [__init__] has built when the scan of the data files
    begins, on a directory that holds the data files 1..n. *)
Definition scan_start (opts : Options) (n : Z) (d : directory) : DB.t :=
  DB.mk opts (Some (DB.open_data_file d n)) (open_older d n) Indexer.empty
        (seqZ 1 n) false (Some 0) false 0 0 d.

Lemma scan_start_file_of (opts : Options) (n : Z) (d : directory) (i : Z) :
  1 <= i <= n -> file_of (scan_start opts n d) i = Some (DB.open_data_file d i).
Proof.
  intros Hi. unfold file_of, scan_start. cbn.
  destruct (i =? n) eqn:E; zbool; [now subst|].
  rewrite lookup_open_older_seqZ, decide_True by lia. reflexivity.
Qed.

Lemma scan_start_wf_files (opts : Options) (n : Z) (d : directory) :
  1 <= n -> wf_files (scan_start opts n d).
Proof.
  intros Hn. exists n, (DB.open_data_file d n). cbn.
  split; [exact Hn|]. split; [reflexivity|]. split; [reflexivity|]. split; [reflexivity|].
  split.
  - intros i f. rewrite lookup_open_older_seqZ.
    destruct (decide (1 <= i < n)); [|discriminate]. intros [= <-]. now split.
  - intros i Hi. rewrite lookup_open_older_seqZ, decide_True by exact Hi. eauto.
Qed.

Lemma open_db_index (host : byteorder) (opts : Options) (n : Z) (d : directory)
    (others : list string) :
  1 <= n ->
  map fst d ≡ₚ map DB.get_data_file_path (seqZ 1 n) ++ others ->
  Forall other_name others ->
  (is_btree (index_type opts) = true ->
   DB.dir_lookup d DB.seq_no_path = None \/
   exists z, seq_ok z /\ DB.dir_lookup d DB.seq_no_path = Some (layout (seq_record z))) ->
  exists db' db2,
    DB.open_db host opts d = Ok db' /\
    DB.load_index_from_files (scan_start opts n d) = (Ok tt, db2) /\
    DB.index db' = DB.index db2 /\
    (forall i, 1 <= i <= n -> file_of db' i = Some (DB.open_data_file d i)) /\
    DB.dir_rest db2 = d /\
    (if is_btree (index_type opts) then DB._load_seq_no db2 = Ok (DB.seq_no db')
     else DB.seq_no db' = Some 0).
Proof.
  intros Hn Hp Hoth Hseq.
  destruct (data_files_listed d n others Hp Hoth) as (ids & Hfiles & Hids).
  assert (Forall (fun i => 0 <= i) ids) as Hpos.
  { apply Forall_forall. intros i Hi. rewrite Hids in Hi. apply elem_of_seqZ in Hi. lia. }
  set (db1 := scan_start opts n d).
  assert (DB.load_data_files
            (DB.mk opts None ∅ Indexer.empty [] false (Some 0) false 0 0 d)
          = (Ok tt, db1)) as E1.
  { unfold DB.load_data_files. cbn [DB.dir_rest].
    rewrite Hfiles, (parse_file_ids_paths ids Hpos), (sort_ids_seqZ ids n Hids).
    rewrite last_seqZ, all_but_last_seqZ by lia. reflexivity. }
  assert (DB._load_merge_files db1 = (Ok tt, db1)) as E2.
  { unfold DB._load_merge_files. change (DB.dir_rest db1) with d.
    rewrite dir_lookup_None; [reflexivity|].
    apply (not_listed d n others _ Hp Hoth); [now apply not_digit|].
    intros [E|E]; vm_compute in E; discriminate. }
  assert (DB._load_index_from_hint_file host db1 = (Ok tt, db1)) as E3.
  { unfold DB._load_index_from_hint_file. change (DB.dir_rest db1) with d.
    rewrite dir_lookup_None; [reflexivity|].
    apply (not_listed d n others _ Hp Hoth); [now apply not_digit|].
    intros [E|E]; vm_compute in E; discriminate. }
  destruct (load_index_from_files_same_store db1)
    as (db2 & E4 & (Hf1 & Hf2 & Hf3 & Hf4 & Hf5) & Hf6 & Hf7).
  change (DB.active_file db1) with (Some (DB.open_data_file d n)) in Hf2.
  change (DB.older_files db1) with (open_older d n) in Hf3.
  change (DB.dir_rest db1) with d in Hf5.
  assert (forall db3 : DB.t,
             DB.active_file db3 = Some (DB.open_data_file d n) ->
             DB.older_files db3 = open_older d n ->
             forall i, 1 <= i <= n ->
                       file_of (DB.drop_open_files db3) i = Some (DB.open_data_file d i))
    as Hfiles3.
  { intros db3 Ha Ho i Hi. unfold file_of, DB.drop_open_files. cbn. rewrite Ha, Ho. cbn.
    destruct (i =? n) eqn:E; zbool; [now subst|].
    rewrite lookup_open_older_seqZ, decide_True by lia. reflexivity. }
  unfold DB.open_db. cbv zeta. unfold mbind. rewrite E1. cbv beta iota.
  rewrite E2. cbv beta iota. rewrite E3. cbv beta iota. rewrite E4. cbv beta iota.
  destruct (is_btree (index_type opts)) eqn:Eb.
  - assert (exists z, DB._load_seq_no db2 = Ok (Some z)) as (z & E5).
    { destruct (Hseq eq_refl) as [E|(z & Hz & E)].
      - exists 0. unfold DB._load_seq_no. now rewrite Hf5, E.
      - exists z. apply load_seq_no_ok; [exact Hz | now rewrite Hf5]. }
    rewrite E5. cbn [DB.active_file DB.set_seq_no]. rewrite Hf2.
    eexists _, db2. split; [reflexivity|]. split; [reflexivity|]. split; [reflexivity|].
    split; [apply Hfiles3; [reflexivity | exact Hf3]|]. split; [exact Hf5 | exact E5].
  - eexists _, db2. split; [reflexivity|]. split; [reflexivity|]. split; [reflexivity|].
    split; [apply Hfiles3; assumption|]. split; [exact Hf5 | exact Hf4].
Qed.

Lemma holds_files (db db' : DB.t) :
  (forall i f, file_of db i = Some f ->
               exists f', file_of db' i = Some f' /\
                          DataFile.io_manager f' = DataFile.io_manager f) ->
  forall fid off r, holds db fid off r -> holds db' fid off r.
Proof.
  intros H fid off r (f & pre & post & Hf & Hio & Hoff).
  destruct (H fid f Hf) as (f' & Hf' & E). exists f', pre, post. rewrite E. auto.
Qed.

Lemma reopen_logged (host : byteorder) (after : directory -> directory) (db : DB.t)
    (segs : Z -> list LogRecord) (m : gmap bytes bytes) :
  (forall d, after d ≡ₚ d) -> wf db -> DB.is_closed db = false ->
  logged db segs -> rep db m ->
  exists db', reopen host after (Ok db) = Ok db' /\ wf db' /\ DB.is_closed db' = false /\
              logged db' segs /\ rep db' m.
Proof.
  intros Hafter Hwf Hopen [Hs Hi] Hrep.
  destruct (close_dir after db Hafter Hwf Hopen)
    as (dbc & n & others & Ec & Eo & Hn & Hids & Hp & Hoth & Hseq).
  assert (dbc = snd (DB.close db)) as Hdbc by now rewrite Ec.
  set (d := after (DB.dir_of dbc)) in *.
  assert (is_btree (index_type (DB.options db)) = true ->
          DB.dir_lookup d DB.seq_no_path = None \/
          exists z, seq_ok z /\
                    DB.dir_lookup d DB.seq_no_path = Some (layout (seq_record z))) as Hseq'
      by (intros Hb; right; exact (Hseq Hb)).
  destruct (open_db_ok host (DB.options db) n d others Hn Hp Hoth Hseq')
    as (db' & E & Hwf' & Hids' & Hc' & _).
  destruct (open_db_index host (DB.options db) n d others Hn Hp Hoth Hseq')
    as (db'' & db2 & E' & E2 & Hidx & Hfiles & _).
  rewrite E in E'. injection E' as <-.
  assert (forall i f, file_of db i = Some f ->
                      1 <= i <= n /\
                      DataFile.io_manager (DB.open_data_file d i) = DataFile.io_manager f)
    as Hsame.
  { intros i f Hf. split.
    - pose proof Hwf as (n' & a & Hn' & Hids0 & Ha & Hid & _ & Hold & _).
      assert (n' = n) as ->.
      { rewrite Hids0 in Hids. apply (f_equal (@length Z)) in Hids.
        rewrite !length_seqZ in Hids. lia. }
      unfold file_of in Hf. rewrite Ha, Hid in Hf.
      destruct (i =? n) eqn:Ei; zbool; [lia|]. destruct (Hold i f Hf). lia.
    - unfold DB.open_data_file, d. rewrite Hdbc.
      rewrite (dir_lookup_data_file after db i f Hafter Hwf Hf). reflexivity. }
  assert (forall i f, file_of db i = Some f ->
                      exists f', file_of db' i = Some f' /\
                                 DataFile.io_manager f' = DataFile.io_manager f) as Hf'.
  { intros i f Hf. destruct (Hsame i f Hf) as [Hi' Hio].
    exists (DB.open_data_file d i). split; [now apply Hfiles | exact Hio]. }
  assert (segments (scan_start (DB.options db) n d) segs) as Hs1.
  { intros fid Hin. change (DB.file_ids (scan_start (DB.options db) n d)) with (seqZ 1 n) in Hin.
    rewrite <- Hids in Hin. destruct (Hs fid Hin) as [Hb Hr]. split; [|exact Hr].
    rewrite <- Hb. unfold file_bytes.
    destruct (wf_file_of db fid Hwf Hin) as [f Hf]. rewrite Hf.
    destruct (Hsame fid f Hf) as [Hr' Hio].
    now rewrite (scan_start_file_of _ n d fid Hr'). }
  destruct (load_index_segments _ segs (scan_start_wf_files (DB.options db) n d Hn) Hs1)
    as (db2' & E2' & _ & Hidx2).
  rewrite E2 in E2'. injection E2' as <-.
  assert (DB.index db' = DB.index db) as Hidx'.
  { rewrite Hidx, Hidx2, Hi, Hids. reflexivity. }
  exists db'. split; [unfold reopen, step; now rewrite Ec, Eo|].
  split; [exact Hwf'|]. split; [exact Hc'|]. split; [split|].
  - intros fid Hin. rewrite Hids', <- Hids in Hin. destruct (Hs fid Hin) as [Hb Hr].
    split; [|exact Hr]. rewrite <- Hb. unfold file_bytes.
    destruct (wf_file_of db fid Hwf Hin) as [f Hf]. rewrite Hf.
    destruct (Hf' fid f Hf) as (f' & -> & Hio). exact Hio.
  - now rewrite Hidx', Hi, Hids', Hids.
  - apply (rep_stable db db' m Hrep Hidx'). now apply holds_files.
Qed.

(** *** What [put] and [delete] stored is there after a restart *)

(** The databases that store the map [m]: opened on a new directory,
    written through [put], with keys and values that [read_log_record]
    accepts, and [delete], and closed and opened again, whatever the
    order in which the directory is listed. *)
Inductive stores (host : byteorder) : DB.t -> gmap bytes bytes -> Prop :=
| stores_open (opts : Options) (db : DB.t) :
    DB.open_db host opts [] = Ok db -> stores host db ∅
| stores_put (k v : bytes) (db : DB.t) (m : gmap bytes bytes) :
    stores host db m -> k <> [] -> len k + len v <= DataFile.MAX_RECORD_BODY ->
    stores host (snd (DB.put k v db)) (<[k := v]> m)
| stores_delete (k : bytes) (db : DB.t) (m : gmap bytes bytes) :
    stores host db m -> k <> [] ->
    stores host (snd (DB.delete k db)) (base.delete k m)
| stores_reopen (after : directory -> directory) (db db' : DB.t) (m : gmap bytes bytes) :
    stores host db m -> (forall d, after d ≡ₚ d) ->
    reopen host after (Ok db) = Ok db' -> stores host db' m.

Definition durable (db : DB.t) (m : gmap bytes bytes) : Prop :=
  wf db /\ DB.is_closed db = false /\ rep db m /\ (exists segs, logged db segs) /\
  forall k v, m !! k = Some v -> len k + len v <= DataFile.MAX_RECORD_BODY.

Lemma new_db_logged (opts : Options) : logged (new_db opts) (fun _ => []).
Proof.
  split; [|reflexivity]. intros fid [<-|[]]. split; [reflexivity | constructor].
Qed.

Lemma stores_durable (host : byteorder) (db : DB.t) (m : gmap bytes bytes) :
  stores host db m -> durable db m.
Proof.
  induction 1 as [opts db E|k v db m _ IH Hk Hcap|k db m _ IH Hk
                  |after db db' m _ IH Hafter E].
  - rewrite open_db_empty in E. injection E as <-.
    split; [apply new_db_wf|]. split; [reflexivity|]. split; [apply new_db_rep|].
    split; [eexists; apply new_db_logged|]. intros k v. now rewrite lookup_empty.
  - destruct IH as (Hwf & Hopen & Hrep & (segs & Hlog) & Hsmall).
    destruct (put_spec db m k v Hwf Hrep Hopen Hk) as (res & db1 & Hput & Hwf1 & Hc1 & _ & Hres).
    destruct (put_logged db segs k v Hwf Hlog Hopen Hk Hcap) as (segs' & Hlog').
    rewrite Hput in *. cbn [snd] in *.
    destruct res as [[]|e];
      [|destruct Hres as [Hne _]; exfalso; apply Hne; now apply small_encodable].
    destruct Hres as [_ Hrep1].
    split; [exact Hwf1|]. split; [exact Hc1|]. split; [exact Hrep1|].
    split; [eauto|]. intros k' v'. destruct (decide (k' = k)) as [->|Hne].
    + rewrite lookup_insert_eq. now intros [= <-].
    + rewrite lookup_insert_ne by congruence. apply Hsmall.
  - destruct IH as (Hwf & Hopen & Hrep & (segs & Hlog) & Hsmall).
    destruct (delete_spec db m k Hwf Hrep Hopen Hk) as (db1 & Hdel & Hwf1 & Hc1 & _ & Hrep1).
    destruct (delete_logged db segs k Hwf Hlog Hopen Hk) as (segs' & Hlog').
    { intros [pos Hpos]. specialize (Hrep k). rewrite Hpos in Hrep.
      destruct Hrep as (v & Hm & _). specialize (Hsmall k v Hm).
      pose proof (len_nonneg v). lia. }
    rewrite Hdel in *. cbn [snd] in *.
    split; [exact Hwf1|]. split; [exact Hc1|]. split; [exact Hrep1|].
    split; [eauto|]. intros k' v'. destruct (decide (k' = k)) as [->|Hne].
    + now rewrite lookup_delete_eq.
    + rewrite lookup_delete_ne by congruence. apply Hsmall.
  - destruct IH as (Hwf & Hopen & Hrep & (segs & Hlog) & Hsmall).
    destruct (reopen_logged host after db segs m Hafter Hwf Hopen Hlog Hrep)
      as (db'' & E' & Hwf' & Hc' & Hlog' & Hrep').
    rewrite E in E'. injection E' as <-.
    split; [exact Hwf'|]. split; [exact Hc'|]. split; [exact Hrep'|].
    split; [eauto | exact Hsmall].
Qed.

Lemma durable_get (db : DB.t) (m : gmap bytes bytes) (k : bytes) :
  durable db m -> k <> [] -> DB.get db k = Ok (m !! k).
Proof.
  intros (Hwf & Hopen & Hrep & _ & Hsmall) Hk.
  rewrite (get_spec db m k Hrep Hopen Hk).
  destruct (m !! k) as [v|] eqn:E; [|reflexivity]. cbn [capped].
  specialize (Hsmall k v E). destruct (_ <=? _) eqn:E2; [reflexivity | zbool; lia].
Qed.

(** X1: what [put] and [delete] stored is read back by [get], and still
    after the database is closed and opened again: the scan of the data
    files rebuilds the index.  Opening again always succeeds. *)
Theorem put_delete_durable (host : byteorder) (db : DB.t) (m : gmap bytes bytes) :
  stores host db m ->
  (forall k, k <> [] -> DB.get db k = Ok (m !! k)) /\
  (forall after : directory -> directory,
     (forall d, after d ≡ₚ d) ->
     exists db', reopen host after (Ok db) = Ok db' /\
                 forall k, k <> [] -> DB.get db' k = Ok (m !! k)).
Proof.
  intros Hst. pose proof (stores_durable host db m Hst) as Hd. split.
  - intros k Hk. now apply durable_get.
  - intros after Hafter. destruct Hd as (Hwf & Hopen & Hrep & (segs & Hlog) & Hsmall).
    destruct (reopen_logged host after db segs m Hafter Hwf Hopen Hlog Hrep)
      as (db' & E & _).
    exists db'. split; [exact E|]. intros k Hk.
    apply durable_get; [|exact Hk].
    apply (stores_durable host). now apply (stores_reopen host after db db' m).
Qed.

Lemma put_delete_durable_witness :
  let opts := mkOptions 30 false 0 BTREE false in
  let db := snd (DB.delete [x62]
              (snd (DB.put [x62] [x32]
                 (snd (DB.put [x61] (replicate 20 x31) (new_db opts)))))) in
  let m : gmap bytes bytes :=
    base.delete [x62] (<[[x62] := [x32]]> (<[[x61] := replicate 20 x31]> ∅)) in
  (forall k, k <> [] -> DB.get db k = Ok (m !! k)) /\
  (forall after : directory -> directory,
     (forall d, after d ≡ₚ d) ->
     exists db', reopen LittleEndian after (Ok db) = Ok db' /\
                 forall k, k <> [] -> DB.get db' k = Ok (m !! k)).
Proof.
  intros opts db m. apply (put_delete_durable LittleEndian db m).
  apply stores_delete; [|discriminate].
  apply stores_put; [|discriminate | vm_compute; discriminate].
  apply stores_put; [|discriminate | vm_compute; discriminate].
  apply (stores_open LittleEndian opts). vm_compute. reflexivity.
Defined.

(** The same on an instance, run: three segments, a restart, and the
    values are there. *)
Example restart_example :
  let opts := mkOptions 30 false 0 BTREE false in
  let db := step (DB.delete [x62])
              (step (DB.put [x63] [x33])
                 (step (DB.put [x62] (replicate 20 x32))
                    (step (DB.put [x61] (replicate 20 x31))
                       (DB.open_db LittleEndian opts [])))) in
  let db' := reopen LittleEndian (@rev _) db in
  get_on db' [x61] = Ok (Some (replicate 20 x31)) /\
  get_on db' [x62] = Ok None /\
  get_on db' [x63] = Ok (Some [x33]).
Proof. vm_compute. repeat split; reflexivity. Qed.

(** ** Codecs and raw file access *)

Lemma le_bytes_le_value (bs : bytes) : le_bytes (length bs) (le_value bs) = bs.
Proof.
  induction bs as [|b bs IH]; [reflexivity|]. cbn [length le_bytes le_value].
  pose proof (byte_val_range b) as Hb.
  rewrite (Z.mul_comm 256), Z_mod_plus_full, Z.mod_small by lia.
  rewrite Z_div_plus_full, Z.div_small, Z.add_0_l by lia.
  now rewrite byte_of_val, IH.
Qed.

Lemma uint_bytes_value (o : byteorder) (bs : bytes) :
  uint_bytes o (length bs) (uint_value o bs) = bs.
Proof.
  destruct o; cbn [uint_bytes uint_value]; [apply le_bytes_le_value|].
  unfold be_bytes, be_value. rewrite <- (length_rev bs), le_bytes_le_value.
  apply rev_involutive.
Qed.

Lemma le_value_range (bs : bytes) : 0 <= le_value bs < 256 ^ Z.of_nat (length bs).
Proof.
  induction bs as [|b bs IH]; cbn [length le_value]; [cbn; lia|].
  pose proof (byte_val_range b) as Hb.
  rewrite Nat2Z.inj_succ, Z.pow_succ_r by lia. lia.
Qed.

Lemma uint_value_range (o : byteorder) (bs : bytes) :
  0 <= uint_value o bs < 256 ^ Z.of_nat (length bs).
Proof.
  destruct o; cbn [uint_value]; [apply le_value_range|].
  unfold be_value. rewrite <- (length_rev bs). apply le_value_range.
Qed.

Lemma type_of_value_inv (v : Z) (ty : LogRecordType) :
  type_of_value v = Ok ty -> v = type_value ty.
Proof.
  destruct v as [|p|p]; try discriminate.
  repeat (match goal with q : positive |- _ => destruct q end; try discriminate);
    cbn; intros [= <-]; reflexivity.
Qed.

Lemma type_of_value_type_value (ty : LogRecordType) : type_of_value (type_value ty) = Ok ty.
Proof. now destruct ty. Qed.

Lemma uint_bytes_1 (o : byteorder) (z : Z) : uint_bytes o 1 z = [byte_of (z mod 256)].
Proof. now destruct o. Qed.

Lemma uint_value_1 (o : byteorder) (b : byte) : uint_value o [b] = byte_val b.
Proof. destruct o; cbn; lia. Qed.

(** X2: a transaction record with a 32-bit id is packed into five
    bytes, the id in the byte order of the host and then the type, and
    [decode] is the inverse of [encode]: it returns the record from
    these bytes and from no others. *)
Theorem transaction_record_codec (host : byteorder) (r : TransactionRecord_.t) :
  0 <= TransactionRecord_.txn_id r < 2 ^ 32 ->
  exists buf : bytes,
    TransactionRecord_.encode host r = Ok buf /\
    buf = uint_bytes host 4 (TransactionRecord_.txn_id r)
            ++ [byte_of (type_value (TransactionRecord_.type r))] /\
    TransactionRecord_.decode host buf = Ok r /\
    forall data, TransactionRecord_.decode host data = Ok r -> data = buf.
Proof.
  intros Hid. destruct r as [id ty]. cbn [TransactionRecord_.txn_id TransactionRecord_.type] in *.
  pose proof (type_value_range ty) as Hty.
  exists (uint_bytes host 4 id ++ [byte_of (type_value ty)]).
  split; [|split; [reflexivity|split]].
  - unfold TransactionRecord_.encode. cbn [TransactionRecord_.txn_id TransactionRecord_.type].
    rewrite !pack_uint_ok by (cbn; lia). cbn [rbind].
    now rewrite uint_bytes_1, Z.mod_small by lia.
  - unfold TransactionRecord_.decode.
    rewrite length_app, length_uint_bytes. cbn [length Nat.add Nat.eqb].
    rewrite (slice_mid_eq _ (uint_bytes host 4 id) [byte_of (type_value ty)] [] 4 5);
      [|now rewrite app_nil_r | list_len | list_len].
    rewrite uint_value_1, byte_val_of, type_of_value_type_value by lia.
    rewrite (slice_mid_eq _ [] (uint_bytes host 4 id) [byte_of (type_value ty)] 0 4);
      [|reflexivity | reflexivity | list_len].
    now rewrite uint_value_bytes by (cbn; lia).
  - intros data. unfold TransactionRecord_.decode.
    destruct (length data =? 5)%nat eqn:El; [|discriminate].
    apply Nat.eqb_eq in El.
    destruct data as [|b0 [|b1 [|b2 [|b3 [|b4 [|]]]]]]; try discriminate. clear El.
    change (slice 4 5 [b0; b1; b2; b3; b4]) with [b4].
    change (slice 0 4 [b0; b1; b2; b3; b4]) with [b0; b1; b2; b3].
    rewrite uint_value_1.
    destruct (type_of_value (byte_val b4)) as [ty'|] eqn:Et; [|discriminate].
    intros [= Hv ->]. apply type_of_value_inv in Et.
    rewrite <- Hv, <- Et, byte_of_val.
    pose proof (uint_bytes_value host [b0; b1; b2; b3]) as H. cbn [length] in H.
    now rewrite H.
Qed.

Lemma transaction_record_codec_witness :
  let r := TransactionRecord_.mk 7 TXNFINISHED in
  exists buf : bytes,
    TransactionRecord_.encode LittleEndian r = Ok buf /\
    buf = uint_bytes LittleEndian 4 (TransactionRecord_.txn_id r)
            ++ [byte_of (type_value (TransactionRecord_.type r))] /\
    TransactionRecord_.decode LittleEndian buf = Ok r /\
    forall data, TransactionRecord_.decode LittleEndian data = Ok r -> data = buf.
Proof.
  intros r. apply (transaction_record_codec LittleEndian r). cbn. lia.
Defined.

(** ** What [read_log_record] returns *)

Lemma be_bytes_be_value_4 (b0 b1 b2 b3 : byte) :
  be_bytes 4 (be_value [b0; b1; b2; b3]) = [b0; b1; b2; b3].
Proof. exact (uint_bytes_value BigEndian [b0; b1; b2; b3]). Qed.

Lemma be_value_range_4 (b0 b1 b2 b3 : byte) : 0 <= be_value [b0; b1; b2; b3] < 2 ^ 32.
Proof. exact (uint_value_range BigEndian [b0; b1; b2; b3]). Qed.

Lemma file_read_from (data : bytes) (off n : Z) :
  0 <= off -> 0 <= n -> off + n <= len data ->
  FileIOManager.read data (bytearray n) off
  = Ok (n, take (Z.to_nat n) (drop (Z.to_nat off) data)).
Proof.
  intros Hoff Hn Hlen.
  apply (file_read_mid data (take (Z.to_nat off) data) (drop (Z.to_nat off) data) []).
  - now rewrite app_nil_r, take_drop.
  - unfold len in *. rewrite length_take. lia.
  - unfold len in *. rewrite length_drop. lia.
Qed.

(** The record the bytes [b0 .. b12 ++ body] are the layout of. *)
Lemma layout_of_bytes (b0 b1 b2 b3 b4 b5 b6 b7 b8 b9 b10 b11 b12 : byte)
    (k v : bytes) (ty : LogRecordType) :
  be_value [b0; b1; b2; b3]
  = crc32 ([b4; b5; b6; b7; b8; b9; b10; b11; b12] ++ k ++ v) ->
  byte_val b4 = type_value ty ->
  be_value [b5; b6; b7; b8] = len k -> be_value [b9; b10; b11; b12] = len v ->
  layout (mkLogRecord k v ty)
  = [b0; b1; b2; b3; b4; b5; b6; b7; b8; b9; b10; b11; b12] ++ k ++ v.
Proof.
  intros Hcrc Hty Hk Hv. unfold layout, layout_tail. cbn [key value rtype].
  rewrite <- Hty, byte_of_val, <- Hk, <- Hv, !be_bytes_be_value_4.
  cbn [app] in *. rewrite <- Hcrc, be_bytes_be_value_4. reflexivity.
Qed.

Lemma read_log_record_sound (f : DataFile.t) (off : Z) (r : LogRecord) (sz : Z) :
  DataFile.read_log_record f off = Some (r, sz) ->
  0 <= off /\ readable r /\ sz = len (layout r) /\
  exists pre post, DataFile.io_manager f = pre ++ layout r ++ post /\ off = len pre.
Proof.
  unfold DataFile.read_log_record, DataFile.read_log_record_body. cbv zeta.
  unfold FileIOManager.size. set (data := DataFile.io_manager f).
  destruct (len data <=? off) eqn:E1; [discriminate|].
  destruct (len data <? off + HEADER_SIZE) eqn:E2; [discriminate|].
  unfold HEADER_SIZE in *. zbool.
  destruct (Z_lt_le_dec off 0) as [Hneg|Hoff].
  { unfold FileIOManager.read at 1. destruct (off <? 0) eqn:E; [discriminate | zbool; lia]. }
  rewrite (file_read_from data off 13) by lia. cbn [rbind fst snd].
  remember (drop (Z.to_nat off) data) as rest eqn:Hdrop.
  assert (len rest = len data - off) as Hrest
      by (rewrite Hdrop; unfold len in *; rewrite length_drop; lia).
  assert (data = take (Z.to_nat off) data ++ rest) as Hdata
      by (rewrite Hdrop; now rewrite take_drop).
  assert (len (take (Z.to_nat off) data) = off) as Hpre
      by (unfold len in *; rewrite length_take; lia).
  destruct rest as [|b0 [|b1 [|b2 [|b3 [|b4 [|b5 [|b6 [|b7 [|b8 [|b9 [|b10 [|b11 [|b12 body]]]]]]]]]]]]];
    try (exfalso; unfold len in *; cbn [length] in *; lia).
  change (Z.to_nat 13) with 13%nat. cbn [take]. rewrite take_0. cbn [Z.eqb Pos.eqb negb].
  change (slice_to 4 [b0; b1; b2; b3; b4; b5; b6; b7; b8; b9; b10; b11; b12])
    with [b0; b1; b2; b3].
  change (slice 5 9 [b0; b1; b2; b3; b4; b5; b6; b7; b8; b9; b10; b11; b12])
    with [b5; b6; b7; b8].
  change (slice 9 13 [b0; b1; b2; b3; b4; b5; b6; b7; b8; b9; b10; b11; b12])
    with [b9; b10; b11; b12].
  unfold unpack_u32_be. cbn [length Nat.eqb rbind lookup list_lookup].
  set (ks := be_value [b5; b6; b7; b8]). set (vs := be_value [b9; b10; b11; b12]).
  pose proof (be_value_range_4 b5 b6 b7 b8) as Hks.
  pose proof (be_value_range_4 b9 b10 b11 b12) as Hvs. fold ks in Hks. fold vs in Hvs.
  destruct (negb _) eqn:Ety; [discriminate|]. apply negb_false_iff in Ety.
  destruct ((ks <=? 0) || (vs <? 0) || (DataFile.MAX_RECORD_BODY <? ks + vs)) eqn:Esz;
    [discriminate|].
  apply orb_false_iff in Esz as [Esz Ecap]. apply orb_false_iff in Esz as [Eks _].
  unfold DataFile.MAX_RECORD_BODY in *. zbool.
  destruct (len data <? off + (13 + ks + vs)) eqn:E3; [discriminate|]. zbool.
  rewrite (file_read_from data off (13 + ks + vs)) by lia. cbn [rbind fst snd].
  rewrite Z.eqb_refl. cbn [negb]. rewrite <- Hdrop.
  assert (len body = len data - off - 13) as Hbody.
  { unfold len in *. cbn [length] in Hrest. lia. }
  set (kv := take (Z.to_nat (ks + vs)) body).
  assert (take (Z.to_nat (13 + ks + vs))
               (b0 :: b1 :: b2 :: b3 :: b4 :: b5 :: b6 :: b7 :: b8 :: b9 :: b10 :: b11
                   :: b12 :: body)
          = [b0; b1; b2; b3; b4; b5; b6; b7; b8; b9; b10; b11; b12] ++ kv) as ->.
  { replace (Z.to_nat (13 + ks + vs)) with (13 + Z.to_nat (ks + vs))%nat by lia.
    reflexivity. }
  assert (len kv = ks + vs) as Hkv
      by (unfold kv, len in *; rewrite length_take; lia).
  change (slice_from 4 ([b0; b1; b2; b3; b4; b5; b6; b7; b8; b9; b10; b11; b12] ++ kv))
    with ([b4; b5; b6; b7; b8; b9; b10; b11; b12] ++ kv).
  destruct (negb (_ =? _)) eqn:Ecrc; [discriminate|].
  apply negb_false_iff in Ecrc. zbool.
  destruct (type_of_value (byte_val b4)) as [ty|] eqn:Et; [|discriminate].
  cbn [rbind]. intros [= <- <-].
  match goal with
  | |- context [mkLogRecord ?a ?b ty] => set (k := a); set (v := b)
  end.
  assert (k = take (Z.to_nat ks) kv) as Hk.
  { unfold k, slice. replace (Z.to_nat (13 + ks - 13)) with (Z.to_nat ks) by lia.
    reflexivity. }
  assert (v = drop (Z.to_nat ks) kv) as Hv.
  { unfold v. destruct (0 <? vs) eqn:Ev; zbool.
    - unfold slice_from. replace (Z.to_nat (13 + ks)) with (13 + Z.to_nat ks)%nat by lia.
      reflexivity.
    - symmetry. apply drop_ge. unfold len in Hkv. lia. }
  clearbody k v.
  assert (kv = k ++ v) as Hkv' by (rewrite Hk, Hv; now rewrite take_drop).
  assert (len k = ks) as Hlk by (rewrite Hk; unfold len in *; rewrite length_take; lia).
  assert (len v = vs) as Hlv by (rewrite Hv; unfold len in *; rewrite length_drop; lia).
  apply type_of_value_inv in Et.
  assert (layout (mkLogRecord k v ty)
          = [b0; b1; b2; b3; b4; b5; b6; b7; b8; b9; b10; b11; b12] ++ k ++ v) as Hlay.
  { apply layout_of_bytes; [now rewrite <- Hkv' | exact Et | now rewrite Hlk | now rewrite Hlv]. }
  split; [exact Hoff|]. split; [|split].
  - unfold readable, DataFile.MAX_RECORD_BODY. cbn [rtype key value].
    split; [|split; [|lia]].
    + rewrite <- type_check_readable, <- Et. exact Ety.
    + apply len_pos_iff. lia.
  - rewrite len_layout. cbn [key value]. unfold HEADER_SIZE. lia.
  - exists (take (Z.to_nat off) data), (drop (Z.to_nat (ks + vs)) body).
    split; [|now rewrite Hpre].
    rewrite Hlay, <- Hkv'. rewrite Hdata at 1. f_equal. cbn [app].
    unfold kv. now rewrite take_drop.
Qed.

(** X3: [read_log_record] returns a record and a size exactly when the
    bytes of the file at the offset are the encoding of that record, the
    size is the length of the encoding, and the record is one that is
    read: of type NORMAL, DELETED or TXNFINISHED, with a key that is not
    empty and key and value of at most 100 MiB together. *)
Theorem read_log_record_exact (f : DataFile.t) (off : Z) (r : LogRecord) (sz : Z) :
  DataFile.read_log_record f off = Some (r, sz) <->
  (readable r /\ sz = len (layout r) /\
   exists pre post, DataFile.io_manager f = pre ++ layout r ++ post /\ off = len pre).
Proof.
  split.
  - intros H. apply read_log_record_sound in H. tauto.
  - intros (Hr & -> & pre & post & Hio & Hoff).
    rewrite (read_layout f pre post r off Hio Hoff Hr). now rewrite len_layout.
Qed.

(** ** The scan of a data file, whatever it holds *)

Lemma replay_loop_prefix (fid : Z) (f : DataFile.t) (fuel : nat) :
  forall (pre rest : bytes) (off : Z) (db : DB.t),
    DataFile.io_manager f = pre ++ rest -> off = len pre -> (length rest < fuel)%nat ->
    exists rs junk db',
      rest = segment_bytes rs ++ junk /\ Forall readable rs /\
      DataFile.read_log_record f (off + len (segment_bytes rs)) = None /\
      DB.replay_loop fuel fid f off db = Some db' /\
      DB.index db' = index_of_segment fid off rs (DB.index db).
Proof.
  induction fuel as [|fuel IH]; intros pre rest off db Hio Hoff Hfuel; [lia|].
  cbn [DB.replay_loop].
  destruct (DataFile.read_log_record f off) as [[r sz]|] eqn:E.
  - destruct (read_log_record_sound f off r sz E)
      as (_ & Hr & -> & pre' & post & Hio' & Hoff').
    assert (pre' = pre /\ layout r ++ post = rest) as [-> <-].
    { rewrite Hio in Hio'. symmetry in Hio'. apply app_inj_1 in Hio'; [exact Hio'|].
      unfold len in *. lia. }
    pose proof (len_layout r) as Hl. pose proof (len_nonneg (key r)).
    pose proof (len_nonneg (value r)). unfold HEADER_SIZE in Hl.
    destruct (IH (pre ++ layout r) post (off + len (layout r))
                (DB.replay_record fid off (len (layout r)) r db))
      as (rs & junk & db' & Hrest & Hrs & Hend & Hrun & Hidx).
    + now rewrite <- app_assoc.
    + rewrite len_app. lia.
    + rewrite length_app in Hfuel. unfold len in *. lia.
    + exists (r :: rs), junk, db'. cbn [segment_bytes flat_map index_of_segment].
      split; [rewrite Hrest; now rewrite <- app_assoc|].
      split; [now constructor|]. split; [|split; [exact Hrun|]].
      * rewrite len_app. rewrite <- Hend. f_equal. unfold segment_bytes. lia.
      * now rewrite Hidx, replay_record_index.
  - exists [], rest, db. cbn [segment_bytes flat_map index_of_segment].
    split; [reflexivity|]. split; [constructor|]. split; [|now split].
    change (len (@nil byte)) with 0. now rewrite Z.add_0_r.
Qed.

(** X4: whatever a data file holds, the scan of [load_index_from_files]
    comes to an end on it: the file begins with records that are read,
    the scan indexes exactly these, in their order, and it stops at the
    first offset where [read_log_record] returns nothing. *)
Theorem scan_reads_prefix (fid : Z) (f : DataFile.t) (db : DB.t) :
  exists (rs : list LogRecord) (junk : bytes),
    DataFile.io_manager f = segment_bytes rs ++ junk /\
    Forall readable rs /\
    DataFile.read_log_record f (len (segment_bytes rs)) = None /\
    DB.replay_loop (S (length (DataFile.io_manager f))) fid f 0 db
    = Some (DB.replay_file fid f db) /\
    DB.index (DB.replay_file fid f db) = index_of_segment fid 0 rs (DB.index db).
Proof.
  destruct (replay_loop_prefix fid f (S (length (DataFile.io_manager f))) []
              (DataFile.io_manager f) 0 db eq_refl eq_refl ltac:(lia))
    as (rs & junk & db' & Hrest & Hrs & Hend & Hrun & Hidx).
  exists rs, junk. unfold DB.replay_file. rewrite Hrun. auto.
Qed.





(** ** Raw reads, the header decoder and hint records *)

(** X6: [read_n_bytes] returns the [n] bytes of the file from the
    offset on when the file holds them all, and [None] when it ends
    before; no bytes are asked of it for [n = 0], which always succeeds,
    and a negative [n] is a [ValueError]. *)
Theorem read_n_bytes_spec (f : DataFile.t) (n off : Z) :
  0 <= off ->
  DataFileMore.read_n_bytes f n off
  = if n <? 0 then Raise ValueError
    else if (n =? 0) || (off + n <=? len (DataFile.io_manager f))
         then Ok (Some (slice off (off + n) (DataFile.io_manager f)))
         else Ok None.
Proof.
  intros Hoff. unfold DataFileMore.read_n_bytes.
  destruct (n <? 0) eqn:En; [reflexivity|]. zbool.
  set (data := DataFile.io_manager f).
  unfold FileIOManager.read. destruct (off <? 0) eqn:E0; [zbool; lia|].
  cbn [rbind fst snd].
  assert (len (bytearray n) = n) as Hb
      by (unfold bytearray, len; rewrite length_replicate; lia).
  rewrite Hb.
  assert (len (slice off (off + n) data) = Z.min n (Z.max 0 (len data - off))) as Hl.
  { unfold slice, len. rewrite length_take, length_drop. lia. }
  destruct ((n =? 0) || (off + n <=? len data)) eqn:E.
  - assert (len (slice off (off + n) data) = n) as Hn.
    { rewrite Hl. apply orb_true_iff in E as [E|E]; zbool; lia. }
    rewrite Hn, Z.eqb_refl. cbn [negb]. f_equal. f_equal.
    unfold slice_from, bytearray. rewrite drop_ge by (rewrite length_replicate; lia).
    apply app_nil_r.
  - apply orb_false_iff in E as [E1 E2]. zbool.
    destruct (len (slice off (off + n) data) =? n) eqn:E3; [zbool; lia | reflexivity].
Qed.

Lemma read_n_bytes_spec_witness :
  let f := DataFile.init 1 [x61; x62; x63; x64] in
  DataFileMore.read_n_bytes f 2 1
  = if 2 <? 0 then Raise ValueError
    else if (2 =? 0) || (1 + 2 <=? len (DataFile.io_manager f))
         then Ok (Some (slice 1 (1 + 2) (DataFile.io_manager f)))
         else Ok None.
Proof. intros f. apply (read_n_bytes_spec f 2 1). lia. Defined.

(** X7: the header [decode_log_record_header] reads from the bytes
    [LogRecord.encode] returned, with whatever follows them, holds the
    CRC of the bytes after the first four, the type and the two lengths
    of the record, and the header size 13 comes with it; a buffer of
    fewer than 13 bytes gives [(None, 0)].  Neither the CRC nor the type
    is checked. *)
Theorem header_of_encoded (r : LogRecord) (buf post : bytes) (n : Z) :
  LogRecord_.encode r = Ok (buf, n) ->
  DataFileMore.decode_log_record_header (buf ++ post)
  = (Some (DataFileMore.mkLogRecordHeader (crc32 (slice_from 4 buf))
             (type_value (rtype r)) (len (key r)) (len (value r))), 13) /\
  n = 13 + len (key r) + len (value r) /\
  forall short : bytes,
    len short < 13 -> DataFileMore.decode_log_record_header short = (None, 0).
Proof.
  intros E. destruct (encodable_dec r) as [He|He];
    [|rewrite (encode_not_encodable r He) in E; discriminate].
  rewrite (encode_layout r He) in E. injection E as <- <-.
  destruct He as [Hk Hv]. pose proof (len_nonneg (key r)). pose proof (len_nonneg (value r)).
  split; [|split; [reflexivity|]].
  - unfold DataFileMore.decode_log_record_header,
      DataFileMore.decode_log_record_header_body.
    rewrite len_app, len_layout. pose proof (len_nonneg post). unfold HEADER_SIZE.
    destruct (_ <? 13) eqn:E; [zbool; lia|].
    rewrite layout_crc, layout_type, layout_key_size, layout_value_size.
    unfold unpack_u32_be. rewrite !length_be_bytes. cbn [Nat.eqb rbind].
    rewrite !be_value_be_bytes
      by (change (256 ^ Z.of_nat 4) with (2 ^ 32);
          first [lia | pose proof (crc32_range (layout_tail r)); lia]).
    pose proof (type_value_range (rtype r)).
    now rewrite byte_val_of, layout_tail_from by lia.
  - intros short Hs. unfold DataFileMore.decode_log_record_header, HEADER_SIZE.
    destruct (_ <? 13) eqn:E; [reflexivity | zbool; lia].
Qed.

Lemma header_of_encoded_witness :
  let r := mkLogRecord [x6b] [x76; x76] DELETED in
  DataFileMore.decode_log_record_header (layout r ++ [xff])
  = (Some (DataFileMore.mkLogRecordHeader (crc32 (slice_from 4 (layout r)))
             (type_value (rtype r)) (len (key r)) (len (value r))), 13) /\
  16 = 13 + len (key r) + len (value r) /\
  forall short : bytes,
    len short < 13 -> DataFileMore.decode_log_record_header short = (None, 0).
Proof.
  intros r. apply (header_of_encoded r (layout r) [xff] 16). vm_compute. reflexivity.
Defined.



(** ** What a call leaves of the log and of the index *)

(** [db'] is [db] with more bytes in the log and nothing else changed. *)
Definition grown (db db' : DB.t) : Prop :=
  wf db' /\ same_frame db db' /\
  (forall fid off r, holds db fid off r -> holds db' fid off r) /\
  exists tail, log_bytes db' = log_bytes db ++ tail.

Lemma grown_refl (db : DB.t) : wf db -> grown db db.
Proof.
  intros Hwf. split; [exact Hwf|]. split; [apply same_frame_refl|]. split; [auto|].
  exists []. now rewrite app_nil_r.
Qed.

Lemma grown_trans (db1 db2 db3 : DB.t) : grown db1 db2 -> grown db2 db3 -> grown db1 db3.
Proof.
  intros (_ & F1 & H1 & t1 & L1) (W & F2 & H2 & t2 & L2).
  split; [exact W|]. split; [eapply same_frame_trans; eassumption|]. split; [auto|].
  exists (t1 ++ t2). now rewrite L2, L1, app_assoc.
Qed.

Lemma append_grown (rec : LogRecord) (db : DB.t) :
  wf db -> grown db (snd (DB._append_log_record rec db)).
Proof.
  intros Hwf. pose proof (append_log rec db Hwf) as Hlog.
  destruct (append_spec rec db Hwf) as (res & db' & E & Hwf' & Hfr & Hh & _).
  rewrite E in *. cbn [snd] in *. split; [exact Hwf'|]. split; [exact Hfr|].
  split; [exact Hh|]. eauto.
Qed.

Lemma append_writes_grown (ws : list (bytes * option bytes)) :
  forall (acc : list (bytes * (LogRecordPos * bool))) (db : DB.t),
    wf db -> grown db (snd (Batch.append_writes ws acc db)).
Proof.
  induction ws as [|[k w] ws IH]; intros acc db Hwf; cbn [Batch.append_writes];
    [now apply grown_refl|].
  pose proof (append_grown (Batch.record_of k w) db Hwf) as Hg. unfold mbind.
  destruct (DB._append_log_record (Batch.record_of k w) db) as [[pos|e] d];
    cbn [snd] in Hg |- *; [|exact Hg].
  eapply grown_trans; [exact Hg|]. apply IH. apply Hg.
Qed.







(** ** File names and the mmap backend *)

(** X11: the name [get_data_file_path] gives a data file is one that
    [load_data_files] keeps, and the id it parses from the name is the
    id of the file; files of different ids have different names. *)
Theorem data_file_name_round_trip (i : Z) :
  0 <= i ->
  DB.is_data_file_name (DB.get_data_file_path i) = true /\
  DB.py_int (DB.before_dot (DB.get_data_file_path i)) = Ok i /\
  DB.parse_file_ids [DB.get_data_file_path i] = Ok [i] /\
  forall j, 0 <= j -> DB.get_data_file_path j = DB.get_data_file_path i -> j = i.
Proof.
  intros Hi. split; [now apply is_data_file_name_path|].
  split; [now apply py_int_data_file_path|].
  split; [apply (parse_file_ids_paths [i]); now repeat constructor|].
  intros j Hj E. now apply get_data_file_path_inj.
Qed.

Lemma data_file_name_round_trip_witness :
  DB.is_data_file_name (DB.get_data_file_path 1234567890) = true /\
  DB.py_int (DB.before_dot (DB.get_data_file_path 1234567890)) = Ok 1234567890 /\
  DB.parse_file_ids [DB.get_data_file_path 1234567890] = Ok [1234567890] /\
  forall j, 0 <= j ->
            DB.get_data_file_path j = DB.get_data_file_path 1234567890 -> j = 1234567890.
Proof. apply (data_file_name_round_trip 1234567890). lia. Defined.

(** X12: a write of bytes through the mmap backend, on a file of any
    contents, leaves the file as these contents followed by the bytes,
    with the size grown by their number, and a read at the old size
    returns them. *)
Theorem mmap_write_read (c b : bytes) :
  b <> [] ->
  exists m',
    MMapIOManager.write (MMapIOManager.init c) b = Ok (m', len b) /\
    MMapIOManager.mm_file m' = c ++ b /\
    MMapIOManager.size m' = len c + len b /\
    MMapIOManager.read m' (bytearray (len b)) (len c) = Ok (len b, b).
Proof.
  intros Hb.
  destruct (write_agree c (MMapIOManager.init c) b (io_rel_init c) (or_introl Hb))
    as (m' & Hw & _ & Hrel).
  exists m'. split; [exact Hw|]. pose proof Hrel as (Hf & Hs & _).
  split; [exact Hf|]. split; [unfold MMapIOManager.size; now rewrite Hs, len_app|].
  rewrite (read_agree (c ++ b) m' _ (len c) Hrel (len_nonneg c)).
  rewrite (file_read_mid (c ++ b) c b [] (len c) (len b));
    [|now rewrite app_nil_r | reflexivity | pose proof (len_nonneg b); lia].
  unfold len. now rewrite Nat2Z.id, firstn_all.
Qed.

Lemma mmap_write_read_witness :
  exists m',
    MMapIOManager.write (MMapIOManager.init [x61]) [x62; x63] = Ok (m', len [x62; x63]) /\
    MMapIOManager.mm_file m' = [x61] ++ [x62; x63] /\
    MMapIOManager.size m' = len [x61] + len [x62; x63] /\
    MMapIOManager.read m' (bytearray (len [x62; x63])) (len [x61])
    = Ok (len [x62; x63], [x62; x63]).
Proof. apply (mmap_write_read [x61] [x62; x63]). discriminate. Defined.

Lemma backends_agree_witness :
  let ops := [IoWrite [x61; x62]; IoRead (bytearray 4) 1; IoSize; IoWrite []; IoRead [] 9] in
  mmap_run (MMapIOManager.init []) ops = file_run (FileIOManager.init []) ops /\
  is_ok (file_run (FileIOManager.init []) ops) = true.
Proof.
  intros ops. apply (backends_agree [] ops).
  cbn. repeat split; try lia; try (left; discriminate); right; discriminate.
Defined.

(** ** The sequence number *)

Lemma put_options_seq_no (k v : bytes) (db : DB.t) :
  wf db ->
  DB.options (snd (DB.put k v db)) = DB.options db /\
  DB.seq_no (snd (DB.put k v db)) = DB.seq_no db.
Proof.
  intros Hwf. unfold DB.put.
  destruct (DB.is_closed db); [now split|].
  destruct (decide (k = [])); [now split|].
  pose proof (append_grown (mkLogRecord k v NORMAL) db Hwf)
    as (_ & (_ & _ & _ & Hs & _ & Ho & _) & _).
  unfold mbind, mmodify.
  destruct (DB._append_log_record (mkLogRecord k v NORMAL) db) as [[pos|e] d];
    cbn [snd] in Hs, Ho |- *; [|now split].
  rewrite <- Ho, <- Hs. unfold DB.sync_policy, DB.index_put_reclaim, Indexer.put.
  destruct (DB.index d !! k); cbn; destruct (_ || _); now split.
Qed.

Lemma delete_options_seq_no (k : bytes) (db : DB.t) :
  wf db ->
  DB.options (snd (DB.delete k db)) = DB.options db /\
  DB.seq_no (snd (DB.delete k db)) = DB.seq_no db.
Proof.
  intros Hwf. unfold DB.delete.
  destruct (DB.is_closed db); [now split|].
  destruct (decide (k = [])); [now split|].
  destruct (Indexer.get (DB.index db) k); [|now split].
  pose proof (append_grown (mkLogRecord k [] DELETED) db Hwf)
    as (_ & (_ & _ & _ & Hs & _ & Ho & _) & _).
  unfold mbind, mmodify.
  destruct (DB._append_log_record (mkLogRecord k [] DELETED) db) as [[pos|e] d];
    cbn [snd] in Hs, Ho |- *; [|now split].
  rewrite <- Ho, <- Hs. unfold DB.sync_policy, DB.index_delete_reclaim, Indexer.delete.
  destruct (DB.index d !! k); cbn; destruct (_ || _); now split.
Qed.

Lemma apply_positions_options_seq_no (ps : list (bytes * (LogRecordPos * bool))) :
  forall db : DB.t,
    DB.options (Batch.apply_positions ps db) = DB.options db /\
    DB.seq_no (Batch.apply_positions ps db) = DB.seq_no db.
Proof.
  induction ps as [|[k [pos b]] ps IH]; intros db; cbn [Batch.apply_positions];
    [now split|].
  destruct (IH (if b then DB.index_put_reclaim k pos db else DB.index_delete_reclaim k db))
    as [-> ->].
  destruct b;
    [destruct (same_files_index_put k pos db) as ((_ & _ & _ & Hs & _) & _ & _ & Ho)
    |destruct (same_files_index_delete k db) as ((_ & _ & _ & Hs & _) & _ & _ & Ho)];
    now split.
Qed.

(** The sequence number after the [try] block of [commit]. *)
Lemma commit_try_seq_no (txn : Z) (ws : list (bytes * option bytes)) (db : DB.t) :
  wf db ->
  DB.options (snd (Batch.commit_try txn ws db)) = DB.options db /\
  DB.seq_no (snd (Batch.commit_try txn ws db))
  = if is_ok (fst (Batch.commit_try txn ws db)) && (0 <? txn) then Some txn
    else DB.seq_no db.
Proof.
  intros Hwf. unfold Batch.commit_try, mbind, mmodify, mret.
  destruct (0 <? txn) eqn:Etxn.
  - pose proof (append_grown (Batch.marker txn TXNSTART) db Hwf) as G1.
    destruct (DB._append_log_record (Batch.marker txn TXNSTART) db) as [[p|e] d];
      cbn [snd fst is_ok andb] in G1 |- *;
      [|destruct G1 as (_ & (_ & _ & _ & Hs & _ & Ho & _) & _); now split].
    pose proof (append_writes_grown ws [] d (proj1 G1)) as G2.
    pose proof (grown_trans _ _ _ G1 G2) as G12. clear G2.
    destruct (Batch.append_writes ws [] d) as [[ps|e] d1];
      cbn [snd fst is_ok andb] in G12 |- *;
      [|destruct G12 as (_ & (_ & _ & _ & Hs & _ & Ho & _) & _); now split].
    pose proof (append_grown (Batch.marker txn TXNFINISHED) d1 (proj1 G12)) as G3.
    pose proof (grown_trans _ _ _ G12 G3) as G. clear G3.
    destruct (DB._append_log_record (Batch.marker txn TXNFINISHED) d1) as [[p2|e] d2];
      cbn [snd fst is_ok andb] in G |- *;
      [|destruct G as (_ & (_ & _ & _ & Hs & _ & Ho & _) & _); now split].
    destruct (apply_positions_options_seq_no ps (DB.set_seq_no (Some txn) d2)) as [-> ->].
    destruct G as (_ & (_ & _ & _ & Hs & _ & Ho & _) & _). now split.
  - pose proof (append_writes_grown ws [] db Hwf) as G.
    destruct (Batch.append_writes ws [] db) as [[ps|e] d1];
      cbn [snd fst is_ok andb] in G |- *;
      destruct G as (_ & (_ & _ & _ & Hs & _ & Ho & _) & _); [|now split].
    destruct (apply_positions_options_seq_no ps d1) as [-> ->]. now split.
Qed.

Lemma commit_options_seq_no (b : Batch.t) (db : DB.t) (s : Z) :
  wf db -> DB.seq_no db = Some s ->
  DB.options (snd (Batch.commit b db)) = DB.options db /\
  DB.seq_no (snd (Batch.commit b db))
  = if is_ok (fst (fst (Batch.commit b db))) && negb (bool_decide (Batch.writes b = []))
       && is_btree (DB.index_type_of db) && (0 <=? s)
    then Some (s + 1) else Some s.
Proof.
  intros Hwf Hs. unfold Batch.commit.
  destruct (Batch.is_committed b); [cbn [snd fst is_ok andb]; now split|].
  destruct (Batch.writes b) as [|w ws] eqn:Hws.
  { cbn [snd fst is_ok andb]. rewrite bool_decide_true by reflexivity. now split. }
  rewrite Hs. rewrite bool_decide_false by discriminate. cbn [negb].
  set (txn := if is_btree (DB.index_type_of db) then s + 1 else s).
  pose proof (commit_try_seq_no txn (w :: ws) db Hwf) as [Ho Hq].
  pose proof (commit_try_wf txn (w :: ws) db Hwf) as Hwf1.
  destruct (Batch.commit_try txn (w :: ws) db) as [[u|e] d];
    cbn [snd fst is_ok andb] in Ho, Hq, Hwf1 |- *.
  - split; [exact Ho|]. rewrite Hq, Hs. subst txn.
    destruct (is_btree (DB.index_type_of db)); cbn [andb].
    + destruct (0 <=? s) eqn:E1; destruct (0 <? s + 1) eqn:E2; zbool; try lia;
        reflexivity.
    + destruct (0 <? s); [|reflexivity]. reflexivity.
  - rewrite Hs in Hq. destruct (0 <? txn).
    + pose proof (append_grown (Batch.marker txn TXNABORT) d Hwf1)
        as (_ & (_ & _ & _ & Hs' & _ & Ho' & _) & _).
      split; [congruence|]. rewrite Hs', Hq. reflexivity.
    + now split.
Qed.

Lemma close_seq_file (after : directory -> directory) (db : DB.t) (z : Z) :
  (forall d, after d ≡ₚ d) -> wf db -> DB.is_closed db = false ->
  is_btree (index_type (DB.options db)) = true -> DB.seq_no db = Some z ->
  DB.dir_lookup (after (DB.dir_of (snd (DB.close db)))) DB.seq_no_path
  = Some (layout (seq_record z)).
Proof.
  intros Hafter Hwf Hopen Eb Hseq.
  pose proof Hwf as (n & a & Hn & Hids & Ha & Hid & _ & Hold & Hall & (z' & Hseq' & Hz) & Hrest).
  rewrite Hseq in Hseq'. injection Hseq' as <-.
  pose proof (data_file_ids db n a Hn Ha Hid Hold Hall) as Hperm.
  assert (snd (DB.close db)
          = DB.set_is_closed true
              (DB.set_dir_rest
                 (DB.dir_write (DB.dir_rest db) DB.seq_no_path (layout (seq_record z))) db))
    as ->.
  { unfold DB.close. rewrite Hopen, Eb. unfold DB._save_seq_no. rewrite Hseq. cbv zeta.
    change (mkLogRecord (str_encode DB.SEQ_NO_KEY) (str_encode (py_str_int z)) NORMAL)
      with (seq_record z).
    now rewrite (encode_layout _ (seq_record_encodable z Hz)). }
  set (c := layout (seq_record z)).
  set (dbc := DB.set_is_closed true _).
  assert (DB.dir_of dbc
          = map (fun f => (DB.get_data_file_path (DataFile.file_id f),
                           DataFile.io_manager f)) (DB.data_files db)
            ++ DB.dir_write (DB.dir_rest db) DB.seq_no_path c) as Hdir by reflexivity.
  apply dir_lookup_Some.
  - apply (Permutation_in _ (Permutation_sym (Permutation_map fst (Hafter _)))).
    rewrite Hdir, map_app. apply in_or_app. right.
    unfold DB.dir_write. rewrite map_app. apply in_or_app. right. now left.
  - intros c' H. apply (Permutation_in _ (Hafter _)) in H. rewrite Hdir in H.
    apply in_app_or in H as [H|H].
    + exfalso. apply in_map_iff in H as (f & [= E _] & Hf).
      assert (In (DataFile.file_id f) (seqZ 1 n)) as Hi
          by (apply (Permutation_in _ Hperm), in_map, Hf).
      apply list_elem_of_In, elem_of_seqZ in Hi.
      apply (other_name_not_path (DataFile.file_id f)); [lia|]. left. exact E.
    + unfold DB.dir_write, DB.dir_remove in H. apply in_app_or in H as [H|H].
      * exfalso. apply list_elem_of_In, list_elem_of_filter in H as [H _].
        cbn [fst] in H. rewrite String.eqb_refl in H. exact H.
      * destruct H as [[= <-]|[]]. reflexivity.
Qed.

(** Opening again finds the sequence number [close] saved. *)
Lemma reopen_seq_no (host : byteorder) (after : directory -> directory) (db : DB.t) :
  (forall d, after d ≡ₚ d) -> wf db -> DB.is_closed db = false ->
  (is_btree (index_type (DB.options db)) = false -> DB.seq_no db = Some 0) ->
  exists db', reopen host after (Ok db) = Ok db' /\ DB.seq_no db' = DB.seq_no db.
Proof.
  intros Hafter Hwf Hopen Hnb.
  destruct (close_dir after db Hafter Hwf Hopen)
    as (dbc & n & others & Ec & Eo & Hn & Hids & Hp & Hoth & Hseq).
  assert (dbc = snd (DB.close db)) as Hdbc by now rewrite Ec.
  destruct (open_db_index host (DB.options db) n (after (DB.dir_of dbc)) others Hn Hp Hoth)
    as (db' & db2 & E & _ & _ & _ & Hrest & Hs).
  { intros Hb. right. exact (Hseq Hb). }
  exists db'. split; [unfold reopen, step; now rewrite Ec, Eo|].
  destruct (is_btree (index_type (DB.options db))) eqn:Eb.
  - pose proof Hwf as (_ & _ & _ & _ & _ & _ & _ & _ & _ & (z & Hz & Hzok) & _).
    pose proof (close_seq_file after db z Hafter Hwf Hopen Eb Hz) as Hl.
    rewrite <- Hdbc in Hl.
    rewrite (load_seq_no_ok db2 z Hzok) in Hs by now rewrite Hrest.
    injection Hs as <-. now rewrite Hz.
  - now rewrite Hs, Hnb.
Qed.

Lemma reachable_seq_no (host : byteorder) (db : DB.t) :
  reachable host db ->
  is_btree (index_type (DB.options db)) = false -> DB.seq_no db = Some 0.
Proof.
  induction 1 as [opts db E|k v db Hr IH|k db Hr IH|b db Hr IH
                  |after db db' Hr IH Hafter E].
  - rewrite open_db_empty in E. injection E as <-. reflexivity.
  - destruct (reachable_wf host db Hr) as [Hwf _].
    destruct (put_options_seq_no k v db Hwf) as [-> ->]. exact IH.
  - destruct (reachable_wf host db Hr) as [Hwf _].
    destruct (delete_options_seq_no k db Hwf) as [-> ->]. exact IH.
  - destruct (reachable_wf host db Hr) as [Hwf _].
    pose proof Hwf as (_ & _ & _ & _ & _ & _ & _ & _ & _ & (z & Hz & _) & _).
    destruct (commit_options_seq_no b db z Hwf Hz) as [-> ->].
    intros Hb. unfold DB.index_type_of. rewrite Hb, andb_false_r. cbn [andb].
    now rewrite <- Hz, IH.
  - destruct (reachable_wf host db Hr) as [Hwf Hc].
    destruct (reopen_wf host after db Hafter Hwf Hc) as (db1 & E1 & _ & _ & _ & Ho).
    destruct (reopen_seq_no host after db Hafter Hwf Hc IH) as (db2 & E2 & Hs).
    rewrite E in E1, E2. injection E1 as <-. injection E2 as <-.
    rewrite Ho, Hs. exact IH.
Qed.

(** X13: the sequence number is kept: it is not negative, closing and
    opening the database again returns it, and under the BTREE index
    every batch with writes that commits moves it on by one; nothing
    else changes it. *)
Theorem seq_no_persistent (host : byteorder) (db : DB.t) :
  reachable host db ->
  exists s,
    DB.seq_no db = Some s /\ 0 <= s /\
    (forall after : directory -> directory,
       (forall d, after d ≡ₚ d) ->
       exists db', reopen host after (Ok db) = Ok db' /\ DB.seq_no db' = Some s) /\
    (forall k v, DB.seq_no (snd (DB.put k v db)) = Some s) /\
    (forall k, DB.seq_no (snd (DB.delete k db)) = Some s) /\
    (forall b,
       DB.seq_no (snd (Batch.commit b db))
       = if is_ok (fst (fst (Batch.commit b db)))
            && negb (bool_decide (Batch.writes b = []))
            && is_btree (DB.index_type_of db)
         then Some (s + 1) else Some s).
Proof.
  intros Hr. destruct (reachable_wf host db Hr) as [Hwf Hc].
  pose proof Hwf as (_ & _ & _ & _ & _ & _ & _ & _ & _ & (s & Hs & Hs0 & _) & _).
  exists s. split; [exact Hs|]. split; [exact Hs0|]. split; [|split; [|split]].
  - intros after Hafter.
    destruct (reopen_seq_no host after db Hafter Hwf Hc (reachable_seq_no host db Hr))
      as (db' & E & Hs').
    exists db'. split; [exact E | congruence].
  - intros k v. destruct (put_options_seq_no k v db Hwf) as [_ ->]. exact Hs.
  - intros k. destruct (delete_options_seq_no k db Hwf) as [_ ->]. exact Hs.
  - intros b. destruct (commit_options_seq_no b db s Hwf Hs) as [_ ->].
    destruct (0 <=? s) eqn:E; [now rewrite andb_true_r | zbool; lia].
Qed.

Lemma seq_no_persistent_witness :
  let opts := mkOptions 1024 false 0 BTREE false in
  let db := snd (Batch.commit (Batch.mk false [([x61], Some [x31])]) (new_db opts)) in
  exists s,
    DB.seq_no db = Some s /\ 0 <= s /\
    (forall after : directory -> directory,
       (forall d, after d ≡ₚ d) ->
       exists db', reopen LittleEndian after (Ok db) = Ok db' /\ DB.seq_no db' = Some s) /\
    (forall k v, DB.seq_no (snd (DB.put k v db)) = Some s) /\
    (forall k, DB.seq_no (snd (DB.delete k db)) = Some s) /\
    (forall b,
       DB.seq_no (snd (Batch.commit b db))
       = if is_ok (fst (fst (Batch.commit b db)))
            && negb (bool_decide (Batch.writes b = []))
            && is_btree (DB.index_type_of db)
         then Some (s + 1) else Some s).
Proof.
  intros opts db. apply (seq_no_persistent LittleEndian db).
  apply reach_commit, (reach_open LittleEndian opts). vm_compute. reflexivity.
Defined.

(** The same, run: two batches get the ids 1 and 2, with a restart in
    between. *)
Example seq_no_example :
  let opts := mkOptions 1024 false 0 BTREE false in
  let b1 := Ok (Batch.mk false [([x61], Some [x31])]) in
  let b2 := Ok (Batch.mk false [([x62], None)]) in
  let db1 := commit_step b1 (DB.open_db LittleEndian opts []) in
  let db2 := commit_step b2 (reopen LittleEndian (fun d => d) db1) in
  match db1, db2 with
  | Ok db1, Ok db2 => DB.seq_no db1 = Some 1 /\ DB.seq_no db2 = Some 2
  | _, _ => False
  end.
Proof. vm_compute. split; reflexivity. Qed.

(** ** Batches under the other index types *)

(** What the loop over [positions] makes of the index. *)
Definition index_after (ps : list (bytes * (LogRecordPos * bool)))
    (idx : gmap bytes LogRecordPos) : gmap bytes LogRecordPos :=
  fold_left (fun idx (p : bytes * (LogRecordPos * bool)) =>
               if snd (snd p) then <[fst p := fst (snd p)]> idx
               else base.delete (fst p) idx) ps idx.

Lemma apply_positions_index (ps : list (bytes * (LogRecordPos * bool))) :
  forall db : DB.t,
    DB.index (Batch.apply_positions ps db) = index_after ps (DB.index db).
Proof.
  induction ps as [|[k [pos b]] ps IH]; intros db; [reflexivity|].
  cbn [Batch.apply_positions index_after fold_left fst snd]. rewrite IH.
  unfold index_after. f_equal. destruct b.
  - now destruct (same_files_index_put k pos db) as (_ & -> & _).
  - now destruct (same_files_index_delete k db) as (_ & -> & _).
Qed.

(** The entries of a batch whose records [read_log_record] reads. *)
Definition entry_small (e : bytes * option bytes) : Prop :=
  fst e <> [] /\
  len (fst e) + match snd e with Some v => len v | None => 0 end
  <= DataFile.MAX_RECORD_BODY.

Lemma entry_small_readable (e : bytes * option bytes) :
  entry_small e -> readable (Batch.record_of (fst e) (snd e)).
Proof.
  destruct e as [k [v|]]; intros [Hk Hcap]; cbn in *; unfold readable; cbn; auto.
Qed.

Lemma append_writes_logged (ws : list (bytes * option bytes)) :
  forall (acc : list (bytes * (LogRecordPos * bool))) (db : DB.t)
         (segs : Z -> list LogRecord),
    wf db -> segments db segs -> Forall entry_small ws -> NoDup (map fst ws) ->
    (forall k, k ∈ map fst ws -> k ∉ map fst acc) ->
    exists ps db' segs',
      Batch.append_writes ws acc db = (Ok (acc ++ ps), db') /\ wf db' /\
      DB.index db' = DB.index db /\ segments db' segs' /\
      index_of_segments (DB.file_ids db') segs' ∅
      = index_after ps (index_of_segments (DB.file_ids db) segs ∅).
Proof.
  induction ws as [|[k v] ws IH]; intros acc db segs Hwf Hs Hsmall Hnd Hfresh.
  - exists [], db, segs. cbn. rewrite app_nil_r. auto.
  - apply Forall_cons in Hsmall as [Hkv Hsmall]. cbn [map fst] in Hnd.
    apply NoDup_cons in Hnd as [Hk Hnd].
    pose proof (entry_small_readable _ Hkv) as Hr. cbn [fst snd] in Hr.
    destruct (append_logged _ db segs Hwf Hs Hr) as (pos & db1 & segs1 & E & Hs1 & Hi1 & Hsz).
    destruct (append_spec (Batch.record_of k v) db Hwf)
      as (res & db1' & E' & Hwf1 & (Hidx1 & _) & _).
    rewrite E in E'. injection E' as <- <-.
    assert (k ∉ map fst acc) as Hka by (apply Hfresh; cbn; left).
    cbn [Batch.append_writes]. unfold mbind at 1. rewrite E.
    rewrite (dict_set_fresh acc k _ Hka).
    destruct (IH (acc ++ [(k, (pos, bool_decide (v <> None)))]) db1 segs1 Hwf1 Hs1 Hsmall Hnd)
      as (ps & db2 & segs2 & E2 & Hwf2 & Hidx2 & Hs2 & Hi2).
    { intros k' Hk'. rewrite map_app, elem_of_app. cbn [map fst].
      intros [Hin|Hin%list_elem_of_singleton].
      - revert Hin. apply Hfresh. cbn. now right.
      - subst k'. contradiction. }
    exists ((k, (pos, bool_decide (v <> None))) :: ps), db2, segs2.
    split; [rewrite E2; now rewrite <- app_assoc|].
    split; [exact Hwf2|]. split; [congruence|]. split; [exact Hs2|].
    rewrite Hi2, Hi1. cbn [index_after fold_left fst snd]. f_equal.
    unfold index_step. destruct pos as [fid off sz]. cbn [file_id offset size] in *.
    destruct v as [v|]; cbn [Batch.record_of rtype key].
    + rewrite bool_decide_true by discriminate. now rewrite Hsz.
    + rewrite bool_decide_false by (intros H; now apply H). reflexivity.
Qed.

Lemma commit_logged (b : Batch.t) (db : DB.t) (segs : Z -> list LogRecord) :
  wf db -> logged db segs ->
  is_btree (DB.index_type_of db) = false -> DB.seq_no db = Some 0 ->
  Batch.is_committed b = false ->
  NoDup (map fst (Batch.writes b)) -> Forall entry_small (Batch.writes b) ->
  exists db' segs',
    Batch.commit b db = (Ok tt, Batch.mk true (Batch.writes b), db') /\ logged db' segs'.
Proof.
  intros Hwf [Hs Hi] Hbt Hseq Hc Hnd Hsmall. unfold Batch.commit. rewrite Hc.
  destruct (Batch.writes b) as [|e ws] eqn:Ews.
  - exists db, segs. split; [reflexivity|]. now split.
  - rewrite Hseq, Hbt. cbn [Z.ltb Z.compare].
    destruct (append_writes_logged (e :: ws) [] db segs Hwf Hs Hsmall Hnd)
      as (ps & db1 & segs1 & E & Hwf1 & Hidx1 & Hs1 & Hi1).
    { intros k _. cbn. apply not_elem_of_nil. }
    cbn [app] in E. unfold Batch.commit_try. cbn [Z.ltb Z.compare].
    unfold mbind, mret, mmodify. rewrite E.
    exists (Batch.apply_positions ps db1), segs1. split; [reflexivity|]. split.
    + apply (segments_same_files db1); [apply apply_positions_same_files | exact Hs1].
    + rewrite apply_positions_index, Hidx1, Hi.
      destruct (apply_positions_same_files ps db1) as (-> & _).
      exact (eq_sym Hi1).
Qed.

(** The operations of a batch that [get] can answer for. *)
Definition batch_op_small (o : batch_op) : Prop :=
  match o with
  | BPut k v => k <> [] /\ len k + len v <= DataFile.MAX_RECORD_BODY
  | BDelete k => k <> [] /\ len k <= DataFile.MAX_RECORD_BODY
  end.

(** The calls of a batch made on a map, one after the other. *)
Fixpoint model_batch (ops : list batch_op) (m : gmap bytes bytes) : gmap bytes bytes :=
  match ops with
  | [] => m
  | BPut k v :: rest => model_batch rest (<[k := v]> m)
  | BDelete k :: rest => model_batch rest (base.delete k m)
  end.

Lemma dict_set_Forall {V} (P : bytes * V -> Prop) (d : list (bytes * V)) (k : bytes) (v : V) :
  Forall P d -> P (k, v) -> Forall P (dict_set d k v).
Proof.
  intros Hd Hkv. induction Hd as [|[k' v'] d Hx Hd IH]; cbn [dict_set].
  - now constructor.
  - destruct (decide (k = k')) as [->|]; constructor; assumption.
Qed.

Lemma run_batch_small (ops : list batch_op) :
  forall b b' : Batch.t,
    Forall batch_op_small ops -> Forall entry_small (Batch.writes b) ->
    run_batch ops b = Ok b' -> Forall entry_small (Batch.writes b').
Proof.
  induction ops as [|o ops IH]; intros b b' Hops Hb E.
  - cbn in E. now injection E as <-.
  - apply Forall_cons in Hops as [Ho Hops].
    destruct o as [k v|k]; cbn [run_batch] in E.
    + unfold Batch.put in E. destruct (Batch.is_committed b); [discriminate|].
      destruct (decide (k = [])); [discriminate|]. cbn [rbind] in E.
      apply (IH _ _ Hops) in E; [exact E|]. cbn [Batch.writes].
      apply dict_set_Forall; [exact Hb|]. exact Ho.
    + unfold Batch.delete in E. destruct (Batch.is_committed b); [discriminate|].
      destruct (decide (k = [])); [discriminate|]. cbn [rbind] in E.
      apply (IH _ _ Hops) in E; [exact E|]. cbn [Batch.writes].
      apply dict_set_Forall; [exact Hb|]. destruct Ho as [Hk Hcap].
      split; [exact Hk|]. cbn [fst snd]. lia.
Qed.

Lemma model_batch_lookup (ops : list batch_op) (k : bytes) :
  forall (m : gmap bytes bytes) (init : option (option bytes)) (m0 : gmap bytes bytes),
    m !! k = match init with Some w => w | None => m0 !! k end ->
    model_batch ops m !! k
    = match last_batch_op ops k init with Some w => w | None => m0 !! k end.
Proof.
  induction ops as [|o ops IH]; intros m init m0 Hm; [exact Hm|].
  destruct o as [k' v|k']; cbn [model_batch last_batch_op]; apply IH;
    destruct (decide (k = k')) as [->|Hne].
  - apply lookup_insert_eq.
  - now rewrite lookup_insert_ne by congruence.
  - apply lookup_delete_eq.
  - now rewrite lookup_delete_ne by congruence.
Qed.

Lemma run_batch_model (ops : list batch_op) (b : Batch.t) (m : gmap bytes bytes) :
  Forall batch_op_small ops -> run_batch ops Batch.init = Ok b ->
  Batch.is_committed b = false /\ NoDup (map fst (Batch.writes b)) /\
  Forall (fun k => k <> []) (map fst (Batch.writes b)) /\
  Forall entry_small (Batch.writes b) /\
  apply_writes (Batch.writes b) m = model_batch ops m.
Proof.
  intros Hops E.
  assert (Forall (fun o => batch_op_key o <> []) ops) as Hne.
  { eapply Forall_impl; [exact Hops|]. now intros [k v|k] [Hk _]. }
  destruct (run_batch_spec ops Batch.init eq_refl Hne (NoDup_nil_2) (Forall_nil_2 _))
    as (b1 & E1 & Hc & Hnd & Hk & Hget).
  rewrite E in E1. injection E1 as <-.
  split; [exact Hc|]. split; [exact Hnd|]. split; [exact Hk|]. split.
  - apply (run_batch_small ops Batch.init b Hops); [constructor | exact E].
  - apply map_eq. intros k. rewrite (apply_writes_lookup _ _ _ Hnd), Hget.
    symmetry. now apply model_batch_lookup.
Qed.

(** The databases that store the map [m] under an index type other
    than BTREE: opened on a new directory, written through [put],
    [delete] and batches that commit, and closed and opened again. *)
Inductive stores_batched (host : byteorder) : DB.t -> gmap bytes bytes -> Prop :=
| sb_open (opts : Options) (db : DB.t) :
    is_btree (index_type opts) = false ->
    DB.open_db host opts [] = Ok db -> stores_batched host db ∅
| sb_put (k v : bytes) (db : DB.t) (m : gmap bytes bytes) :
    stores_batched host db m -> k <> [] -> len k + len v <= DataFile.MAX_RECORD_BODY ->
    stores_batched host (snd (DB.put k v db)) (<[k := v]> m)
| sb_delete (k : bytes) (db : DB.t) (m : gmap bytes bytes) :
    stores_batched host db m -> k <> [] ->
    stores_batched host (snd (DB.delete k db)) (base.delete k m)
| sb_commit (ops : list batch_op) (b : Batch.t) (db : DB.t) (m : gmap bytes bytes) :
    stores_batched host db m -> Forall batch_op_small ops ->
    run_batch ops Batch.init = Ok b ->
    stores_batched host (snd (Batch.commit b db)) (model_batch ops m)
| sb_reopen (after : directory -> directory) (db db' : DB.t) (m : gmap bytes bytes) :
    stores_batched host db m -> (forall d, after d ≡ₚ d) ->
    reopen host after (Ok db) = Ok db' -> stores_batched host db' m.

Lemma apply_writes_small (ws : list (bytes * option bytes)) :
  forall m : gmap bytes bytes,
    (forall k v, m !! k = Some v -> len k + len v <= DataFile.MAX_RECORD_BODY) ->
    Forall entry_small ws ->
    forall k v, apply_writes ws m !! k = Some v -> len k + len v <= DataFile.MAX_RECORD_BODY.
Proof.
  induction ws as [|[k0 w0] ws IH]; intros m Hm Hws; [exact Hm|].
  apply Forall_cons in Hws as [[_ H0] Hws]. cbn [fst snd] in H0.
  rewrite apply_writes_cons. apply IH; [|exact Hws].
  intros k v. destruct w0 as [v0|]; destruct (decide (k = k0)) as [->|Hne].
  - rewrite lookup_insert_eq. now intros [= <-].
  - rewrite lookup_insert_ne by congruence. apply Hm.
  - now rewrite lookup_delete_eq.
  - rewrite lookup_delete_ne by congruence. apply Hm.
Qed.

Lemma stores_batched_durable (host : byteorder) (db : DB.t) (m : gmap bytes bytes) :
  stores_batched host db m ->
  durable db m /\ is_btree (DB.index_type_of db) = false /\ DB.seq_no db = Some 0.
Proof.
  induction 1 as [opts db Hbt E|k v db m _ IH Hk Hcap|k db m _ IH Hk
                  |ops b db m _ IH Hops Hrun|after db db' m _ IH Hafter E].
  - rewrite open_db_empty in E. injection E as <-.
    split; [|split; [exact Hbt | reflexivity]].
    split; [apply new_db_wf|]. split; [reflexivity|]. split; [apply new_db_rep|].
    split; [eexists; apply new_db_logged|]. intros k v. now rewrite lookup_empty.
  - destruct IH as ((Hwf & Hopen & Hrep & (segs & Hlog) & Hsmall) & Hbt & Hseq).
    destruct (put_options_seq_no k v db Hwf) as [Hopt Hs].
    destruct (put_spec db m k v Hwf Hrep Hopen Hk) as (res & db1 & Hput & Hwf1 & Hc1 & _ & Hres).
    destruct (put_logged db segs k v Hwf Hlog Hopen Hk Hcap) as (segs' & Hlog').
    rewrite Hput in *. cbn [snd] in *.
    split; [|unfold DB.index_type_of in *; split; congruence].
    destruct res as [[]|e];
      [|destruct Hres as [Hne _]; exfalso; apply Hne; now apply small_encodable].
    destruct Hres as [_ Hrep1].
    split; [exact Hwf1|]. split; [exact Hc1|]. split; [exact Hrep1|].
    split; [eauto|]. intros k' v'. destruct (decide (k' = k)) as [->|Hne].
    + rewrite lookup_insert_eq. now intros [= <-].
    + rewrite lookup_insert_ne by congruence. apply Hsmall.
  - destruct IH as ((Hwf & Hopen & Hrep & (segs & Hlog) & Hsmall) & Hbt & Hseq).
    destruct (delete_options_seq_no k db Hwf) as [Hopt Hs].
    destruct (delete_spec db m k Hwf Hrep Hopen Hk) as (db1 & Hdel & Hwf1 & Hc1 & _ & Hrep1).
    destruct (delete_logged db segs k Hwf Hlog Hopen Hk) as (segs' & Hlog').
    { intros [pos Hpos]. specialize (Hrep k). rewrite Hpos in Hrep.
      destruct Hrep as (v & Hm & _). specialize (Hsmall k v Hm).
      pose proof (len_nonneg v). lia. }
    rewrite Hdel in *. cbn [snd] in *.
    split; [|unfold DB.index_type_of in *; split; congruence].
    split; [exact Hwf1|]. split; [exact Hc1|]. split; [exact Hrep1|].
    split; [eauto|]. intros k' v'. destruct (decide (k' = k)) as [->|Hne].
    + now rewrite lookup_delete_eq.
    + rewrite lookup_delete_ne by congruence. apply Hsmall.
  - destruct IH as ((Hwf & Hopen & Hrep & (segs & Hlog) & Hsmall) & Hbt & Hseq).
    destruct (run_batch_model ops b m Hops Hrun) as (Hc & Hnd & Hne & Hws & Hm).
    destruct (commit_logged b db segs Hwf Hlog Hbt Hseq Hc Hnd Hws) as (db1 & segs1 & E & Hlog1).
    destruct (commit_spec b _ db db1 m Hwf Hrep Hnd Hne E) as (Hwf1 & Hrep1 & Hc1 & _).
    destruct (commit_options_seq_no b db 0 Hwf Hseq) as [Hopt Hs].
    rewrite E in *. cbn [snd fst] in *. rewrite Hbt in Hs.
    rewrite !andb_false_r in Hs. cbn [andb] in Hs.
    split; [|unfold DB.index_type_of in *; split; congruence].
    rewrite <- Hm.
    split; [exact Hwf1|]. split; [congruence|]. split; [exact Hrep1|].
    split; [eauto|]. now apply apply_writes_small.
  - destruct IH as ((Hwf & Hopen & Hrep & (segs & Hlog) & Hsmall) & Hbt & Hseq).
    destruct (reopen_logged host after db segs m Hafter Hwf Hopen Hlog Hrep)
      as (db'' & E' & Hwf' & Hc' & Hlog' & Hrep').
    rewrite E in E'. injection E' as <-.
    destruct (reopen_wf host after db Hafter Hwf Hopen) as (d1 & E1 & _ & _ & _ & Hopt).
    destruct (reopen_seq_no host after db Hafter Hwf Hopen (fun _ => Hseq)) as (d2 & E2 & Hs2).
    rewrite E in E1, E2. injection E1 as <-. injection E2 as <-.
    split; [|unfold DB.index_type_of in *; split; congruence].
    split; [exact Hwf'|]. split; [exact Hc'|]. split; [exact Hrep'|].
    split; [eauto | exact Hsmall].
Qed.

(** X15: under an index type other than BTREE, what batches committed
    is as durable as what [put] and [delete] wrote: every such commit
    returns, [get] answers with the map the calls made, the calls of a
    batch taken in their order, and so it does after the database is
    closed and opened again. *)
Theorem batch_durable_without_btree (host : byteorder) (db : DB.t) (m : gmap bytes bytes) :
  stores_batched host db m ->
  (forall k, k <> [] -> DB.get db k = Ok (m !! k)) /\
  (forall (ops : list batch_op) (b : Batch.t),
     Forall batch_op_small ops -> run_batch ops Batch.init = Ok b ->
     fst (fst (Batch.commit b db)) = Ok tt) /\
  (forall after : directory -> directory,
     (forall d, after d ≡ₚ d) ->
     exists db', reopen host after (Ok db) = Ok db' /\
                 forall k, k <> [] -> DB.get db' k = Ok (m !! k)).
Proof.
  intros Hst. pose proof (stores_batched_durable host db m Hst) as (Hd & Hbt & Hseq).
  split; [|split].
  - intros k Hk. now apply durable_get.
  - intros ops b Hops Hrun.
    destruct Hd as (Hwf & _ & _ & (segs & Hlog) & _).
    destruct (run_batch_model ops b m Hops Hrun) as (Hc & Hnd & _ & Hws & _).
    destruct (commit_logged b db segs Hwf Hlog Hbt Hseq Hc Hnd Hws) as (db1 & segs1 & E & _).
    now rewrite E.
  - intros after Hafter.
    pose proof Hd as (Hwf & Hopen & Hrep & (segs & Hlog) & Hsmall).
    destruct (reopen_logged host after db segs m Hafter Hwf Hopen Hlog Hrep)
      as (db' & E & Hwf' & Hc' & Hlog' & Hrep').
    exists db'. split; [exact E|]. intros k Hk. apply durable_get; [|exact Hk].
    split; [exact Hwf'|]. split; [exact Hc'|]. split; [exact Hrep'|].
    split; [eauto | exact Hsmall].
Qed.

Lemma batch_durable_without_btree_witness :
  let opts := mkOptions 30 false 0 ART false in
  let ops := [BPut [x61] (replicate 20 x31); BPut [x62] (replicate 20 x32); BDelete [x61]] in
  let b := Batch.mk false [([x61], None); ([x62], Some (replicate 20 x32))] in
  let db := snd (Batch.commit b (new_db opts)) in
  let m : gmap bytes bytes := model_batch ops ∅ in
  (forall k, k <> [] -> DB.get db k = Ok (m !! k)) /\
  (forall (ops : list batch_op) (b : Batch.t),
     Forall batch_op_small ops -> run_batch ops Batch.init = Ok b ->
     fst (fst (Batch.commit b db)) = Ok tt) /\
  (forall after : directory -> directory,
     (forall d, after d ≡ₚ d) ->
     exists db', reopen LittleEndian after (Ok db) = Ok db' /\
                 forall k, k <> [] -> DB.get db' k = Ok (m !! k)).
Proof.
  intros opts ops b db m. apply (batch_durable_without_btree LittleEndian db m).
  apply (sb_commit LittleEndian ops b).
  - apply (sb_open LittleEndian opts); [reflexivity | vm_compute; reflexivity].
  - repeat constructor; try discriminate; vm_compute; discriminate.
  - reflexivity.
Defined.

(** The same on an instance, run, beside the BTREE index, under which
    the scan stops at the start marker of the transaction and the batch
    is gone after the restart. *)
Example batch_restart_example :
  let b := Ok (Batch.mk false [([x61], None); ([x62], Some (replicate 20 x32))]) in
  let run (ty : IndexType) :=
    reopen LittleEndian (@rev _)
      (commit_step b (DB.open_db LittleEndian (mkOptions 30 false 0 ty false) [])) in
  get_on (run ART) [x62] = Ok (Some (replicate 20 x32)) /\
  get_on (run ART) [x61] = Ok None /\
  get_on (run BTREE) [x62] = Ok None.
Proof. vm_compute. repeat split; reflexivity. Qed.

(** ** Redis strings *)

Lemma pack_q_unpack_q (z : Z) :
  - 2 ^ 63 <= z < 2 ^ 63 ->
  exists packed, RedisDataStructure.pack_q z = Ok packed /\ length packed = 8%nat /\
                 RedisDataStructure.unpack_q packed = Ok z.
Proof.
  intros Hz. unfold RedisDataStructure.pack_q.
  destruct (- 2 ^ 63 <=? z) eqn:E1; [|zbool; lia].
  destruct (z <? 2 ^ 63) eqn:E2; [|zbool; lia]. cbn [andb].
  eexists. split; [reflexivity|]. split; [apply length_le_bytes|].
  unfold RedisDataStructure.unpack_q. rewrite length_le_bytes. cbn [Nat.eqb].
  assert (0 <= z mod 2 ^ 64 < 2 ^ 64) as Hm by (apply Z.mod_pos_bound; lia).
  rewrite le_value_le_bytes by (change (256 ^ Z.of_nat 8) with (2 ^ 64); exact Hm).
  f_equal. destruct (Z_lt_le_dec z 0) as [Hneg|Hpos].
  - assert (z mod 2 ^ 64 = z + 2 ^ 64) as ->.
    { symmetry. apply (Z.mod_unique_pos z (2 ^ 64) (-1)); lia. }
    destruct (z + 2 ^ 64 <? 2 ^ 63) eqn:E; [zbool; lia | lia].
  - rewrite Z.mod_small by lia. now rewrite E2.
Qed.

(** X16: a string stored by [set] is returned by [get] until it
    expires: with a time to live above zero, [get] returns [None] from
    the clock reading of [set] plus the time to live on, and without
    one it returns the value at every time.  The key has the type
    STRING, and after [delete] it has no value. *)
Theorem redis_string_set_get (db : DB.t) (m : gmap bytes bytes) (key value : bytes)
    (ttl now : Z) :
  wf db -> rep db m -> DB.is_closed db = false ->
  key <> [] -> len key + (9 + len value) <= DataFile.MAX_RECORD_BODY ->
  (0 < ttl -> 0 <= now /\ now + ttl < 2 ^ 63) ->
  exists db',
    RedisDataStructure.set key ttl (Some value) now db = (Ok tt, db') /\
    (forall now',
       RedisDataStructure.get db' key now'
       = inr (if (0 <? ttl) && (now + ttl <=? now') then None else Some value)) /\
    RedisDataStructure.get_type db' key = Ok (Some RedisDataStructure.STRING) /\
    exists db'',
      RedisDataStructure.delete key db' = (Ok true, db'') /\
      (forall now', RedisDataStructure.get db'' key now' = inr None) /\
      RedisDataStructure.get_type db'' key = Ok None.
Proof.
  intros Hwf Hrep Hopen Hk Hcap Httl. unfold RedisDataStructure.set.
  set (expire := if 0 <? ttl then now + ttl else 0).
  assert (- 2 ^ 63 <= expire < 2 ^ 63) as Hexp.
  { subst expire. destruct (0 <? ttl) eqn:E; [zbool; lia | lia]. }
  destruct (pack_q_unpack_q expire Hexp) as (packed & -> & Hlen & Hun).
  set (ev := [byte_of (RedisDataStructure.data_type_value RedisDataStructure.STRING)]
             ++ packed ++ value).
  assert (len ev = 9 + len value) as Hev.
  { subst ev. rewrite !len_app. unfold len. rewrite Hlen. cbn [length]. lia. }
  destruct (put_spec db m key ev Hwf Hrep Hopen Hk) as (res & db1 & Hput & Hwf1 & Hc1 & _ & Hres).
  destruct res as [[]|e];
    [|destruct Hres as [Hne _]; exfalso; apply Hne; apply small_encodable; lia].
  destruct Hres as [_ Hrep1]. exists db1. split; [exact Hput|].
  assert (DB.get db1 key = Ok (Some ev)) as Hget.
  { rewrite (get_spec db1 _ key Hrep1 Hc1 Hk), lookup_insert_eq. cbn [capped].
    destruct (_ <=? _) eqn:E; [reflexivity | zbool; lia]. }
  assert (slice 1 9 ev = packed) as Hs1.
  { apply (slice_mid_eq ev [x00] packed value); [reflexivity | reflexivity|].
    unfold len. rewrite Hlen. reflexivity. }
  assert (slice_from 9 ev = value) as Hs2.
  { subst ev. rewrite app_assoc. apply slice_from_app. rewrite len_app. unfold len.
    rewrite Hlen. reflexivity. }
  split; [|split].
  - intros now'. unfold RedisDataStructure.get. rewrite Hget.
    subst ev. cbn [app]. fold ([x00] ++ packed ++ value) in *.
    change (byte_val (byte_of (RedisDataStructure.data_type_value RedisDataStructure.STRING))
            =? RedisDataStructure.data_type_value RedisDataStructure.STRING) with true.
    cbn [negb]. 
    change (byte_of (RedisDataStructure.data_type_value RedisDataStructure.STRING)
            :: packed ++ value)
      with ([byte_of (RedisDataStructure.data_type_value RedisDataStructure.STRING)]
            ++ packed ++ value).
    rewrite Hs1, Hun, Hs2. subst expire.
    destruct (0 <? ttl) eqn:E; cbn [andb]; [|reflexivity].
    zbool. destruct (0 <? now + ttl) eqn:E2; [|zbool; lia]. cbn [andb].
    now destruct (now + ttl <=? now').
  - unfold RedisDataStructure.get_type. rewrite Hget. reflexivity.
  - destruct (delete_spec db1 _ key Hwf1 Hrep1 Hc1 Hk) as (db2 & Hdel & Hwf2 & Hc2 & _ & Hrep2).
    exists db2. unfold RedisDataStructure.delete. rewrite Hdel. split; [reflexivity|].
    assert (DB.get db2 key = Ok None) as Hget2.
    { now rewrite (get_spec db2 _ key Hrep2 Hc2 Hk), lookup_delete_eq. }
    split.
    + intros now'. unfold RedisDataStructure.get. now rewrite Hget2.
    + unfold RedisDataStructure.get_type. now rewrite Hget2.
Qed.

Lemma redis_string_set_get_witness :
  let db := new_db (mkOptions 1024 false 0 BTREE false) in
  let key := [x6b] in
  let value := [x76; x31] in
  let ttl := 1000 in
  let now := 1700000000000 in
  exists db',
    RedisDataStructure.set key ttl (Some value) now db = (Ok tt, db') /\
    (forall now',
       RedisDataStructure.get db' key now'
       = inr (if (0 <? ttl) && (now + ttl <=? now') then None else Some value)) /\
    RedisDataStructure.get_type db' key = Ok (Some RedisDataStructure.STRING) /\
    exists db'',
      RedisDataStructure.delete key db' = (Ok true, db'') /\
      (forall now', RedisDataStructure.get db'' key now' = inr None) /\
      RedisDataStructure.get_type db'' key = Ok None.
Proof.
  intros db key value ttl now.
  apply (redis_string_set_get db ∅ key value ttl now);
    [apply new_db_wf | apply new_db_rep | reflexivity | discriminate
     | vm_compute; discriminate | intros _; subst ttl now; lia].
Defined.

(** The same on an instance, run: the value is there one millisecond
    before the time to live is over and gone when it is; a negative
    expiry time is stored in two's complement. *)
Example redis_string_example :
  let db := new_db (mkOptions 1024 false 0 BTREE false) in
  let db' := snd (RedisDataStructure.set [x6b] 1000 (Some [x76; x31]) 1700000000000 db) in
  RedisDataStructure.get db' [x6b] 1700000000999 = inr (Some [x76; x31]) /\
  RedisDataStructure.get db' [x6b] 1700000001000 = inr None /\
  RedisDataStructure.pack_q (-2) = Ok [xfe; xff; xff; xff; xff; xff; xff; xff] /\
  RedisDataStructure.unpack_q [xfe; xff; xff; xff; xff; xff; xff; xff] = Ok (-2).
Proof. vm_compute. repeat split; reflexivity. Qed.

(** ** The reclaimable size *)

(** The bytes of the records the index points to. *)
Definition live_size (idx : gmap bytes LogRecordPos) : Z :=
  map_fold (fun _ (p : LogRecordPos) acc => size p + acc) 0 idx.

Definition old_size (idx : gmap bytes LogRecordPos) (k : bytes) : Z :=
  match idx !! k with
  | Some o => size o
  | None => 0
  end.

Lemma live_size_delete (idx : gmap bytes LogRecordPos) (k : bytes) :
  live_size (base.delete k idx) = live_size idx - old_size idx k.
Proof.
  unfold live_size, old_size. destruct (idx !! k) as [o|] eqn:E.
  - rewrite (map_fold_delete_L _ 0 k o idx); [lia | intros; lia | exact E].
  - rewrite delete_id by exact E. lia.
Qed.

Lemma live_size_insert (idx : gmap bytes LogRecordPos) (k : bytes) (p : LogRecordPos) :
  live_size (<[k := p]> idx) = live_size idx + size p - old_size idx k.
Proof.
  rewrite <- (insert_delete_eq idx). unfold live_size at 1.
  rewrite map_fold_insert_L; [|intros; lia | apply lookup_delete_eq].
  fold (live_size (base.delete k idx)). rewrite live_size_delete. lia.
Qed.

(** The reclaimable size and the live bytes together. *)
Definition acct (db : DB.t) : Z := DB.reclaim_size db + live_size (DB.index db).

Lemma index_put_reclaim_acct (k : bytes) (pos : LogRecordPos) (db : DB.t) :
  acct (DB.index_put_reclaim k pos db) = acct db + size pos.
Proof.
  unfold acct, DB.index_put_reclaim, Indexer.put.
  pose proof (live_size_insert (DB.index db) k pos) as H. unfold old_size in H.
  destruct (DB.index db !! k); cbn; lia.
Qed.

Lemma index_delete_reclaim_acct (k : bytes) (db : DB.t) :
  acct (DB.index_delete_reclaim k db) = acct db.
Proof.
  unfold acct, DB.index_delete_reclaim, Indexer.delete.
  pose proof (live_size_delete (DB.index db) k) as H. unfold old_size in H.
  destruct (DB.index db !! k); cbn; lia.
Qed.

(** The bytes of the NORMAL records of a segment, and of all segments. *)
Definition normal_len (r : LogRecord) : Z :=
  match rtype r with
  | NORMAL => len (layout r)
  | _ => 0
  end.

Definition normal_bytes (rs : list LogRecord) : Z :=
  fold_right (fun r acc => normal_len r + acc) 0 rs.

Definition normal_size (ids : list Z) (segs : Z -> list LogRecord) : Z :=
  fold_right (fun fid acc => normal_bytes (segs fid) + acc) 0 ids.

Lemma normal_bytes_app (rs rs' : list LogRecord) :
  normal_bytes (rs ++ rs') = normal_bytes rs + normal_bytes rs'.
Proof. unfold normal_bytes. induction rs as [|r rs IH]; cbn [app fold_right]; lia. Qed.

Lemma normal_size_app (ids ids' : list Z) (segs : Z -> list LogRecord) :
  normal_size (ids ++ ids') segs = normal_size ids segs + normal_size ids' segs.
Proof. unfold normal_size. induction ids as [|i ids IH]; cbn [app fold_right]; lia. Qed.

Lemma normal_size_ext_in (ids : list Z) (segs segs' : Z -> list LogRecord) :
  (forall fid, In fid ids -> segs' fid = segs fid) ->
  normal_size ids segs' = normal_size ids segs.
Proof.
  unfold normal_size. induction ids as [|i ids IH]; intros H; cbn [fold_right]; [reflexivity|].
  rewrite (H i) by now left. rewrite IH; [reflexivity|]. intros fid Hin. apply H. now right.
Qed.

Lemma replay_record_acct (fid off : Z) (r : LogRecord) (db : DB.t) :
  acct (DB.replay_record fid off (len (layout r)) r db) = acct db + normal_len r.
Proof.
  unfold DB.replay_record, normal_len. destruct (rtype r); try (unfold acct; lia).
  - change (acct (DB.set_bytes_write ?b ?d)) with (acct d).
    now rewrite index_put_reclaim_acct.
  - rewrite index_delete_reclaim_acct. lia.
Qed.

Lemma replay_loop_segment_acct (fid : Z) (f : DataFile.t) (rs : list LogRecord) :
  forall (fuel : nat) (pre : bytes) (off : Z) (db : DB.t),
    DataFile.io_manager f = pre ++ segment_bytes rs -> off = len pre ->
    Forall readable rs -> (length rs < fuel)%nat ->
    exists db', DB.replay_loop fuel fid f off db = Some db' /\
                acct db' = acct db + normal_bytes rs.
Proof.
  induction rs as [|r rs IH]; intros fuel pre off db Hio Hoff Hrs Hfuel.
  - destruct fuel as [|fuel]; [cbn in Hfuel; lia|]. cbn [DB.replay_loop].
    rewrite read_eof; [exists db; split; [reflexivity | cbn; lia]|].
    rewrite Hio, Hoff. cbn. rewrite app_nil_r. lia.
  - destruct fuel as [|fuel]; [cbn in Hfuel; lia|]. cbn [DB.replay_loop].
    apply Forall_cons in Hrs as [Hr Hrs]. cbn [segment_bytes flat_map] in Hio.
    rewrite (read_layout f pre (flat_map layout rs) r off Hio Hoff Hr).
    rewrite <- len_layout.
    destruct (IH fuel (pre ++ layout r) (off + len (layout r))
                (DB.replay_record fid off (len (layout r)) r db))
      as (db' & E & Hacct).
    + now rewrite <- app_assoc.
    + rewrite len_app. lia.
    + exact Hrs.
    + cbn [length] in Hfuel. lia.
    + exists db'. split; [exact E|]. rewrite Hacct, replay_record_acct.
      cbn [normal_bytes fold_right]. unfold normal_bytes. lia.
Qed.

Lemma replay_file_segment_acct (fid : Z) (f : DataFile.t) (rs : list LogRecord) (db : DB.t) :
  DataFile.io_manager f = segment_bytes rs -> Forall readable rs ->
  acct (DB.replay_file fid f db) = acct db + normal_bytes rs.
Proof.
  intros Hio Hrs. unfold DB.replay_file.
  destruct (replay_loop_segment_acct fid f rs (S (length (DataFile.io_manager f))) [] 0 db)
    as (db' & E & Hacct); [exact Hio | reflexivity | exact Hrs | |].
  - rewrite Hio. pose proof (length_segment_bytes rs). lia.
  - now rewrite E.
Qed.

Lemma load_index_acct (db : DB.t) (segs : Z -> list LogRecord) :
  wf_files db -> segments db segs ->
  acct (snd (DB.load_index_from_files db)) = acct db + normal_size (DB.file_ids db) segs.
Proof.
  intros Hwf Hsegs. unfold DB.load_index_from_files. cbn [snd].
  assert (forall l db',
             (forall fid, In fid l -> In fid (DB.file_ids db)) -> same_store db db' ->
             let F := fun (db : DB.t) fid =>
                        match (if decide (Some fid = last (DB.file_ids db))
                               then DB.active_file db else DB.older_files db !! fid) with
                        | Some f => DB.replay_file fid f db
                        | None => db
                        end in
             acct (fold_left F l db') = acct db' + normal_size l segs) as H.
  { induction l as [|fid l IH]; intros db' Hl Hst F; cbn [fold_left]; [cbn; lia|].
    assert (In fid (DB.file_ids db)) as Hin by (apply Hl; now left).
    assert (F db' fid = DB.replay_file fid
                          (default (DataFile.init 0 []) (file_of db fid)) db'
            /\ is_Some (file_of db fid)) as [HF [f Hf]].
    { destruct Hst as ((H1 & H2 & H3 & _) & _). subst F. cbv beta.
      rewrite H1, H2, H3, (scan_file_of db fid Hwf Hin).
      destruct (wf_files_file_of db fid Hwf Hin) as [f Hf]. rewrite Hf. eauto. }
    rewrite HF, Hf. cbn [default].
    destruct (Hsegs fid Hin) as [Hb Hr]. unfold file_bytes in Hb. rewrite Hf in Hb.
    destruct (replay_file_segment fid f (segs fid) db' Hb Hr) as [Hst' _].
    pose proof (replay_file_segment_acct fid f (segs fid) db' Hb Hr) as Ha.
    etransitivity.
    { apply (IH (DB.replay_file fid f db')); [|eapply same_store_trans; eassumption].
      intros x Hx. apply Hl. now right. }
    rewrite Ha. cbn [normal_size fold_right]. unfold normal_size. lia. }
  apply (H (DB.file_ids db) db); [auto | apply same_store_refl].
Qed.

Lemma open_db_acct (host : byteorder) (opts : Options) (n : Z) (d : directory)
    (others : list string) :
  1 <= n ->
  map fst d ≡ₚ map DB.get_data_file_path (seqZ 1 n) ++ others ->
  Forall other_name others ->
  (is_btree (index_type opts) = true ->
   DB.dir_lookup d DB.seq_no_path = None \/
   exists z, seq_ok z /\ DB.dir_lookup d DB.seq_no_path = Some (layout (seq_record z))) ->
  exists db',
    DB.open_db host opts d = Ok db' /\
    acct db' = acct (snd (DB.load_index_from_files (scan_start opts n d))).
Proof.
  intros Hn Hp Hoth Hseq.
  destruct (data_files_listed d n others Hp Hoth) as (ids & Hfiles & Hids).
  assert (Forall (fun i => 0 <= i) ids) as Hpos.
  { apply Forall_forall. intros i Hi. rewrite Hids in Hi. apply elem_of_seqZ in Hi. lia. }
  set (db1 := scan_start opts n d).
  assert (DB.load_data_files
            (DB.mk opts None ∅ Indexer.empty [] false (Some 0) false 0 0 d)
          = (Ok tt, db1)) as E1.
  { unfold DB.load_data_files. cbn [DB.dir_rest].
    rewrite Hfiles, (parse_file_ids_paths ids Hpos), (sort_ids_seqZ ids n Hids).
    rewrite last_seqZ, all_but_last_seqZ by lia. reflexivity. }
  assert (DB._load_merge_files db1 = (Ok tt, db1)) as E2.
  { unfold DB._load_merge_files. change (DB.dir_rest db1) with d.
    rewrite dir_lookup_None; [reflexivity|].
    apply (not_listed d n others _ Hp Hoth); [now apply not_digit|].
    intros [E|E]; vm_compute in E; discriminate. }
  assert (DB._load_index_from_hint_file host db1 = (Ok tt, db1)) as E3.
  { unfold DB._load_index_from_hint_file. change (DB.dir_rest db1) with d.
    rewrite dir_lookup_None; [reflexivity|].
    apply (not_listed d n others _ Hp Hoth); [now apply not_digit|].
    intros [E|E]; vm_compute in E; discriminate. }
  destruct (load_index_from_files_same_store db1)
    as (db2 & E4 & (Hf1 & Hf2 & Hf3 & Hf4 & Hf5) & Hf6 & Hf7).
  change (DB.dir_rest db1) with d in Hf5.
  unfold DB.open_db. cbv zeta. unfold mbind. rewrite E1. cbv beta iota.
  rewrite E2. cbv beta iota. rewrite E3. cbv beta iota. rewrite E4. cbv beta iota.
  cbn [snd].
  destruct (is_btree (index_type opts)) eqn:Eb.
  - assert (exists z, DB._load_seq_no db2 = Ok (Some z)) as (z & E5).
    { destruct (Hseq eq_refl) as [E|(z & Hz & E)].
      - exists 0. unfold DB._load_seq_no. now rewrite Hf5, E.
      - exists z. apply load_seq_no_ok; [exact Hz | now rewrite Hf5]. }
    rewrite E5. cbn [DB.active_file DB.set_seq_no]. rewrite Hf2.
    eexists. split; reflexivity.
  - eexists. split; reflexivity.
Qed.

Lemma append_accounted (r : LogRecord) (db : DB.t) (segs : Z -> list LogRecord) :
  wf db -> segments db segs -> readable r ->
  exists pos db' segs',
    DB._append_log_record r db = (Ok pos, db') /\ segments db' segs' /\
    index_of_segments (DB.file_ids db') segs' ∅
    = index_step (file_id pos) (offset pos) r
        (index_of_segments (DB.file_ids db) segs ∅) /\
    size pos = len (layout r) /\
    normal_size (DB.file_ids db') segs' = normal_size (DB.file_ids db) segs + normal_len r.
Proof.
  intros Hwf Hs Hr. unfold DB._append_log_record.
  set (db1 := if DB.needs_new_file db then DB.rollover db else db).
  assert (wf db1 /\ exists segs1,
            segments db1 segs1 /\
            index_of_segments (DB.file_ids db1) segs1 ∅
            = index_of_segments (DB.file_ids db) segs ∅ /\
            normal_size (DB.file_ids db1) segs1 = normal_size (DB.file_ids db) segs)
    as (Hwf1 & segs1 & Hs1 & Hi1 & Hn1).
  { subst db1. destruct (DB.needs_new_file db).
    - split; [now apply rollover_wf|].
      destruct (rollover_segments db segs Hwf Hs) as [A B].
      eexists. split; [exact A|]. split; [exact B|].
      destruct (rollover_active db Hwf) as (n & Hids & Hn & _ & Hids').
      rewrite Hids', normal_size_app. cbn [normal_size fold_right].
      rewrite Z.eqb_refl. cbn [normal_bytes fold_right].
      rewrite (normal_size_ext_in (DB.file_ids db) segs); [lia|].
      intros fid Hin. rewrite Hids in *. rewrite max_id_seqZ by lia.
      apply list_elem_of_In, elem_of_seqZ in Hin.
      destruct (fid =? n + 1) eqn:E; [zbool; lia | reflexivity].
    - split; [exact Hwf|]. exists segs. auto. }
  clearbody db1. pose proof Hwf1 as (n & a & Hn & Hids & Ha & Hid & Hwo & _).
  rewrite Ha, (write_log_record_ok a r (readable_encodable r Hr)).
  destruct (write_segments db1 a r
              (DataFile.write_offset a + (HEADER_SIZE + len (key r) + len (value r)))
              segs1 Hwf1 Ha Hs1 Hr) as [Hs' Hi'].
  eexists _, _, _. split; [reflexivity|]. split; [exact Hs'|].
  cbn [file_id offset size DataFile.file_id]. split; [|split].
  - rewrite Hi', Hi1, Hwo. reflexivity.
  - now rewrite len_layout.
  - rewrite <- Hn1. cbn [DB.file_ids DB.set_active_file]. rewrite Hids, Hid.
    assert (seqZ 1 n = seqZ 1 (n - 1) ++ [n]) as ->.
    { pose proof (seqZ_snoc (n - 1) ltac:(lia)) as E.
      now replace (n - 1 + 1) with n in E by lia. }
    rewrite !normal_size_app. cbn [normal_size fold_right]. rewrite Z.eqb_refl.
    rewrite normal_bytes_app. cbn [normal_bytes fold_right].
    rewrite (normal_size_ext_in (seqZ 1 (n - 1)) segs1); [lia|].
    intros fid Hin. apply list_elem_of_In, elem_of_seqZ in Hin.
    destruct (fid =? n) eqn:E; [zbool; lia | reflexivity].
Qed.

(** The invariant: the files hold the records [segs], the index is the
    one a scan builds, and the reclaimable size and the live bytes make
    up the bytes of the NORMAL records. *)
Definition accounts (db : DB.t) (segs : Z -> list LogRecord) : Prop :=
  logged db segs /\ acct db = normal_size (DB.file_ids db) segs.

Lemma sync_policy_acct (db : DB.t) : acct (DB.sync_policy db) = acct db.
Proof. unfold DB.sync_policy. now destruct (_ || _). Qed.

Lemma put_accounted (db : DB.t) (segs : Z -> list LogRecord) (k v : bytes) :
  wf db -> accounts db segs -> DB.is_closed db = false ->
  k <> [] -> len k + len v <= DataFile.MAX_RECORD_BODY ->
  exists segs', accounts (snd (DB.put k v db)) segs' /\
                acct (snd (DB.put k v db)) = acct db + (HEADER_SIZE + len k + len v).
Proof.
  intros Hwf [[Hs Hi] Hacct] Hopen Hk Hcap. unfold DB.put. rewrite Hopen.
  destruct (decide (k = [])) as [|_]; [contradiction|].
  assert (readable (mkLogRecord k v NORMAL)) as Hr by (unfold readable; cbn; auto).
  destruct (append_accounted _ db segs Hwf Hs Hr)
    as (pos & db1 & segs' & E & Hs' & Hi' & Hsz & Hn').
  destruct (append_spec (mkLogRecord k v NORMAL) db Hwf)
    as (res & db1' & E' & _ & (Hidx & Hrc & _) & _).
  rewrite E in E'. injection E' as <- <-.
  unfold mbind, mmodify. rewrite E. cbn [snd].
  assert (acct db1 = acct db) as Ha1 by (unfold acct; now rewrite Hidx, Hrc).
  assert (len (layout (mkLogRecord k v NORMAL)) = HEADER_SIZE + len k + len v) as Hlen
      by now rewrite len_layout.
  match goal with |- context [DB.sync_policy ?d] => set (db2 := DB.sync_policy d) end.
  assert (acct db2 = acct db + (HEADER_SIZE + len k + len v)) as Ha2.
  { subst db2. rewrite sync_policy_acct.
    change (acct (DB.set_bytes_write ?b ?d)) with (acct d).
    rewrite index_put_reclaim_acct. lia. }
  exists segs'. split; [|exact Ha2]. split; [split|].
  - eapply segments_same_files; [apply same_files_put_tail | exact Hs'].
  - subst db2. destruct (same_files_put_tail k pos (len k + len v) db1) as (-> & _).
    rewrite Hi'. unfold index_step. cbn [rtype key]. rewrite <- Hi, <- Hidx, <- Hsz.
    destruct pos as [pf po ps]. cbn [file_id offset size].
    unfold DB.sync_policy, DB.index_put_reclaim, Indexer.put.
    destruct (DB.index db1 !! k); cbn; destruct (_ || _); reflexivity.
  - rewrite Ha2. subst db2.
    destruct (same_files_put_tail k pos (len k + len v) db1) as (-> & _).
    rewrite Hn', Hacct. unfold normal_len. cbn [rtype]. lia.
Qed.

Lemma delete_accounted (db : DB.t) (segs : Z -> list LogRecord) (k : bytes) :
  wf db -> accounts db segs -> DB.is_closed db = false -> k <> [] ->
  (is_Some (DB.index db !! k) -> len k <= DataFile.MAX_RECORD_BODY) ->
  exists segs', accounts (snd (DB.delete k db)) segs' /\
                acct (snd (DB.delete k db)) = acct db.
Proof.
  intros Hwf [[Hs Hi] Hacct] Hopen Hk Hcap. unfold DB.delete. rewrite Hopen.
  destruct (decide (k = [])) as [|_]; [contradiction|].
  destruct (Indexer.get (DB.index db) k) as [old|] eqn:Hold;
    [|exists segs; cbn [snd]; split; [split; [split|]; assumption | reflexivity]].
  assert (readable (mkLogRecord k [] DELETED)) as Hr.
  { unfold readable. cbn [rtype key value readable_type].
    split; [reflexivity|]. split; [exact Hk|].
    unfold Indexer.get in Hold. specialize (Hcap (mk_is_Some _ _ Hold)).
    change (len (@nil byte)) with 0. lia. }
  destruct (append_accounted _ db segs Hwf Hs Hr)
    as (pos & db1 & segs' & E & Hs' & Hi' & Hsz & Hn').
  destruct (append_spec (mkLogRecord k [] DELETED) db Hwf)
    as (res & db1' & E' & _ & (Hidx & Hrc & _) & _).
  rewrite E in E'. injection E' as <- <-.
  unfold mbind, mmodify. rewrite E. cbn [snd].
  assert (acct db1 = acct db) as Ha1 by (unfold acct; now rewrite Hidx, Hrc).
  match goal with |- context [DB.sync_policy ?d] => set (db2 := DB.sync_policy d) end.
  assert (acct db2 = acct db) as Ha2.
  { subst db2. rewrite sync_policy_acct.
    change (acct (DB.set_bytes_write ?b ?d)) with (acct d).
    rewrite index_delete_reclaim_acct. exact Ha1. }
  exists segs'. split; [|exact Ha2]. split; [split|].
  - eapply segments_same_files; [apply same_files_delete_tail | exact Hs'].
  - subst db2. destruct (same_files_delete_tail k (len k) db1) as (-> & _).
    rewrite Hi'. unfold index_step. cbn [rtype key]. rewrite <- Hi, <- Hidx.
    unfold DB.sync_policy, DB.index_delete_reclaim, Indexer.delete.
    destruct (DB.index db1 !! k); cbn; destruct (_ || _); reflexivity.
  - rewrite Ha2. subst db2.
    destruct (same_files_delete_tail k (len k) db1) as (-> & _).
    rewrite Hn', Hacct. unfold normal_len. cbn [rtype]. lia.
Qed.

Lemma reopen_accounted (host : byteorder) (after : directory -> directory) (db : DB.t)
    (segs : Z -> list LogRecord) :
  (forall d, after d ≡ₚ d) -> wf db -> DB.is_closed db = false ->
  segments db segs ->
  exists db', reopen host after (Ok db) = Ok db' /\
              acct db' = normal_size (DB.file_ids db) segs.
Proof.
  intros Hafter Hwf Hopen Hs.
  destruct (close_dir after db Hafter Hwf Hopen)
    as (dbc & n & others & Ec & Eo & Hn & Hids & Hp & Hoth & Hseq).
  assert (dbc = snd (DB.close db)) as Hdbc by now rewrite Ec.
  set (d := after (DB.dir_of dbc)) in *.
  assert (is_btree (index_type (DB.options db)) = true ->
          DB.dir_lookup d DB.seq_no_path = None \/
          exists z, seq_ok z /\
                    DB.dir_lookup d DB.seq_no_path = Some (layout (seq_record z))) as Hseq'
      by (intros Hb; right; exact (Hseq Hb)).
  destruct (open_db_acct host (DB.options db) n d others Hn Hp Hoth Hseq')
    as (db' & E & Hacct).
  assert (forall i f, file_of db i = Some f ->
                      1 <= i <= n /\
                      DataFile.io_manager (DB.open_data_file d i) = DataFile.io_manager f)
    as Hsame.
  { intros i f Hf. split.
    - pose proof Hwf as (n' & a & Hn' & Hids0 & Ha & Hid & _ & Hold & _).
      assert (n' = n) as ->.
      { rewrite Hids0 in Hids. apply (f_equal (@length Z)) in Hids.
        rewrite !length_seqZ in Hids. lia. }
      unfold file_of in Hf. rewrite Ha, Hid in Hf.
      destruct (i =? n) eqn:Ei; zbool; [lia|]. destruct (Hold i f Hf). lia.
    - unfold DB.open_data_file, d. rewrite Hdbc.
      rewrite (dir_lookup_data_file after db i f Hafter Hwf Hf). reflexivity. }
  assert (segments (scan_start (DB.options db) n d) segs) as Hs1.
  { intros fid Hin. change (DB.file_ids (scan_start (DB.options db) n d)) with (seqZ 1 n) in Hin.
    rewrite <- Hids in Hin. destruct (Hs fid Hin) as [Hb Hr]. split; [|exact Hr].
    rewrite <- Hb. unfold file_bytes.
    destruct (wf_file_of db fid Hwf Hin) as [f Hf]. rewrite Hf.
    destruct (Hsame fid f Hf) as [Hr' Hio].
    now rewrite (scan_start_file_of _ n d fid Hr'). }
  exists db'. split; [unfold reopen, step; now rewrite Ec, Eo|].
  rewrite Hacct, (load_index_acct _ segs (scan_start_wf_files (DB.options db) n d Hn) Hs1).
  rewrite Hids. reflexivity.
Qed.

(** The databases whose [put] calls have written [n] bytes of records:
    opened on a new directory, written through [put] and [delete], and
    closed and opened again. *)
Inductive put_bytes (host : byteorder) : DB.t -> Z -> Prop :=
| put_bytes_open (opts : Options) (db : DB.t) :
    DB.open_db host opts [] = Ok db -> put_bytes host db 0
| put_bytes_put (k v : bytes) (db : DB.t) (n : Z) :
    put_bytes host db n -> k <> [] -> len k + len v <= DataFile.MAX_RECORD_BODY ->
    put_bytes host (snd (DB.put k v db)) (n + (HEADER_SIZE + len k + len v))
| put_bytes_delete (k : bytes) (db : DB.t) (n : Z) :
    put_bytes host db n -> k <> [] -> put_bytes host (snd (DB.delete k db)) n
| put_bytes_reopen (after : directory -> directory) (db db' : DB.t) (n : Z) :
    put_bytes host db n -> (forall d, after d ≡ₚ d) ->
    reopen host after (Ok db) = Ok db' -> put_bytes host db' n.

Lemma put_bytes_accounts (host : byteorder) (db : DB.t) (n : Z) :
  put_bytes host db n ->
  exists m segs, durable db m /\ accounts db segs /\ acct db = n.
Proof.
  induction 1 as [opts db E|k v db n _ IH Hk Hcap|k db n _ IH Hk
                  |after db db' n _ IH Hafter E].
  - rewrite open_db_empty in E. injection E as <-. exists ∅, (fun _ => []).
    split; [apply (stores_durable host), (stores_open host opts), open_db_empty|].
    split; [split; [apply new_db_logged | reflexivity] | reflexivity].
  - destruct IH as (m & segs & Hd & Hacc & Hn).
    pose proof Hd as (Hwf & Hopen & Hrep & _ & Hsmall).
    destruct (put_accounted db segs k v Hwf Hacc Hopen Hk Hcap) as (segs' & Hacc' & Ha').
    exists (<[k := v]> m), segs'. split; [|split; [exact Hacc' | lia]].
    destruct (put_spec db m k v Hwf Hrep Hopen Hk) as (res & db1 & Hput & Hwf1 & Hc1 & _ & Hres).
    rewrite Hput in *. cbn [snd] in *.
    destruct res as [[]|e];
      [|destruct Hres as [Hne _]; exfalso; apply Hne; now apply small_encodable].
    destruct Hres as [_ Hrep1]. destruct Hacc' as [Hlog' _].
    split; [exact Hwf1|]. split; [exact Hc1|]. split; [exact Hrep1|].
    split; [eauto|]. intros k' v'. destruct (decide (k' = k)) as [->|Hne].
    + rewrite lookup_insert_eq. now intros [= <-].
    + rewrite lookup_insert_ne by congruence. apply Hsmall.
  - destruct IH as (m & segs & Hd & Hacc & Hn).
    pose proof Hd as (Hwf & Hopen & Hrep & _ & Hsmall).
    destruct (delete_accounted db segs k Hwf Hacc Hopen Hk) as (segs' & Hacc' & Ha').
    { intros [pos Hpos]. specialize (Hrep k). rewrite Hpos in Hrep.
      destruct Hrep as (v & Hm & _). specialize (Hsmall k v Hm).
      pose proof (len_nonneg v). lia. }
    exists (base.delete k m), segs'. split; [|split; [exact Hacc' | lia]].
    destruct (delete_spec db m k Hwf Hrep Hopen Hk) as (db1 & Hdel & Hwf1 & Hc1 & _ & Hrep1).
    rewrite Hdel in *. cbn [snd] in *. destruct Hacc' as [Hlog' _].
    split; [exact Hwf1|]. split; [exact Hc1|]. split; [exact Hrep1|].
    split; [eauto|]. intros k' v'. destruct (decide (k' = k)) as [->|Hne].
    + now rewrite lookup_delete_eq.
    + rewrite lookup_delete_ne by congruence. apply Hsmall.
  - destruct IH as (m & segs & Hd & [Hlog Hacc] & Hn).
    pose proof Hd as (Hwf & Hopen & Hrep & _ & Hsmall).
    destruct (reopen_logged host after db segs m Hafter Hwf Hopen Hlog Hrep)
      as (db1 & E1 & Hwf' & Hc' & Hlog' & Hrep').
    destruct (reopen_accounted host after db segs Hafter Hwf Hopen (proj1 Hlog))
      as (db2 & E2 & Ha2).
    destruct (reopen_wf host after db Hafter Hwf Hopen) as (db3 & E3 & _ & Hids & _).
    rewrite E in E1, E2, E3. injection E1 as <-. injection E2 as <-. injection E3 as <-.
    exists m, segs. split; [|split; [split; [exact Hlog'|] |]].
    + split; [exact Hwf'|]. split; [exact Hc'|]. split; [exact Hrep'|].
      split; [eauto | exact Hsmall].
    + now rewrite Ha2, Hids.
    + now rewrite Ha2, <- Hacc.
Qed.

(** X17: the reclaimable size is the bytes of the records [put] has
    written less the bytes of the records the index points to: a put
    over a key and a delete move the bytes of the record they replace
    from the one to the other, and the deletion records are not
    counted.  Closing and opening the database again, which counts
    anew from the files, gives the same size. *)
Theorem reclaim_size_accounting (host : byteorder) (db : DB.t) (n : Z) :
  put_bytes host db n ->
  DB.reclaim_size db = n - live_size (DB.index db) /\
  forall after : directory -> directory,
    (forall d, after d ≡ₚ d) ->
    exists db', reopen host after (Ok db) = Ok db' /\
                DB.reclaim_size db' = DB.reclaim_size db /\
                DB.index db' = DB.index db.
Proof.
  intros Hpb. destruct (put_bytes_accounts host db n Hpb) as (m & segs & Hd & Hacc & Hn).
  split; [unfold acct in Hn; lia|]. intros after Hafter.
  assert (put_bytes host (match reopen host after (Ok db) with Ok d => d | Raise _ => db end) n
          /\ exists db', reopen host after (Ok db) = Ok db') as [Hpb' (db' & E)].
  { destruct Hd as (Hwf & Hopen & _).
    destruct (reopen_wf host after db Hafter Hwf Hopen) as (db' & E & _).
    rewrite E. split; [|eauto]. now apply (put_bytes_reopen host after db). }
  rewrite E in Hpb'. exists db'. split; [exact E|].
  destruct (put_bytes_accounts host db' n Hpb') as (m' & segs' & _ & _ & Hn').
  pose proof Hd as (Hwf & Hopen & Hrep & _ & _). destruct Hacc as [Hlog _].
  destruct (reopen_logged host after db segs m Hafter Hwf Hopen Hlog Hrep)
    as (db1 & E1 & _ & _ & [_ Hi1] & _).
  rewrite E in E1. injection E1 as <-.
  destruct (reopen_wf host after db Hafter Hwf Hopen) as (db3 & E3 & _ & Hids & _).
  rewrite E in E3. injection E3 as <-.
  assert (DB.index db' = DB.index db) as Hidx.
  { destruct Hlog as [_ Hi]. now rewrite Hi1, Hi, Hids. }
  split; [|exact Hidx]. unfold acct in *. rewrite Hidx in Hn'. lia.
Qed.

Lemma reclaim_size_accounting_witness :
  let opts := mkOptions 30 false 0 BTREE false in
  let db := snd (DB.delete [x62]
              (snd (DB.put [x62] [x32]
                 (snd (DB.put [x61] [x31; x31]
                    (snd (DB.put [x61] [x31] (new_db opts)))))))) in
  DB.reclaim_size db = 0 + (13 + 1 + 1) + (13 + 1 + 2) + (13 + 1 + 1) - live_size (DB.index db) /\
  forall after : directory -> directory,
    (forall d, after d ≡ₚ d) ->
    exists db', reopen LittleEndian after (Ok db) = Ok db' /\
                DB.reclaim_size db' = DB.reclaim_size db /\
                DB.index db' = DB.index db.
Proof.
  intros opts db.
  apply (reclaim_size_accounting LittleEndian db (0 + (13 + 1 + 1) + (13 + 1 + 2) + (13 + 1 + 1))).
  apply put_bytes_delete; [|discriminate].
  apply (put_bytes_put LittleEndian [x62] [x32]); [|discriminate | vm_compute; discriminate].
  apply (put_bytes_put LittleEndian [x61] [x31; x31]); [|discriminate | vm_compute; discriminate].
  apply (put_bytes_put LittleEndian [x61] [x31]); [|discriminate | vm_compute; discriminate].
  apply (put_bytes_open LittleEndian opts). vm_compute. reflexivity.
Defined.

(** The same on an instance, run: 46 bytes of records put, 16 of them
    live, 30 to reclaim, before and after a restart. *)
Example reclaim_example :
  let opts := mkOptions 30 false 0 BTREE false in
  let db := step (DB.delete [x62])
              (step (DB.put [x62] [x32])
                 (step (DB.put [x61] [x31; x31])
                    (step (DB.put [x61] [x31]) (DB.open_db LittleEndian opts [])))) in
  match db, reopen LittleEndian (@rev _) db with
  | Ok db, Ok db' =>
      DB.reclaim_size db = 30 /\ live_size (DB.index db) = 16 /\ DB.reclaim_size db' = 30
  | _, _ => False
  end.
Proof. vm_compute. repeat split; reflexivity. Qed.

(** ** When a data file is closed for writing *)

















(** The same on an instance, run: with [max_file_size = 30], records of
    34, 34 and 15 bytes fill two files and start a third. *)
Example sealed_files_example :
  let opts := mkOptions 30 false 0 BTREE false in
  let db := snd (DB.put [x63] [x33]
              (snd (DB.put [x62] (replicate 20 x32)
                 (snd (DB.put [x61] (replicate 20 x31) (new_db opts)))))) in
  DB.file_ids db = [1; 2; 3] /\
  map (fun i => len (file_bytes db i)) (DB.file_ids db) = [34; 34; 15].
Proof. vm_compute. split; reflexivity. Qed.
